(** * MyAlgorithm tracker platform: the result pipeline and the tracker engine

    A shallow embedding of the TypeScript sources of the tracker platform:
    - [KoreanBeautyTracker.mergeAndDedupe] (docs/tracker-platform-analysis/proof-of-concept.md),
    - [ResultProcessor.deduplicateResults], [mergeResults], [rankResults] and
      [SmartRouter.processResults] (the technical implementation guide),
    - [FirecrawlService], [TrackerEngine] (lib/services/firecrawl.ts,
      lib/trackers/engine.ts) and the [POST] handler of app/api/trackers/route.ts,
    - the [GET] handlers of app/api/trackers/route.ts and app/api/test/route.ts,
      [FirecrawlService.crawlSite], [ResultProcessor.calculateFreshness] and
      [processMedia], [KoreanBeautyTracker.searchInstagram],
      [NaturalLanguageBuilder.validateAndEnhance], [UnifiedTracker.countSources]
      and [CostOptimizer.optimizeQuery].

    JavaScript values that the code leaves untyped are modelled by [Js.JsVal].
    The numbers the ranker, the merger of trends and the cost optimizer
    compute with are IEEE 754 doubles ([float], every operation with its
    rounding). Where the code only passes a number on, or compares numbers
    that no rounding moves across the comparison (the scores of the database
    and of JSON texts, counts and instants and their differences, an age
    against whole hours), numbers are exact rationals ([Qc]) or integers
    ([Z]). Instants are milliseconds since the epoch ([Z]); strings are
    sequences of code units. Library functions the sources call (md5,
    [String.prototype.toLowerCase], [JSON.parse], [JSON.stringify]) and the
    external services are taken as parameters; console output is not
    modelled. *)

From Stdlib Require Import ZArith QArith Qcanon Ascii String Floats.
From stdpp Require Import base option strings list numbers sorting.

Set Warnings "-register-all,-inexact-float".

Local Open Scope string_scope.
Local Open Scope list_scope.

(** ** JavaScript helpers *)

Module Js.

(** Numbers: IEEE 754 binary64 values. [+], [-], [*], [/] and the
    comparisons of [float] are those of the engine, and there is one [NaN]. *)

(** The number an integer converts to: the nearest double. *)
Definition of_int (z : Z) : float := SF2Prim (binary_normalize prec emax z 0 false).

Definition is_NaN (x : float) : bool := negb (x =? x)%float.

(** [x || 0] on a number that may be missing: [undefined], [0], [-0] and
    [NaN] are falsy. *)
Definition or_zero (x : option float) : float :=
  match x with
  | Some v => if (v =? 0)%float || is_NaN v then 0%float else v
  | None => 0%float
  end.

(** [Math.max(a, b)]: [NaN] when an argument is, and [+0] above [-0]. *)
Definition Math_max (a b : float) : float :=
  if is_NaN a || is_NaN b then nan
  else if (a <? b)%float then b
  else if (b <? a)%float then a
  else if get_sign a then b else a.


(** [new Set(iterable)] followed by a spread: the elements in the order of
    their first occurrence. *)
Definition set_add (acc : list string) (x : string) : list string :=
  if decide (x ∈ acc) then acc else acc ++ [x].

Definition Set_spread (l : list string) : list string := foldl set_add [] l.

(** [Map<string, V>]: entries in insertion order; [set] on a key that is
    present replaces the value and keeps the entry's position. *)
Section JsMap.
Context {V : Type}.

Fixpoint map_get (k : string) (m : list (string * V)) : option V :=
  match m with
  | [] => None
  | (k', v) :: r => if decide (k' = k) then Some v else map_get k r
  end.

Fixpoint map_set (k : string) (v : V) (m : list (string * V)) : list (string * V) :=
  match m with
  | [] => [(k, v)]
  | (k', v') :: r =>
      if decide (k' = k) then (k, v) :: r else (k', v') :: map_set k v r
  end.

Definition map_values (m : list (string * V)) : list V := m.*2.
End JsMap.

(** A stable sort: [behind x y] says that [x] has to come after [y]; an
    element moves past its right neighbour only then. When [behind] comes
    from a consistent order, this insertion sort computes the one stable
    sorted arrangement, which is what every conforming engine returns. *)
Section StableSort.
Context {A : Type} (behind : A → A → bool).

Fixpoint sort_insert (x : A) (l : list A) : list A :=
  match l with
  | [] => [x]
  | y :: r => if behind x y then y :: sort_insert x r else x :: y :: r
  end.

Definition stable_sort (l : list A) : list A := foldr sort_insert [] l.
End StableSort.

(** [Array.prototype.sort(cmp)]: [a] comes after [b] when [cmp(a, b)] is
    positive; a comparator result that is [NaN] ([None]) counts as [0]. *)
Definition after {A : Type} (cmp : A → A → option Qc) (x y : A) : bool :=
  match cmp x y with
  | Some d => bool_decide (0 < d)%Qc
  | None => false
  end.

Definition sort {A : Type} (cmp : A → A → option Qc) (l : list A) : list A :=
  stable_sort (after cmp) l.

(** Values of type [any]: what [JSON.parse] yields, plus [undefined]. An
    object's fields are listed with distinct keys. *)
Inductive JsVal :=
| JUndefined
| JNull
| JBool (b : bool)
| JNum (q : Qc)
| JStr (s : string)
| JArr (items : list JsVal)
| JObj (fields : list (string * JsVal)).

Definition truthy (v : JsVal) : bool :=
  match v with
  | JUndefined | JNull => false
  | JBool b => b
  | JNum q => negb (bool_decide (q = Qc_of_Z 0))
  | JStr s => negb (bool_decide (s = ""))
  | JArr _ | JObj _ => true
  end.

(** [a || b]. *)
Definition js_or (a b : JsVal) : JsVal := if truthy a then a else b.

Definition of_string (o : option string) : JsVal :=
  match o with
  | Some s => JStr s
  | None => JUndefined
  end.

Definition of_number (o : option Qc) : JsVal :=
  match o with
  | Some q => JNum q
  | None => JUndefined
  end.

Definition of_nat (n : nat) : JsVal := JNum (Qc_of_Z (Z.of_nat n)).

(** [v.k] on a value that is neither [null] nor [undefined]. *)
Definition prop (v : JsVal) (k : string) : JsVal :=
  match v with
  | JObj fields => default JUndefined (map_get k fields)
  | JArr items => if decide (k = "length") then of_nat (length items) else JUndefined
  | JStr s => if decide (k = "length") then of_nat (String.length s) else JUndefined
  | _ => JUndefined
  end.

Definition nullish (v : JsVal) : bool :=
  match v with
  | JUndefined | JNull => true
  | _ => false
  end.

(** [string.slice(0, n)]. *)
Definition slice0 (n : nat) (s : string) : string := substring 0 n s.

(** The one-character strings a [for ... of] over a string yields. *)
Fixpoint chars (s : string) : list JsVal :=
  match s with
  | EmptyString => []
  | String c r => JStr (String c EmptyString) :: chars r
  end.

Definition dquote : string := String "034"%char EmptyString.
Definition newline : string := String "010"%char EmptyString.

End Js.

(** ** KoreanBeautyTracker (proof-of-concept.md) *)

Module KoreanBeautyTracker.
Import Js.

(** [Partial<BeautyTrend>] with the fields the scrapers fill in; the
    remaining fields of the interface are absent when [mergeAndDedupe]
    runs and the object spread would carry them over unchanged. *)
Record BeautyTrend := mkTrend {
  productName : option string;
  images : option (list string);
  platforms : option (list string);
  mentions : option float;
  summary : option string;
  rawContent : option string
}.

(** [!item.productName]: the name is missing or the empty string. *)
Definition nameless (item : BeautyTrend) : bool :=
  match productName item with
  | None | Some "" => true
  | Some _ => false
  end.

(** The object literal of the [has(key)] branch; the counters are added as
    doubles, [(existing.mentions || 0) + (item.mentions || 0)]. *)
Definition merge (existing item : BeautyTrend) : BeautyTrend :=
  {| productName := productName existing;
     images := Some (Set_spread (default [] (images existing) ++ default [] (images item)));
     platforms := Some (Set_spread (default [] (platforms existing) ++ default [] (platforms item)));
     mentions := Some (or_zero (mentions existing) + or_zero (mentions item))%float;
     summary := summary existing;
     rawContent := rawContent existing |}.

Section Dedupe.
(** [String.prototype.toLowerCase], the case folding of the engine. *)
Variable toLowerCase : string → string.

(** One turn of [items.forEach]. [productMap.has(key)] followed by
    [productMap.get(key)!] is the [Some] branch of [map_get]. *)
Definition dedupe_step (productMap : list (string * BeautyTrend)) (item : BeautyTrend)
  : list (string * BeautyTrend) :=
  if nameless item then productMap
  else
    let key := toLowerCase (default "" (productName item)) in
    match map_get key productMap with
    | Some existing => map_set key (merge existing item) productMap
    | None => map_set key item productMap
    end.

Definition mergeAndDedupe (items : list BeautyTrend) : list BeautyTrend :=
  map_values (foldl dedupe_step [] items).
End Dedupe.

End KoreanBeautyTracker.

(** ** ResultProcessor and SmartRouter (technical implementation guide) *)

Module ResultProcessor.
Import Js.

Record Media := mkMedia {
  media_type : string;
  media_url : string;
  media_priority : Z
}.

(** The fields of an [any] result that the processor reads or writes.
    [publishedDate] and [enrichedAt] hold the instant the date denotes. *)
Record Result := mkResult {
  title : option string;
  content : option string;
  url : option string;
  images : option (list string);
  screenshot : option string;
  source : option string;
  sources : option (list (option string));
  mentions : option Z;
  relevanceScore : option float;
  media : option (list Media);
  publishedDate : option Z;
  enrichedAt : option Z
}.

Definition set_images (v : option (list string)) (r : Result) : Result :=
  mkResult (title r) (content r) (url r) v (screenshot r) (source r) (sources r)
    (mentions r) (relevanceScore r) (media r) (publishedDate r) (enrichedAt r).
Definition set_sources (v : option (list (option string))) (r : Result) : Result :=
  mkResult (title r) (content r) (url r) (images r) (screenshot r) (source r) v
    (mentions r) (relevanceScore r) (media r) (publishedDate r) (enrichedAt r).
Definition set_content (v : option string) (r : Result) : Result :=
  mkResult (title r) v (url r) (images r) (screenshot r) (source r) (sources r)
    (mentions r) (relevanceScore r) (media r) (publishedDate r) (enrichedAt r).

(** [calculateSimilarity]: 1 on equal hashes, 0 otherwise. *)
Definition calculateSimilarity (hash1 hash2 : string) : Qc :=
  if decide (hash1 = hash2) then Qc_of_Z 1 else Qc_of_Z 0.

(** [mergeResults(existing, duplicate)]: the state of [existing] after the
    call. A missing [duplicate.content] makes the length comparison false. *)
Definition mergeResults (existing duplicate : Result) : Result :=
  let e1 :=
    match images duplicate with
    | Some imgs => set_images (Some (default [] (images existing) ++ imgs)) existing
    | None => existing
    end in
  let e2 := set_sources (Some (default [] (sources e1) ++ [source duplicate])) e1 in
  let no_content :=
    match content e2 with
    | None | Some "" => true
    | Some _ => false
    end in
  let longer :=
    match content duplicate, content e2 with
    | Some d, Some e => bool_decide (String.length e < String.length d)%nat
    | _, _ => false
    end in
  if no_content || longer then set_content (content duplicate) e2 else e2.

Section Dedup.
(** [createHash('md5').update(s).digest('hex')], from node's crypto. *)
Variable md5 : string → string.

Definition contentToHash (r : Result) : string :=
  default "" (title r) +:+ default "" (content r).

(** The objects of the input array live in [heap], object [i] being
    [results[i]] (the elements of the array are distinct objects);
    [contentHashes] and [unique] hold references into it, so that a
    merge into an object of the map shows in [unique] as well. *)
Record State := mkState {
  heap : list Result;
  contentHashes : list (string * nat);
  unique : list nat
}.

(** The inner [for ... of contentHashes] loop up to its [break]. *)
Fixpoint find_similar (hash : string) (entries : list (string * nat)) : option nat :=
  match entries with
  | [] => None
  | (existingHash, existingResult) :: rest =>
      if bool_decide (Q2Qc (85 # 100) < calculateSimilarity hash existingHash)%Qc
      then Some existingResult
      else find_similar hash rest
  end.

Definition dedup_step (st : State) (i : nat) : State :=
  match heap st !! i with
  | None => st
  | Some result =>
      let hash := md5 (contentToHash result) in
      match find_similar hash (contentHashes st) with
      | Some existing =>
          mkState (alter (λ e, mergeResults e result) existing (heap st))
                  (contentHashes st) (unique st)
      | None =>
          mkState (heap st) (map_set hash i (contentHashes st)) (unique st ++ [i])
      end
  end.

Definition dedup_run (results : list Result) : State :=
  foldl dedup_step (mkState results [] []) (seq 0 (length results)).

(** The array returned: the objects [unique] refers to, as they are when
    the loop has finished. *)
Definition deduplicateResults (results : list Result) : list Result :=
  let st := dedup_run results in
  omap (λ r, heap st !! r) (unique st).
End Dedup.

(** [new Date(r.publishedDate || r.enrichedAt).getTime()]; [None] is [NaN]. *)
Definition getTime (r : Result) : option Z :=
  match publishedDate r with
  | Some t => Some t
  | None => enrichedAt r
  end.

Definition ms_per_day : Z := 1000 * 60 * 60 * 24.

Definition qualitySources : list string := ["exa"; "firecrawl"].

(** The score the comparator of [rankResults] builds for one item, with
    [nowTime] the value of [Date.now()]. Every step is the double operation
    of the code; an instant, which [Date] keeps within 8.64e15 ms of the
    epoch, converts exactly; the time of an item without a date is [NaN],
    and so is its score. *)
Definition rank_score (nowTime : Z) (r : Result) : float :=
  let aTime :=
    match getTime r with
    | Some t => of_int t
    | None => nan
    end in
  let scoreA := 0%float in
  let scoreA := (scoreA + or_zero (relevanceScore r) * 10)%float in
  let scoreA := (scoreA + of_int (Z.of_nat (length (default [] (media r)))) * 5)%float in
  let scoreA :=
    (scoreA + Math_max 0 (10 - (of_int nowTime - aTime) / of_int ms_per_day))%float in
  match source r with
  | Some s => if decide (s ∈ qualitySources) then (scoreA + 3)%float else scoreA
  | None => scoreA
  end.

(** [scoreB - scoreA]. *)
Definition rank_cmp (nowTime : Z) (a b : Result) : float :=
  (rank_score nowTime b - rank_score nowTime a)%float.

(** [a] comes after [b] when the comparator's result is positive; a result
    that is [NaN] is not. *)
Definition rank_after (nowTime : Z) (a b : Result) : bool :=
  (0 <? rank_cmp nowTime a b)%float.

Section Rank.
(** What [Array.prototype.sort] leaves of an array on which the comparator
    is not consistent: the language leaves that order to the engine. *)
Variable inconsistent_sort : Z → list Result → list Result.

(** [rankResults(results, config)]; the comparator calls [Date.now()], whose
    value [nowTime] is taken not to change while one sort runs. When every
    item has a date, the comparator is the sign of a difference of scores
    none of which is [NaN] and the result is the stable sorted arrangement;
    an item without a date compares as equal to every other item, which
    makes the comparator inconsistent as soon as two others differ. *)
Definition rankResults (nowTime : Z) (results : list Result) : list Result :=
  if bool_decide (Forall (λ r, is_Some (getTime r)) results)
  then stable_sort (rank_after nowTime) results
  else inconsistent_sort nowTime results.
End Rank.

End ResultProcessor.

Module SmartRouter.
Import Js ResultProcessor.

(** The [filter] with the [seen] set: an item is kept when its url has not
    been met before ([undefined] is a set element like any other). *)
Fixpoint unique_by_url (seen : list (option string)) (results : list Result) : list Result :=
  match results with
  | [] => []
  | r :: rest =>
      if decide (url r ∈ seen) then unique_by_url seen rest
      else r :: unique_by_url (url r :: seen) rest
  end.

(** [(r.images?.length || 0) + (r.screenshot ? 1 : 0)]. *)
Definition hasMedia (r : Result) : Z :=
  (Z.of_nat (length (default [] (images r)))
   + match screenshot r with
     | None | Some "" => 0
     | Some _ => 1
     end)%Z.

(** [new Date(r.publishedDate || 0).getTime()]. *)
Definition dateOf (r : Result) : Z := default 0%Z (publishedDate r).

Definition process_cmp (a b : Result) : option Qc :=
  if decide (hasMedia a ≠ hasMedia b)
  then Some (Qc_of_Z (hasMedia b - hasMedia a))
  else Some (Qc_of_Z (dateOf b - dateOf a)).

Definition processResults (results : list Result) : list Result :=
  sort process_cmp (unique_by_url [] results).

End SmartRouter.

(** ** The runtime around the engine: database, services, exceptions *)

Module Runtime.
Import Js.

(** What a [throw] carries: an instance of [Error] with its message, or
    any other value. *)
Inductive Thrown :=
| ErrorObject (message : string)
| NotAnError (v : JsVal).

(** [error instanceof Error ? error.message : fallback]. *)
Definition message_or (fallback : string) (e : Thrown) : string :=
  match e with
  | ErrorObject m => m
  | NotAnError _ => fallback
  end.

Inductive Outcome (A : Type) :=
| Returned (a : A)
| Threw (e : Thrown).
Global Arguments Returned {A} a.
Global Arguments Threw {A} e.

(** [status TEXT CHECK (status IN ('pending','running','completed','failed'))]. *)
Inductive Status := pending | running | completed | failed.

(** Rows of [public.trackers], [public.tracker_runs] and
    [public.tracker_results]; the columns the engine never writes
    (user_id, schedule, followers_count, updated_at, content, videos)
    keep their defaults and are left out. *)
Record TrackerRow := mkTrackerRow {
  t_id : nat;
  t_name : string;
  t_description : option string;
  t_prompt : string;
  t_config : JsVal;
  t_sources : JsVal;
  t_is_public : bool;
  t_last_run_at : option Z;
  t_created_at : Z
}.

Record RunRow := mkRunRow {
  r_id : nat;
  r_tracker_id : nat;
  r_status : Status;
  r_error : option string;
  r_metadata : JsVal;
  r_started_at : Z;
  r_completed_at : option Z
}.

Record ResultRow := mkResultRow {
  res_id : nat;
  res_run_id : nat;
  res_tracker_id : nat;
  res_title : string;
  res_description : option string;
  res_url : option string;
  res_images : option (list string);
  res_source : option string;
  res_score : option Qc;
  res_metadata : JsVal;
  res_created_at : Z
}.

(** The database, the counter its identifiers come from, the number of
    requests made so far and the clock. *)
Record World := mkWorld {
  trackers : list TrackerRow;
  tracker_runs : list RunRow;
  tracker_results : list ResultRow;
  next_id : nat;
  db_calls : nat;
  now : Z
}.

(** A request to the database can fail by itself: the client resolves to
    [{ data: null, error }], or the promise rejects. *)
Inductive DbFault :=
| DbError (e : Thrown)
| DbReject (e : Thrown).

(** A document of the Firecrawl SDK. *)
Record FcDocument := mkFcDocument {
  fc_title : option string;
  fc_url : option string;
  fc_markdown : option string;
  fc_screenshot : option string;
  fc_score : option Qc;
  fc_metadata : JsVal
}.

(** The collaborators: which database requests fail, what the Firecrawl
    client answers ([None] for a response without [data]), the content of
    the completion's first message ([None] for [null]), [JSON.parse]
    ([None] when it throws a SyntaxError), [JSON.stringify], the error
    object of the database client, and the engine's number conversion of
    strings and objects. *)
Record Env := mkEnv {
  db_fault : nat → option DbFault;
  firecrawl_search : JsVal → Z → Outcome (option (list FcDocument));
  firecrawl_scrapeUrl : string → Outcome (option FcDocument);
  openai_chat : string → string → Outcome (option string);
  JSON_parse : string → option JsVal;
  JSON_stringify : JsVal → string;
  PostgrestError : string → Thrown;
  ToNumber_other : JsVal → option Qc
}.

(** Asynchronous code: a state transformer that returns or throws. *)
Definition M (A : Type) : Type := World → Outcome A * World.

Definition ret {A} (a : A) : M A := λ w, (Returned a, w).
Definition throw {A} (e : Thrown) : M A := λ w, (Threw e, w).
Definition lift {A} (o : Outcome A) : M A := λ w, (o, w).

Definition bind {A B} (m : M A) (k : A → M B) : M B :=
  λ w, match m w with
       | (Returned a, w') => k a w'
       | (Threw e, w') => (Threw e, w')
       end.

(** [try { body } catch (error) { handler }]. *)
Definition try_catch {A} (body : M A) (handler : Thrown → M A) : M A :=
  λ w, match body w with
       | (Returned a, w') => (Returned a, w')
       | (Threw e, w') => handler e w'
       end.

(** [new Date()] and [NOW()]: the instant the clock shows. *)
Definition current_time : M Z := λ w, (Returned (now w), w).

(** The result objects of the services: [{ success: true, ... }] or
    [{ success: false, error }]. *)
Inductive OpResult (A : Type) :=
| Success (payload : A)
| Failure (error : string).
Global Arguments Success {A} payload.
Global Arguments Failure {A} error.

Definition success {A} (r : OpResult A) : bool :=
  match r with
  | Success _ => true
  | Failure _ => false
  end.

(** A property read that throws on [null] and [undefined]. *)
Definition read (v : JsVal) (k : string) : M JsVal :=
  if nullish v
  then throw (ErrorObject ("Cannot read properties of null (reading " +:+ k +:+ ")"))
  else ret (prop v k).

(** [ToNumber]. *)
Definition ToNumber (env : Env) (v : JsVal) : option Qc :=
  match v with
  | JUndefined => None
  | JNull => Some (Qc_of_Z 0)
  | JBool b => Some (Qc_of_Z (if b then 1 else 0))
  | JNum q => Some q
  | _ => ToNumber_other env v
  end.

End Runtime.

Declare Scope js_scope.
Delimit Scope js_scope with js.
Notation "x <- m ;; k" := (Runtime.bind m (λ x, k))
  (at level 20, m at level 99, k at level 200, only parsing) : js_scope.
Notation "m ;;; k" := (Runtime.bind m (λ _, k))
  (at level 100, k at level 200, only parsing, right associativity) : js_scope.

(** ** The database client (lib/supabase/client.ts and the schema)

    The tables follow the schema of the migration; the client is the
    supabase-js query builder, of which the engine uses what is modelled
    here: a query resolves to [{ data, error }]. *)

Module Supabase.
Import Js Runtime.
Local Open Scope js_scope.

(** [{ data, error }]. *)
Inductive DbReply (A : Type) :=
| DbData (data : A)
| DbFailed (error : Thrown).
Global Arguments DbData {A} data.
Global Arguments DbFailed {A} error.

(** The payloads of the two inserts whose columns come from untyped values. *)
Record TrackerInsert := mkTrackerInsert {
  ins_name : JsVal;
  ins_description : JsVal;
  ins_prompt : string;
  ins_config : JsVal;
  ins_sources : JsVal;
  ins_is_public : bool
}.

Record ResultInsert := mkResultInsert {
  ins_run_id : nat;
  ins_tracker_id : nat;
  ins_title : JsVal;
  ins_res_description : JsVal;
  ins_url : JsVal;
  ins_images : JsVal;
  ins_source : JsVal;
  ins_score : JsVal;
  ins_metadata : JsVal
}.

(** Column values: a TEXT column takes a string or NULL, TEXT[] an array
    of strings or NULL, NUMERIC a number or NULL; [None] is a value the
    column refuses. *)
Definition text (v : JsVal) : option (option string) :=
  match v with
  | JStr s => Some (Some s)
  | JNull | JUndefined => Some None
  | _ => None
  end.

Definition text_array (v : JsVal) : option (option (list string)) :=
  match v with
  | JArr items =>
      Some <$> mapM (λ i, match i with JStr s => Some s | _ => None end) items
  | JNull | JUndefined => Some None
  | _ => None
  end.

Definition numeric (v : JsVal) : option (option Qc) :=
  match v with
  | JNum q => Some (Some q)
  | JNull | JUndefined => Some None
  | _ => None
  end.

(** One row of [tracker_results] out of its payload; [title] is NOT NULL. *)
Definition result_row (created_at : Z) (id : nat) (p : ResultInsert) : option ResultRow :=
  match text (ins_title p), text (ins_res_description p), text (ins_url p),
        text_array (ins_images p), text (ins_source p), numeric (ins_score p) with
  | Some (Some title), Some description, Some url, Some images, Some source, Some score =>
      Some (mkResultRow id (ins_run_id p) (ins_tracker_id p) title description url
              images source score (ins_metadata p) created_at)
  | _, _, _, _, _, _ => None
  end.

Fixpoint result_rows (created_at : Z) (id : nat) (ps : list ResultInsert)
  : option (list ResultRow) :=
  match ps with
  | [] => Some []
  | p :: rest =>
      match result_row created_at id p, result_rows created_at (S id) rest with
      | Some row, Some rows => Some (row :: rows)
      | _, _ => None
      end
  end.

(** [ORDER BY key DESC]; rows with equal keys keep the order of the table. *)
Definition order_desc {A : Type} (key : A → Z) : list A → list A :=
  stable_sort (λ a b, bool_decide (key a < key b)%Z).

(** [ORDER BY score DESC], NULLs first as PostgreSQL does for DESC. *)
Definition score_behind (a b : ResultRow) : bool :=
  match res_score a, res_score b with
  | Some x, Some y => bool_decide (x < y)%Qc
  | Some _, None => true
  | None, _ => false
  end.

Definition set_completed (id : nat) (at_ : Z) (metadata : JsVal) (r : RunRow) : RunRow :=
  if decide (r_id r = id)
  then mkRunRow (r_id r) (r_tracker_id r) completed (r_error r) metadata
         (r_started_at r) (Some at_)
  else r.

Definition set_last_run (id : nat) (at_ : Z) (t : TrackerRow) : TrackerRow :=
  if decide (t_id t = id)
  then mkTrackerRow (t_id t) (t_name t) (t_description t) (t_prompt t) (t_config t)
         (t_sources t) (t_is_public t) (Some at_) (t_created_at t)
  else t.

Section Client.
Variable env : Env.

Definition tick (w : World) : World :=
  mkWorld (trackers w) (tracker_runs w) (tracker_results w) (next_id w)
    (S (db_calls w)) (now w).

(** One awaited query: the environment decides whether the request fails
    by itself; otherwise the query runs against the tables. *)
Definition request {A} (query : World → DbReply A * World) : M (DbReply A) :=
  λ w, match db_fault env (db_calls w) with
       | Some (DbError e) => (Returned (DbFailed e), tick w)
       | Some (DbReject e) => (Threw e, tick w)
       | None => let '(reply, w') := query (tick w) in (Returned reply, w')
       end.

(** [.single()]. *)
Definition single {A} (rows : list A) : DbReply A :=
  match rows with
  | [row] => DbData row
  | _ => DbFailed (PostgrestError env "JSON object requested, multiple (or no) rows returned")
  end.

(** [from('trackers').select('*').eq('id', id).single()]. *)
Definition select_tracker (id : nat) : M (DbReply TrackerRow) :=
  request (λ w, (single (filter (λ t, t_id t = id) (trackers w)), w)).

(** [from('trackers').insert(row).select().single()]; [name] is NOT NULL. *)
Definition insert_tracker (row : TrackerInsert) : M (DbReply TrackerRow) :=
  request (λ w,
    match text (ins_name row), text (ins_description row) with
    | Some (Some name), Some description =>
        let t := mkTrackerRow (next_id w) name description (ins_prompt row)
                   (ins_config row) (ins_sources row) (ins_is_public row) None (now w) in
        (DbData t,
         mkWorld (trackers w ++ [t]) (tracker_runs w) (tracker_results w)
           (S (next_id w)) (db_calls w) (now w))
    | _, _ => (DbFailed (PostgrestError env "invalid input for relation trackers"), w)
    end).

(** [from('tracker_runs').insert({ tracker_id, status }).select().single()]. *)
Definition insert_run (tracker_id : nat) (status : Status) : M (DbReply RunRow) :=
  request (λ w,
    let r := mkRunRow (next_id w) tracker_id status None JNull (now w) None in
    (DbData r,
     mkWorld (trackers w) (tracker_runs w ++ [r]) (tracker_results w)
       (S (next_id w)) (db_calls w) (now w))).

(** [from('tracker_results').insert(rows)]: all rows or none. *)
Definition insert_results (rows : list ResultInsert) : M (DbReply ()) :=
  request (λ w,
    match result_rows (now w) (next_id w) rows with
    | Some new =>
        (DbData (),
         mkWorld (trackers w) (tracker_runs w) (tracker_results w ++ new)
           (next_id w + length new) (db_calls w) (now w))
    | None => (DbFailed (PostgrestError env "invalid input for relation tracker_results"), w)
    end).

(** [from('tracker_runs').update({ status: 'completed', completed_at,
    metadata }).eq('id', id)]. *)
Definition update_run_completed (id : nat) (at_ : Z) (metadata : JsVal) : M (DbReply ()) :=
  request (λ w,
    (DbData (),
     mkWorld (trackers w) (set_completed id at_ metadata <$> tracker_runs w)
       (tracker_results w) (next_id w) (db_calls w) (now w))).

(** [from('trackers').update({ last_run_at }).eq('id', id)]. *)
Definition update_last_run (id : nat) (at_ : Z) : M (DbReply ()) :=
  request (λ w,
    (DbData (),
     mkWorld (set_last_run id at_ <$> trackers w) (tracker_runs w)
       (tracker_results w) (next_id w) (db_calls w) (now w))).

(** [from('tracker_runs').select('*').eq('tracker_id', id)
    .order('started_at', { ascending: false }).limit(1).single()]. *)
Definition latest_run_of (id : nat) (runs : list RunRow) : list RunRow :=
  take 1 (order_desc r_started_at (filter (λ r, r_tracker_id r = id) runs)).

Definition select_latest_run (id : nat) : M (DbReply RunRow) :=
  request (λ w, (single (latest_run_of id (tracker_runs w)), w)).

(** [from('tracker_results').select('*').eq('run_id', id)
    .order('score', { ascending: false })]. *)
Definition results_of_run (id : nat) (rows : list ResultRow) : list ResultRow :=
  stable_sort score_behind (filter (λ r, res_run_id r = id) rows).

Definition select_results (id : nat) : M (DbReply (list ResultRow)) :=
  request (λ w, (DbData (results_of_run id (tracker_results w)), w)).

(** [from('trackers').select('*').eq('is_public', true)
    .order('created_at', { ascending: false }).limit(20)]. *)
Definition select_public_trackers : M (DbReply (list TrackerRow)) :=
  request (λ w,
    (DbData (take 20 (order_desc t_created_at
                        (filter (λ t, t_is_public t = true) (trackers w)))), w)).
End Client.

End Supabase.

(** ** FirecrawlService (lib/services/firecrawl.ts) *)

Module FirecrawlService.
Import Js Runtime.
Local Open Scope js_scope.

(** An element of [data] as [search] shapes it. *)
Record SearchItem := mkSearchItem {
  title : option string;
  url : option string;
  content : option string;
  screenshot : option string;
  score : option Qc
}.

Record ScrapeData := mkScrapeData {
  scrape_title : option string;
  scrape_content : option string;
  scrape_screenshot : option string;
  scrape_metadata : JsVal;
  scrape_url : string
}.

Definition search_item (item : FcDocument) : SearchItem :=
  mkSearchItem (fc_title item) (fc_url item) (fc_markdown item)
    (fc_screenshot item) (fc_score item).

Section Service.
Variable env : Env.

(** The [try] block of [scrapeUrl]. *)
Definition scrapeUrl_body (url : string) : M (OpResult ScrapeData) :=
  result <- lift (firecrawl_scrapeUrl env url) ;;
  ret (Success
         (mkScrapeData (result ≫= fc_title) (result ≫= fc_markdown)
            (result ≫= fc_screenshot)
            (default JUndefined (fc_metadata <$> result)) url)).

Definition scrapeUrl (url : string) : M (OpResult ScrapeData) :=
  try_catch (scrapeUrl_body url)
    (λ error, ret (Failure (message_or "Failed to scrape URL" error))).

(** The [try] block of [search]. *)
Definition search_body (query : JsVal) (limit : Z) : M (OpResult (list SearchItem)) :=
  results <- lift (firecrawl_search env query limit) ;;
  ret (Success
         match results with
         | Some data => search_item <$> data
         | None => []
         end).

Definition search (query : JsVal) (limit : Z) : M (OpResult (list SearchItem)) :=
  try_catch (search_body query limit)
    (λ error, ret (Failure (message_or "Search failed" error))).
End Service.

End FirecrawlService.

(** ** TrackerEngine (lib/trackers/engine.ts) *)

Module TrackerEngine.
Import Js Runtime Supabase.
Local Open Scope js_scope.

(** [TrackerConfig] as the route fills it: [name] may be missing. *)
Record TrackerConfig := mkConfig {
  name : option string;
  prompt : string;
  description : option string;
  isPublic : option bool
}.

Record RunPayload := mkRunPayload {
  results : JsVal;
  runId : nat
}.

Record TrackerView := mkTrackerView {
  tracker : TrackerRow;
  latestRun : option RunRow;
  view_results : list ResultRow
}.

(** The system messages; the indentation of the template literals is not
    reproduced. *)
Definition parse_instructions : string :=
  "Parse the user's tracking request and extract:" +:+ newline +:+
  "1. A short name for the tracker (3-5 words)" +:+ newline +:+
  "2. A description (1 sentence)" +:+ newline +:+
  "3. Which platforms/sources to track from (tiktok, instagram, reddit, product hunt, etc)" +:+ newline +:+
  "4. Search queries to use for finding content" +:+ newline +:+
  "Return as JSON with keys: name, description, sources, queries".

Definition enrich_instructions (trackerPrompt : string) : string :=
  "You are analyzing search results for a tracker: " +:+ dquote +:+ trackerPrompt
    +:+ dquote +:+ "." +:+ newline +:+
  "Score each result's relevance from 0-10." +:+ newline +:+
  "Extract key insights and improve descriptions." +:+ newline +:+
  "Return JSON array with same structure but enhanced.".

(** [content || fallback] on the message content. *)
Definition content_or (fallback : string) (content : option string) : string :=
  match content with
  | None | Some "" => fallback
  | Some s => s
  end.

(** [config.isPublic || true]. *)
Definition isPublic_or_true (isPublic : option bool) : bool :=
  match isPublic with
  | Some true => true
  | Some false | None => true
  end.

(** The [TrackerResult] object [searchWithFirecrawl] builds for one item. *)
Definition tracker_result (item : FirecrawlService.SearchItem) : JsVal :=
  JObj [("title", js_or (of_string (FirecrawlService.title item)) (JStr "Untitled"));
        ("description", of_string (slice0 200 <$> FirecrawlService.content item));
        ("url", of_string (FirecrawlService.url item));
        ("images",
          match FirecrawlService.screenshot item with
          | None | Some "" => JArr []
          | Some shot => JArr [JStr shot]
          end);
        ("source", JStr "firecrawl");
        ("score", of_number (FirecrawlService.score item));
        ("metadata", JObj [("raw_content", of_string (FirecrawlService.content item))])].

(** The fallback of [parsePrompt]. *)
Definition fallback_parse (prompt : string) : JsVal :=
  JObj [("name", JStr (slice0 50 prompt));
        ("description", JStr prompt);
        ("sources", JArr [JStr "web"]);
        ("queries", JArr [JStr prompt])].

Section Engine.
Variable env : Env.

(** [JSON.parse(text)]. *)
Definition parse (text : string) : M JsVal :=
  match JSON_parse env text with
  | Some v => ret v
  | None => throw (ErrorObject "Unexpected token in JSON")
  end.

Definition parsePrompt (prompt : string) : M JsVal :=
  try_catch
    (content <- lift (openai_chat env parse_instructions prompt) ;;
     parse (content_or "{}" content))
    (λ _, ret (fallback_parse prompt)).

(** [given || parsed[key]]: the property is read only when [given] is
    falsy. *)
Definition given_or (given : option string) (parsed : JsVal) (key : string) : M JsVal :=
  if truthy (of_string given) then ret (of_string given) else read parsed key.

(** The [try] block of [createTracker]. *)
Definition createTracker_body (config : TrackerConfig) : M (OpResult TrackerRow) :=
  parsed <- parsePrompt (prompt config) ;;
  name <- given_or (name config) parsed "name" ;;
  description <- given_or (description config) parsed "description" ;;
  queries <- read parsed "queries" ;;
  platforms <- read parsed "sources" ;;
  sources <- read parsed "sources" ;;
  reply <- insert_tracker env
             (mkTrackerInsert name description (prompt config)
                (JObj [("queries", queries); ("platforms", platforms)])
                sources (isPublic_or_true (isPublic config))) ;;
  match reply with
  | DbFailed error => throw error
  | DbData tracker => ret (Success tracker)
  end.

Definition createTracker (config : TrackerConfig) : M (OpResult TrackerRow) :=
  try_catch (createTracker_body config)
    (λ error, ret (Failure (message_or "Failed to create tracker" error))).

Definition searchWithFirecrawl (query : JsVal) : M (list JsVal) :=
  result <- FirecrawlService.search env query 5 ;;
  match result with
  | Failure _ => ret []
  | Success data => ret (tracker_result <$> data)
  end.

Definition enrichResults (results : list JsVal) (trackerPrompt : string) : M JsVal :=
  match results with
  | [] => ret (JArr [])
  | _ =>
      try_catch
        (content <- lift (openai_chat env (enrich_instructions trackerPrompt)
                            (JSON_stringify env (JArr (take 10 results)))) ;;
         enhanced <- parse (content_or ("{" +:+ dquote +:+ "results" +:+ dquote +:+ ":[]}") content) ;;
         enhanced_results <- read enhanced "results" ;;
         ret (js_or enhanced_results (JArr results)))
        (λ _, ret (JArr results))
  end.

(** [tracker.config?.queries || [tracker.prompt]]. *)
Definition queries_of (tracker : TrackerRow) : JsVal :=
  js_or (if nullish (t_config tracker) then JUndefined else prop (t_config tracker) "queries")
        (JArr [JStr (t_prompt tracker)]).

(** The values a [for ... of] goes through. *)
Definition iterate (v : JsVal) : M (list JsVal) :=
  match v with
  | JArr items => ret items
  | JStr s => ret (chars s)
  | _ => throw (ErrorObject "queries is not iterable")
  end.

(** The [for (const query of queries)] loop. *)
Fixpoint collect (queries : list JsVal) (results : list JsVal) : M (list JsVal) :=
  match queries with
  | [] => ret results
  | query :: rest =>
      searchResult <- searchWithFirecrawl query ;;
      collect rest (results ++ searchResult)
  end.

(** [enrichedResults.length > 0]. *)
Definition has_length (enrichedResults : JsVal) : bool :=
  match ToNumber env (prop enrichedResults "length") with
  | Some n => bool_decide (Qc_of_Z 0 < n)%Qc
  | None => false
  end.

(** The callback of [enrichedResults.map]. *)
Definition to_insert (run_id trackerId : nat) (result : JsVal) : M ResultInsert :=
  title <- read result "title" ;;
  description <- read result "description" ;;
  url <- read result "url" ;;
  images <- read result "images" ;;
  source <- read result "source" ;;
  score <- read result "score" ;;
  metadata <- read result "metadata" ;;
  ret (mkResultInsert run_id trackerId title description url images source score metadata).

Fixpoint map_array {B} (f : JsVal → M B) (items : list JsVal) : M (list B) :=
  match items with
  | [] => ret []
  | item :: rest =>
      b <- f item ;;
      bs <- map_array f rest ;;
      ret (b :: bs)
  end.

(** [enrichedResults.map(callback)]: only an array has [map]. *)
Definition map_results {B} (f : JsVal → M B) (enrichedResults : JsVal) : M (list B) :=
  match enrichedResults with
  | JArr items => map_array f items
  | _ => throw (ErrorObject "enrichedResults.map is not a function")
  end.

(** The [try] block of [runTracker]. *)
Definition runTracker_body (trackerId : nat) : M (OpResult RunPayload) :=
  found <- select_tracker env trackerId ;;
  tracker <- match found with
             | DbData tracker => ret tracker
             | DbFailed _ => throw (ErrorObject "Tracker not found")
             end ;;
  created <- insert_run env trackerId running ;;
  run <- match created with
         | DbData run => ret run
         | DbFailed runError => throw runError
         end ;;
  queries <- iterate (queries_of tracker) ;;
  results <- collect queries [] ;;
  enrichedResults <- enrichResults results (t_prompt tracker) ;;
  (if has_length enrichedResults
   then
     resultsToInsert <- map_results (to_insert (r_id run) trackerId) enrichedResults ;;
     insert_results env resultsToInsert ;;;
     ret ()
   else ret ()) ;;;
  completed_at <- current_time ;;
  update_run_completed env (r_id run) completed_at
    (JObj [("results_count", prop enrichedResults "length")]) ;;;
  last_run_at <- current_time ;;
  update_last_run env trackerId last_run_at ;;;
  ret (Success (mkRunPayload enrichedResults (r_id run))).

Definition runTracker (trackerId : nat) : M (OpResult RunPayload) :=
  try_catch (runTracker_body trackerId)
    (λ error, ret (Failure (message_or "Failed to run tracker" error))).

(** The [try] block of [getTrackerWithResults]. *)
Definition getTrackerWithResults_body (trackerId : nat) : M (OpResult TrackerView) :=
  found <- select_tracker env trackerId ;;
  tracker <- match found with
             | DbData tracker => ret tracker
             | DbFailed trackerError => throw trackerError
             end ;;
  latest <- select_latest_run env trackerId ;;
  match latest with
  | DbData latestRun =>
      runResults <- select_results env (r_id latestRun) ;;
      ret (Success
             (mkTrackerView tracker (Some latestRun)
                match runResults with
                | DbData rows => rows
                | DbFailed _ => []
                end))
  | DbFailed _ => ret (Success (mkTrackerView tracker None []))
  end.

Definition getTrackerWithResults (trackerId : nat) : M (OpResult TrackerView) :=
  try_catch (getTrackerWithResults_body trackerId)
    (λ error, ret (Failure (message_or "Failed to get tracker" error))).

(** The [try] block of [getPublicTrackers]. *)
Definition getPublicTrackers_body : M (OpResult (list TrackerRow)) :=
  reply <- select_public_trackers env ;;
  match reply with
  | DbFailed error => throw error
  | DbData trackers => ret (Success trackers)
  end.

Definition getPublicTrackers : M (OpResult (list TrackerRow)) :=
  try_catch getPublicTrackers_body
    (λ error, ret (Failure (message_or "Failed to get trackers" error))).
End Engine.

End TrackerEngine.

(** ** The route handler (app/api/trackers/route.ts) *)

Module Route.
Import Js Runtime TrackerEngine.
Local Open Scope js_scope.

(** The JSON body of the request, with the fields the handler reads. *)
Record Body := mkBody {
  body_prompt : option string;
  body_name : option string;
  body_description : option string;
  body_isPublic : option bool
}.

Inductive ResponseBody :=
| ErrorBody (error : string)
| CreatedBody (tracker : TrackerRow) (run : OpResult RunPayload).

Record Response := mkResponse {
  status : Z;
  json : ResponseBody
}.

(** [!prompt]. *)
Definition no_prompt (prompt : option string) : bool :=
  match prompt with
  | None | Some "" => true
  | Some _ => false
  end.

Section Handler.
Variable env : Env.

(** [POST(request)]; [None] is a request whose body is not JSON, on
    which [request.json()] rejects. *)
Definition POST (request : option Body) : M Response :=
  try_catch
    (body <- match request with
             | Some body => ret body
             | None => throw (ErrorObject "Unexpected end of JSON input")
             end ;;
     if no_prompt (body_prompt body)
     then ret (mkResponse 400 (ErrorBody "Prompt is required"))
     else
       createResult <- createTracker env
                         (mkConfig (body_name body) (default "" (body_prompt body))
                            (body_description body)
                            (Some (negb (bool_decide (body_isPublic body = Some false))))) ;;
       match createResult with
       | Failure error => ret (mkResponse 500 (ErrorBody error))
       | Success tracker =>
           runResult <- runTracker env (t_id tracker) ;;
           ret (mkResponse 200 (CreatedBody tracker runResult))
       end)
    (λ _, ret (mkResponse 500 (ErrorBody "Failed to create tracker"))).
End Handler.

End Route.

(** ** The listing handler (app/api/trackers/route.ts, GET) *)

Module TrackersRoute.
Import Js Runtime TrackerEngine.
Local Open Scope js_scope.

Inductive ListBody :=
| ListError (error : string)
| Trackers (trackers : list TrackerRow).

(** [NextResponse.json(body)] answers with status 200 unless told otherwise. *)
Record ListResponse := mkListResponse {
  list_status : Z;
  list_json : ListBody
}.

Section Handler.
Variable env : Env.

Definition GET : M ListResponse :=
  try_catch
    (result <- getPublicTrackers env ;;
     match result with
     | Failure error => ret (mkListResponse 500 (ListError error))
     | Success trackers => ret (mkListResponse 200 (Trackers trackers))
     end)
    (λ _, ret (mkListResponse 500 (ListError "Failed to fetch trackers"))).
End Handler.

End TrackersRoute.

(** ** The test endpoint (app/api/test/route.ts) *)

Module TestRoute.
Import Js Runtime.
Local Open Scope js_scope.

(** [process.env]: the three keys the handler looks at. *)
Record ProcessEnv := mkProcessEnv {
  FIRECRAWL_API_KEY : option string;
  EXA_API_KEY : option string;
  OPENAI_API_KEY : option string
}.

(** [!!key]. *)
Definition has_key (key : option string) : bool :=
  match key with
  | None | Some "" => false
  | Some _ => true
  end.

Record ServiceReport := mkServiceReport {
  hasKey : bool;
  service_status : string
}.

Inductive TestBody :=
| TestOk (timestamp : Z) (firecrawl exa openai : ServiceReport)
| TestError (error : string).

Record TestResponse := mkTestResponse {
  test_status : Z;
  test_json : TestBody
}.

Section Handler.
Variable env : Env.
Variable process_env : ProcessEnv.

Definition GET : M TestResponse :=
  try_catch
    (let hasFirecrawlKey := has_key (FIRECRAWL_API_KEY process_env) in
     let hasExaKey := has_key (EXA_API_KEY process_env) in
     let hasOpenAIKey := has_key (OPENAI_API_KEY process_env) in
     firecrawlStatus <-
       (if hasFirecrawlKey
        then
          result <- FirecrawlService.search env (JStr "test") 1 ;;
          ret (if success result then "Connected" else "Failed")
        else ret "Not tested") ;;
     timestamp <- current_time ;;
     ret (mkTestResponse 200
            (TestOk timestamp
               (mkServiceReport hasFirecrawlKey firecrawlStatus)
               (mkServiceReport hasExaKey (if hasExaKey then "Ready" else "No key"))
               (mkServiceReport hasOpenAIKey (if hasOpenAIKey then "Ready" else "No key")))))
    (λ error, ret (mkTestResponse 500 (TestError (message_or "Unknown error" error)))).
End Handler.

End TestRoute.

(** ** FirecrawlService.crawlSite (lib/services/firecrawl.ts) *)

Module FirecrawlCrawl.
Import Js Runtime.

(** What [checkCrawlStatus] resolves to. *)
Record CrawlStatus := mkCrawlStatus {
  crawl_status : option string;
  crawl_data : option (list FcDocument)
}.

(** The crawl endpoints of the client: [crawlUrl] with the url and the
    page limit, and [checkCrawlStatus] with the job and the number of
    checks made before this one. *)
Record CrawlClient := mkCrawlClient {
  crawlUrl : string → Z → Outcome JsVal;
  checkCrawlStatus : JsVal → nat → Outcome CrawlStatus
}.

Record CrawlPage := mkCrawlPage {
  page_url : option string;
  page_title : option string;
  page_content : option string;
  page_metadata : JsVal
}.

Definition crawl_page (page : FcDocument) : CrawlPage :=
  mkCrawlPage (fc_url page) (fc_title page) (fc_markdown page) (fc_metadata page).

Section Service.
Variable client : CrawlClient.

(** The [while (true)] loop, [checks] checks having been made; it is cut
    off after [fuel] turns, and [None] says that it is still running
    then. The two-second pause between two checks is not modelled. *)
Fixpoint poll (jobId : JsVal) (fuel checks : nat) : option (Outcome CrawlStatus) :=
  match fuel with
  | 0 => None
  | S fuel' =>
      match checkCrawlStatus client jobId checks with
      | Threw e => Some (Threw e)
      | Returned result =>
          if bool_decide (crawl_status result = Some "completed")
          then Some (Returned result)
          else poll jobId fuel' (S checks)
      end
  end.

Definition crawlSite (url : string) (maxPages : Z) (fuel : nat)
  : option (OpResult (list CrawlPage)) :=
  match crawlUrl client url maxPages with
  | Threw error => Some (Failure (message_or "Crawl failed" error))
  | Returned job =>
      if nullish job
      then Some (Failure "Cannot read properties of null (reading jobId)")
      else
        match poll (prop job "jobId") fuel 0 with
        | None => None
        | Some (Threw error) => Some (Failure (message_or "Crawl failed" error))
        | Some (Returned result) =>
            Some (Success
                    match crawl_data result with
                    | Some pages => crawl_page <$> pages
                    | None => []
                    end)
        end
  end.
End Service.

End FirecrawlCrawl.

(** ** ResultProcessor: freshness and media (technical implementation guide) *)

Module Card.
Import Js ResultProcessor.

Definition ms_per_hour : Z := 1000 * 60 * 60.

(** [calculateFreshness(result)], with [nowTime] the value of
    [Date.now()]; a date that is [NaN] fails every comparison. The age is
    a whole number of milliseconds and the thresholds are whole hours, so
    the quotient is compared exactly: rounding it to a double moves it
    across no threshold. *)
Definition calculateFreshness (nowTime : Z) (result : Result) : Z :=
  match getTime result with
  | None => 2
  | Some publishTime =>
      let hoursSince := (Qc_of_Z (nowTime - publishTime) / Qc_of_Z ms_per_hour)%Qc in
      if bool_decide (hoursSince < Qc_of_Z 1)%Qc then 10
      else if bool_decide (hoursSince < Qc_of_Z 24)%Qc then 8
      else if bool_decide (hoursSince < Qc_of_Z 72)%Qc then 6
      else if bool_decide (hoursSince < Qc_of_Z 168)%Qc then 4
      else 2
  end%Z.

(** An entry of the [media] array as [processMedia] builds it; [Media]
    keeps of it the type, the url and the priority. *)
Record MediaEntry := mkMediaEntry {
  entry_type : string;
  entry_url : string;
  entry_caption : option string;
  entry_priority : Z
}.

Definition to_media (e : MediaEntry) : Media :=
  mkMedia (entry_type e) (entry_url e) (entry_priority e).

Definition set_media (v : option (list Media)) (r : Result) : Result :=
  mkResult (title r) (content r) (url r) (images r) (screenshot r) (source r) (sources r)
    (mentions r) (relevanceScore r) v (publishedDate r) (enrichedAt r).

(** The entries pushed for one result whose [imageCaptions] is
    [imageCaptions]: the screenshot when there is one, then the images. *)
Definition collect_media (result : Result) (imageCaptions : option (list string))
  : list MediaEntry :=
  match screenshot result with
  | None | Some "" => []
  | Some shot => [mkMediaEntry "screenshot" shot None 1]
  end
  ++ imap (λ idx img, mkMediaEntry "image" img (imageCaptions ≫= (λ cs, cs !! idx)) 2)
       (default [] (images result)).

(** [media.sort((a, b) => a.priority - b.priority).slice(0, 4)]. *)
Definition card_media (result : Result) (imageCaptions : option (list string))
  : list MediaEntry :=
  take 4 (sort (λ a b, Some (Qc_of_Z (entry_priority a - entry_priority b)))
            (collect_media result imageCaptions)).

(** [processMedia(results)]: each result paired with its [imageCaptions]. *)
Definition processMedia (results : list (Result * option (list string))) : list Result :=
  (λ r, set_media (Some (to_media <$> card_media r.1 r.2)) r.1) <$> results.

(** A ranked result as [formatForDisplay] reads it: the fields of
    [Result] and the ones enrichment may have added. *)
Record Ranked := mkRanked {
  ranked : Result;
  ranked_id : option string;
  ranked_summary : JsVal;
  ranked_tags : JsVal;
  ranked_sentiment : JsVal
}.

Record Metrics := mkMetrics {
  relevance : option float;
  freshness : Z;
  engagement : Z
}.

Record DisplayCard := mkDisplayCard {
  card_id : string;
  position : nat;
  card_title : option string;
  card_summary : JsVal;
  card_url : option string;
  card_source : option string;
  display_media : list Media;
  card_tags : JsVal;
  card_sentiment : JsVal;
  metrics : Metrics;
  publishedAt : option Z;
  processedAt : Z
}.

Section Display.
Variable md5 : string → string.
Variable nowTime : Z.

(** [result.id || createHash('md5').update(result.url).digest('hex')]:
    [update] throws a TypeError on [undefined]. *)
Definition display_id (result : Ranked) : Runtime.Outcome string :=
  match ranked_id result with
  | Some (String c s) => Runtime.Returned (String c s)
  | Some "" | None =>
      match url (ranked result) with
      | Some u => Runtime.Returned (md5 u)
      | None =>
          Runtime.Threw
            (Runtime.ErrorObject
               ("The " +:+ dquote +:+ "data" +:+ dquote +:+
                " argument must be of type string or an instance of Buffer, TypedArray, or DataView. Received undefined"))
      end
  end.

(** The callback of [results.map] at [index]. *)
Definition display_card (id : string) (index : nat) (result : Ranked) : DisplayCard :=
  mkDisplayCard id (index + 1) (title (ranked result)) (ranked_summary result)
    (url (ranked result)) (source (ranked result))
    (default [] (media (ranked result)))
    (js_or (ranked_tags result) (JArr []))
    (ranked_sentiment result)
    (mkMetrics (relevanceScore (ranked result))
       (calculateFreshness nowTime (ranked result))
       (default 0%Z (mentions (ranked result))))
    (publishedDate (ranked result)) nowTime.

(** [results.map(callback)] from [index] on: the first callback that
    throws ends the call. *)
Fixpoint format_from (index : nat) (results : list Ranked)
  : Runtime.Outcome (list DisplayCard) :=
  match results with
  | [] => Runtime.Returned []
  | result :: rest =>
      match display_id result with
      | Runtime.Threw e => Runtime.Threw e
      | Runtime.Returned id =>
          match format_from (S index) rest with
          | Runtime.Threw e => Runtime.Threw e
          | Runtime.Returned cards =>
              Runtime.Returned (display_card id index result :: cards)
          end
      end
  end.

Definition formatForDisplay (results : list Ranked) : Runtime.Outcome (list DisplayCard) :=
  format_from 0 results.
End Display.

End Card.

(** ** KoreanBeautyTracker.searchInstagram (proof-of-concept.md) *)

Module KoreanBeautySearch.
Import Js Runtime KoreanBeautyTracker.
Local Open Scope js_scope.

(** An element of [results.results] of the Exa client. *)
Record ExaResult := mkExaResult {
  exa_title : option string;
  exa_url : string;
  exa_text : option string;
  exa_highlights : option (list string)
}.

(** [result.title || 'Unknown Product']. *)
Definition extractProductFromExaResult (result : ExaResult) : string :=
  match exa_title result with
  | None | Some "" => "Unknown Product"
  | Some title => title
  end.

Definition extractImagesFromUrl (url : string) : list string :=
  [url +:+ "/image-placeholder.jpg"].

(** The object the [map] callback of [searchInstagram] builds. *)
Definition instagram_trend (result : ExaResult) : BeautyTrend :=
  mkTrend (Some (extractProductFromExaResult result))
    (Some (extractImagesFromUrl (exa_url result)))
    (Some ["Instagram"])
    None
    (Some match exa_highlights result with
          | Some highlights => String.concat " " highlights
          | None => ""
          end)
    (exa_text result).

Section Sources.
(** What [exa.searchAndContents] resolves to on the one query the
    tracker makes; [None] is a response without [results]. *)
Variable exa_searchAndContents : Outcome (option (list ExaResult)).

Definition searchInstagram : M (list BeautyTrend) :=
  try_catch
    (results <- lift exa_searchAndContents ;;
     match results with
     | Some found => ret (instagram_trend <$> found)
     | None => throw (ErrorObject "Cannot read properties of undefined (reading map)")
     end)
    (λ _, ret []).

Definition getYouTubeTrends : M (list BeautyTrend) := ret [].
End Sources.

End KoreanBeautySearch.

(** ** NaturalLanguageBuilder.validateAndEnhance (proof-of-concept.md) *)

Module NaturalLanguageBuilder.
Import Js Runtime.
Local Open Scope js_scope.

Record TrackerConfig := mkTrackerConfig {
  name : JsVal;
  description : JsVal;
  sources : list JsVal;
  schedule : JsVal
}.

(** [v === s] for a string literal [s]. *)
Definition is_string (s : string) (v : JsVal) : bool :=
  match v with
  | JStr s' => bool_decide (s' = s)
  | _ => false
  end.

(** The callback of [config.sources.map]. *)
Definition enhance_source (source : JsVal) : M JsVal :=
  type <- read source "type" ;;
  if is_string "firecrawl" type
  then ret (JObj [("type", JStr "firecrawl");
                  ("config",
                    JObj [("queries", js_or (prop source "queries") (JArr []));
                          ("limit", js_or (prop source "limit") (JNum (Qc_of_Z 10)));
                          ("includeScreenshots", JBool true)])])
  else if is_string "exa" type
  then ret (JObj [("type", JStr "exa");
                  ("config",
                    JObj [("query", prop source "query");
                          ("category", js_or (prop source "category") (JStr "auto"));
                          ("numResults", js_or (prop source "numResults") (JNum (Qc_of_Z 10)))])])
  else ret source.

Definition validateAndEnhance (config : JsVal) : M TrackerConfig :=
  name <- read config "name" ;;
  description <- read config "description" ;;
  schedule <- read config "schedule" ;;
  sources <- (if truthy (prop config "sources")
              then
                match prop config "sources" with
                | JArr items => TrackerEngine.map_array enhance_source items
                | _ => throw (ErrorObject "config.sources.map is not a function")
                end
              else ret []) ;;
  ret (mkTrackerConfig (js_or name (JStr "My Tracker")) (js_or description (JStr ""))
         sources (js_or schedule (JStr "0 9 * * *"))).

End NaturalLanguageBuilder.

(** ** CostOptimizer (technical implementation guide) *)

Module CostOptimizer.
Import Js.



End CostOptimizer.

(** ** UnifiedTracker.countSources (technical implementation guide) *)

Module UnifiedTracker.
Import Js.

Section CountSources.
(** The results are read through their [source] only. *)
Context {Card : Type} (source : Card → option string).

(** The property key a source becomes: [undefined] turns into the text
    undefined. *)
Definition source_key (s : option string) : string := default "undefined" s.

(** [new Set(results.map(r => r.source))], in the order of insertion. *)
Definition source_set (results : list Card) : list (option string) :=
  foldl (λ acc s, if decide (s ∈ acc) then acc else acc ++ [s]) [] (source <$> results).

(** [Object.fromEntries(entries)]: a later entry of the same key replaces
    the value of the earlier one. The object is given as the list of its
    properties, to be read with [map_get]. *)
Definition countSources (results : list Card) : list (string * nat) :=
  foldl (λ obj s,
           map_set (source_key s) (length (filter (λ r, source r = s) results)) obj)
    [] (source_set results).
End CountSources.

End UnifiedTracker.

(** * Specification vocabulary *)

(** ** Orders *)

(** [before behind x y]: nothing forces [x] behind [y]. *)
Definition before {A : Type} (behind : A → A → bool) (x y : A) : Prop :=
  behind x y = false.

Section RankVocabulary.
Import Js ResultProcessor SmartRouter.

(** [a] may stand before [b]: its score is not the smaller one. *)
Definition score_ge (nowTime : Z) (a b : Result) : Prop :=
  (rank_score nowTime a <? rank_score nowTime b)%float = false.

(** No score of [results] is [NaN]. *)
Definition scores_are_numbers (nowTime : Z) (results : list Result) : Prop :=
  Forall (λ r, is_NaN (rank_score nowTime r) = false) results.

(** [a] may stand before [b] in [processResults]: more media, or as much
    media and a date that is not older. *)
Definition media_then_date_ge (a b : Result) : Prop :=
  (hasMedia b < hasMedia a)%Z ∨ (hasMedia a = hasMedia b ∧ (dateOf b ≤ dateOf a)%Z).

End RankVocabulary.

(** ** The engine *)

Section EngineVocabulary.
Import Js Runtime Supabase TrackerEngine.
Local Open Scope js_scope.

(** [a] may stand before [b] under [ORDER BY score DESC]. *)
Definition score_desc (a b : ResultRow) : Prop :=
  match res_score a, res_score b with
  | None, _ => True
  | Some x, Some y => (y ≤ x)%Qc
  | Some _, None => False
  end.

Definition never_throws {A : Type} (m : M A) : Prop :=
  ∀ w, ∃ a w', m w = (Returned a, w').

(** An error thrown in the [try] block comes back as [{ success: false,
    error }], with the error's message or the fallback text. *)
Definition failure_reported {A : Type} (fallback : string) (body op : M (OpResult A)) : Prop :=
  ∀ w e w', body w = (Threw e, w') →
    op w = (Returned (Failure (message_or fallback e)), w')
    ∧ success (Failure (A := A) (message_or fallback e)) = false.

(** What one query contributes to a run: the items of the search, shaped as
    tracker results, and nothing when the search fails. *)
Definition found_by (env : Env) (query : JsVal) : list JsVal :=
  match firecrawl_search env query 5 with
  | Returned (Some data) => tracker_result <$> (FirecrawlService.search_item <$> data)
  | Returned None | Threw _ => []
  end.

(** The statements of [runTracker] between the creation of the run and the
    update of its status. *)
Definition gather (env : Env) (tracker : TrackerRow) (run_id trackerId : nat) : M JsVal :=
  queries <- iterate (queries_of tracker) ;;
  results <- collect env queries [] ;;
  enrichedResults <- enrichResults env results (t_prompt tracker) ;;
  (if has_length env enrichedResults
   then
     resultsToInsert <- map_results (to_insert run_id trackerId) enrichedResults ;;
     insert_results env resultsToInsert ;;;
     ret ()
   else ret ()) ;;;
  ret enrichedResults.

(** The tables of trackers and runs and the clock are as before. *)
Definition same_runs (w w' : World) : Prop :=
  trackers w' = trackers w ∧ tracker_runs w' = tracker_runs w ∧ now w' = now w.

(** The world once the run row exists, and once both updates are done. *)
Definition new_run (w : World) (trackerId : nat) : RunRow :=
  mkRunRow (next_id w) trackerId running None JNull (now w) None.

Definition run_created (w : World) (trackerId : nat) : World :=
  mkWorld (trackers w) (tracker_runs w ++ [new_run w trackerId]) (tracker_results w)
    (S (next_id w)) (S (S (db_calls w))) (now w).

Definition run_finished (w : World) (run_id trackerId : nat) (enriched : JsVal) : World :=
  mkWorld (set_last_run trackerId (now w) <$> trackers w)
    (set_completed run_id (now w) (JObj [("results_count", prop enriched "length")])
       <$> tracker_runs w)
    (tracker_results w) (next_id w) (S (S (db_calls w))) (now w).

(** The row of a run that [runTracker] created in [w] and completed. *)
Definition completed_run (w : World) (trackerId : nat) (enriched : JsVal) : RunRow :=
  mkRunRow (next_id w) trackerId completed None
    (JObj [("results_count", prop enriched "length")]) (now w) (Some (now w)).

End EngineVocabulary.

(** ** The deduplicators *)

Section MergeVocabulary.
Import Js KoreanBeautyTracker.
Variable toLowerCase : string → string.

(** The signature of an item: its lower-cased name, when it has one. *)
Definition key_of (item : BeautyTrend) : option string :=
  if nameless item then None else Some (toLowerCase (default "" (productName item))).

(** What an entry of the map becomes when an item of its key arrives. *)
Definition absorb (entry : option BeautyTrend) (item : BeautyTrend) : option BeautyTrend :=
  Some match entry with
       | Some existing => merge existing item
       | None => item
       end.

(** The counter after one more item: the sum, as doubles, of the counter so
    far and the item's mentions, each taken as 0 when it is missing, 0 or
    [NaN]. *)
Definition add_mentions (count : option float) (item : BeautyTrend) : option float :=
  Some (or_zero count + or_zero (mentions item))%float.

(** The mentions of a group, added up in the order of the items. *)
Definition total_mentions (group : list BeautyTrend) : option float :=
  match group with
  | [] => None
  | first :: rest => foldl add_mentions (mentions first) rest
  end.

(** [out] holds what the items of [group] hold: their platforms, their
    images, the sum of their mentions. *)
Definition summarises (out : BeautyTrend) (group : list BeautyTrend) : Prop :=
  (∀ p, p ∈ default [] (platforms out) ↔ ∃ it, it ∈ group ∧ p ∈ default [] (platforms it))
  ∧ (∀ i, i ∈ default [] (images out) ↔ ∃ it, it ∈ group ∧ i ∈ default [] (images it))
  ∧ mentions out = total_mentions group.

(** The fields a merge leaves are lists without duplicates and a number. *)
Definition merged_shape (out : BeautyTrend) : Prop :=
  (∃ ps, platforms out = Some ps ∧ NoDup ps)
  ∧ (∃ imgs, images out = Some imgs ∧ NoDup imgs)
  ∧ is_Some (mentions out).

(** The keys of the map are distinct and each entry sits under its own key. *)
Definition well_keyed (productMap : list (string * BeautyTrend)) : Prop :=
  NoDup productMap.*1 ∧ Forall (λ e, key_of e.2 = Some e.1) productMap.

End MergeVocabulary.

Section DedupVocabulary.
Import Js ResultProcessor.

(** The signature two results are compared by. *)
Definition signature (md5 : string → string) (r : Result) : string :=
  md5 (contentToHash r).

(** Object [j] still has the title of [item] and all its images. *)
Definition keeps_item (objects : list Result) (j : nat) (item : Result) : Prop :=
  ∃ cur, objects !! j = Some cur ∧ title cur = title item
         ∧ ∀ img, img ∈ default [] (images item) → img ∈ default [] (images cur).

(** [item], at position [j], went into an earlier object of the output that
    has its signature: the object now holds its images and lists its source. *)
Definition merged_into (md5 : string → string) (results : list Result) (st : State)
    (j : nat) (item : Result) : Prop :=
  ∃ e first existing,
    e ∈ unique st ∧ (e < j)%nat
    ∧ results !! e = Some first ∧ signature md5 first = signature md5 item
    ∧ heap st !! e = Some existing
    ∧ (∀ img, img ∈ default [] (images item) → img ∈ default [] (images existing))
    ∧ source item ∈ default [] (sources existing).

(** The state of the loop when the results before position [k] are done. *)
Record dedup_inv (md5 : string → string) (results : list Result) (k : nat) (st : State)
  : Prop := mkDedupInv {
  inv_length : length (heap st) = length results;
  inv_rest : ∀ j, (k ≤ j)%nat → heap st !! j = results !! j;
  inv_unique : ∀ e, e ∈ unique st → (e < k)%nat;
  inv_map : ∀ h e, map_get h (contentHashes st) = Some e →
            e ∈ unique st ∧ ∃ first, results !! e = Some first ∧ h = signature md5 first;
  inv_keys : ∀ j item, (j < k)%nat → results !! j = Some item →
             is_Some (map_get (signature md5 item) (contentHashes st));
  inv_first : ∀ j item, j ∈ unique st → results !! j = Some item →
              ∀ j' other, (j' < j)%nat → results !! j' = Some other →
                          signature md5 other ≠ signature md5 item;
  inv_kept : ∀ j item, results !! j = Some item → keeps_item (heap st) j item;
  inv_covered : ∀ j item, (j < k)%nat → results !! j = Some item →
                j ∈ unique st ∨ merged_into md5 results st j item
}.

End DedupVocabulary.

(** * Scenarios *)

Section Scenarios.
Import Js Runtime Supabase TrackerEngine.

(** A database client whose errors are plain objects, as [throw error]
    passes them on. *)
Definition plain_error (message : string) : Thrown :=
  NotAnError (JObj [("message", JStr message)]).

(** [JSON.parse] on the texts a scenario meets: the listed texts parse to
    the listed values, any other text is refused. *)
Definition parse_table (table : list (string * JsVal)) (text : string) : option JsVal :=
  map_get text table.

(** An environment whose database answers every request. *)
Definition scenario_env
    (search : JsVal → Z → Outcome (option (list FcDocument)))
    (chat : string → string → Outcome (option string))
    (table : list (string * JsVal)) : Env :=
  mkEnv (λ _, None) search (λ _, Returned None) chat (parse_table table)
    (λ _, "[]") plain_error (λ _, None).

Definition doc_tool : FcDocument :=
  mkFcDocument (Some "Tool A") (Some "https://example.com/a") (Some "An AI tool")
    (Some "https://example.com/a.png") (Some (Qc_of_Z 1)) JNull.

Definition search_one : JsVal → Z → Outcome (option (list FcDocument)) :=
  λ _ _, Returned (Some [doc_tool]).

Definition search_down : JsVal → Z → Outcome (option (list FcDocument)) :=
  λ _ _, Threw (ErrorObject "timeout").

(** The completion answers: prose; the empty text; an object whose
    [results] holds [null]. *)
Definition chat_prose : string → string → Outcome (option string) :=
  λ _ _, Returned (Some "Sorry, here are my thoughts.").

Definition chat_empty : string → string → Outcome (option string) :=
  λ _ _, Returned (Some "").

Definition null_item_text : string :=
  "{" +:+ dquote +:+ "results" +:+ dquote +:+ ":[null]}".

Definition empty_results_text : string :=
  "{" +:+ dquote +:+ "results" +:+ dquote +:+ ":[]}".

Definition chat_null_item : string → string → Outcome (option string) :=
  λ _ _, Returned (Some null_item_text).

Definition json_texts : list (string * JsVal) :=
  [(null_item_text, JObj [("results", JArr [JNull])]);
   (empty_results_text, JObj [("results", JArr [])]);
   ("{}", JObj [])].

Definition tracker_ai : TrackerRow :=
  mkTrackerRow 0 "AI tools" None "Track AI tools on Product Hunt"
    (JObj [("queries", JArr [JStr "AI tools Product Hunt"; JStr "new AI launches"]);
           ("platforms", JArr [JStr "product hunt"])])
    (JArr [JStr "product hunt"]) true None 500.

(** One tracker, no run yet. *)
Definition world_fresh : World := mkWorld [tracker_ai] [] [] 1 0 1000.

(** The same tracker after a run that completed with two results at instant
    1000 and a later run, started at 2000, that is still marked running. *)
Definition tracker_ai_ran : TrackerRow :=
  mkTrackerRow 0 "AI tools" None "Track AI tools on Product Hunt"
    (t_config tracker_ai) (t_sources tracker_ai) true (Some 1000%Z) 500.

Definition run_done : RunRow :=
  mkRunRow 1 0 completed None (JObj [("results_count", of_nat 2)]) 1000 (Some 1000%Z).

Definition run_stuck : RunRow := mkRunRow 4 0 running None JNull 2000 None.

Definition result_tool (id : nat) : ResultRow :=
  mkResultRow id 1 0 "Tool A" (Some "An AI tool") (Some "https://example.com/a")
    (Some ["https://example.com/a.png"]) (Some "firecrawl") (Some (Qc_of_Z 1))
    (JObj [("raw_content", JStr "An AI tool")]) 1000.

Definition world_two_runs : World :=
  mkWorld [tracker_ai_ran] [run_done; run_stuck] [result_tool 2; result_tool 3] 5 7 2000.

End Scenarios.

Definition env_prose : Runtime.Env := scenario_env search_one chat_prose json_texts.
Definition env_null_item : Runtime.Env := scenario_env search_one chat_null_item json_texts.
Definition env_empty_reply : Runtime.Env := scenario_env search_one chat_empty json_texts.
Definition env_sources_down : Runtime.Env := scenario_env search_down chat_prose json_texts.

(** What the two queries of [tracker_ai] collect when every search returns
    [doc_tool]. *)
Definition collected_tools : list Js.JsVal :=
  concat (found_by env_prose <$> [Js.JStr "AI tools Product Hunt"; Js.JStr "new AI launches"]).

(** Two pairs of items for the ranker: one with media and no relevance
    against one without media and full relevance, both long past; one old
    item with media against a fresh one without, of the same relevance. *)
Definition item_with_media : ResultProcessor.Result :=
  ResultProcessor.mkResult (Some "With media") None (Some "https://a.example")
    (Some ["a.jpg"]) None (Some "jina") None None (Some 0%float)
    (Some [ResultProcessor.mkMedia "image" "a.jpg" 2]) (Some 0%Z) (Some 0%Z).

Definition item_relevant : ResultProcessor.Result :=
  ResultProcessor.mkResult (Some "Relevant") None (Some "https://b.example")
    None None (Some "jina") None None (Some 10%float)
    (Some []) (Some 0%Z) (Some 0%Z).

Definition item_old : ResultProcessor.Result :=
  ResultProcessor.mkResult (Some "Old") None (Some "https://c.example")
    (Some ["c.jpg"]) None (Some "jina") None None (Some 1%float)
    (Some [ResultProcessor.mkMedia "image" "c.jpg" 2])
    (Some (-10 * ResultProcessor.ms_per_day)%Z) None.

Definition item_fresh : ResultProcessor.Result :=
  ResultProcessor.mkResult (Some "Fresh") None (Some "https://d.example")
    None None (Some "jina") None None (Some 1%float)
    (Some []) (Some 0%Z) None.

Section DedupScenarios.
Import Js ResultProcessor KoreanBeautyTracker.

(** [toLowerCase] on strings of code units below 256 (Basic Latin and
    Latin-1): the letters A to Z and À to Þ, which leaves out the
    multiplication sign, are folded; every other code unit has no other
    lower case. The names of the scenarios are such strings. *)
Definition latin1_toLowerCase_unit (c : ascii) : ascii :=
  let n := nat_of_ascii c in
  if ((65 <=? n) && (n <=? 90) || (192 <=? n) && (n <=? 214) || (216 <=? n) && (n <=? 222))%nat
  then ascii_of_nat (n + 32)
  else c.

Fixpoint latin1_toLowerCase (s : string) : string :=
  match s with
  | EmptyString => EmptyString
  | String c r => String (latin1_toLowerCase_unit c) (latin1_toLowerCase r)
  end.

(** A trend without a name, and two mentions of one product. *)
Definition trend_unnamed : BeautyTrend :=
  mkTrend None (Some ["https://img.example/serum.jpg"]) (Some ["TikTok"]) (Some 1200%float)
    None (Some "a serum everyone is trying").

Definition trend_tiktok : BeautyTrend :=
  mkTrend (Some "Snail Cream") (Some ["https://img.example/1.jpg"]) (Some ["TikTok"])
    (Some 1500%float) None None.

Definition trend_instagram : BeautyTrend :=
  mkTrend (Some "snail cream")
    (Some ["https://img.example/2.jpg"; "https://img.example/1.jpg"])
    (Some ["Instagram"; "TikTok"]) None (Some "trending") None.

(** One name in upper and in lower case, with the letter E grave (code
    units 200 and 232). *)
Definition creme_upper : string := "CR" +:+ String "200"%char "ME".
Definition creme_lower : string := "cr" +:+ String "232"%char "me".

Definition trend_creme_upper : BeautyTrend :=
  mkTrend (Some creme_upper) None (Some ["TikTok"]) (Some 9007199254740992%float) None None.

Definition trend_creme_lower : BeautyTrend :=
  mkTrend (Some creme_lower) None (Some ["Instagram"]) (Some 1%float) None None.

(** Two results without a title, from two sources. *)
Definition untitled_exa : Result :=
  mkResult None None (Some "https://one.example") (Some ["one.jpg"]) None (Some "exa")
    None None None None None None.

Definition untitled_jina : Result :=
  mkResult None None (Some "https://two.example") (Some ["two.jpg"]) None (Some "jina")
    None None None None None None.

(** Two results of identical title, content and url, from two sources. *)
Definition tool_exa : Result :=
  mkResult (Some "Tool") (Some "An AI tool") (Some "https://tool.example")
    (Some ["tool.jpg"]) None (Some "exa") None (Some 3%Z) None None None None.

Definition tool_firecrawl : Result :=
  mkResult (Some "Tool") (Some "An AI tool") (Some "https://tool.example")
    (Some ["tool.jpg"]) None (Some "firecrawl") None (Some 4%Z) None None None None.

End DedupScenarios.

(** ** Further vocabulary *)

(** The fields by which an output object of [deduplicateResults] can be
    recognised: a merge changes none of them. *)
Definition same_identity (out item : ResultProcessor.Result) : Prop :=
  ResultProcessor.title out = ResultProcessor.title item
  ∧ ResultProcessor.url out = ResultProcessor.url item
  ∧ ResultProcessor.source out = ResultProcessor.source item
  ∧ ResultProcessor.mentions out = ResultProcessor.mentions item.

(** [a] may stand before [b] under [ORDER BY created_at DESC]. *)
Definition newest_first (a b : Runtime.TrackerRow) : Prop :=
  (Runtime.t_created_at b ≤ Runtime.t_created_at a)%Z.

Section RunVocabulary.
Import Js Runtime Supabase TrackerEngine.
Local Open Scope js_scope.

(** The statements of [runTracker] after the collection: the two updates
    and the result object. *)
Definition finish (env : Env) (run_id trackerId : nat) (enrichedResults : JsVal)
  : M (OpResult RunPayload) :=
  completed_at <- current_time ;;
  update_run_completed env run_id completed_at
    (JObj [("results_count", prop enrichedResults "length")]) ;;;
  last_run_at <- current_time ;;
  update_last_run env trackerId last_run_at ;;;
  ret (Success (mkRunPayload enrichedResults run_id)).

(** [runTracker] cut into its phases. *)
Definition run_phases (env : Env) (trackerId : nat) : M (OpResult RunPayload) :=
  found <- select_tracker env trackerId ;;
  tracker <- match found with
             | DbData tracker => ret tracker
             | DbFailed _ => throw (ErrorObject "Tracker not found")
             end ;;
  created <- insert_run env trackerId running ;;
  run <- match created with
         | DbData run => ret run
         | DbFailed runError => throw runError
         end ;;
  enrichedResults <- gather env tracker (r_id run) trackerId ;;
  finish env (r_id run) trackerId enrichedResults.

(** [new] are rows of the run [run_id] of the tracker [trackerId]. *)
Definition rows_of_run (run_id trackerId : nat) (new : list ResultRow) : Prop :=
  Forall (λ r, res_run_id r = run_id ∧ res_tracker_id r = trackerId) new.

(** The table of runs has a row for the run [run_id] of [trackerId]. *)
Definition has_run (run_id trackerId : nat) (w : World) : Prop :=
  ∃ run, run ∈ tracker_runs w ∧ r_id run = run_id ∧ r_tracker_id run = trackerId.

(** From [w] to [w'] the table of results only grew, by rows of the run. *)
Definition results_added (run_id trackerId : nat) (w w' : World) : Prop :=
  ∃ new, tracker_results w' = tracker_results w ++ new ∧ rows_of_run run_id trackerId new.

End RunVocabulary.

(** [row] is what the table holds for the result object [v]. *)
Definition stored_as (run_id trackerId : nat) (v : Js.JsVal) (row : Runtime.ResultRow) : Prop :=
  Runtime.res_run_id row = run_id
  ∧ Runtime.res_tracker_id row = trackerId
  ∧ Js.JStr (Runtime.res_title row) = Js.prop v "title"
  ∧ Js.of_string (Runtime.res_url row) = Js.prop v "url"
  ∧ Js.of_number (Runtime.res_score row) = Js.prop v "score"
  ∧ Runtime.res_source row = Some "firecrawl".

(** [v] is a result object built by [searchWithFirecrawl]. *)
Definition from_firecrawl (v : Js.JsVal) : Prop :=
  ∃ item, v = TrackerEngine.tracker_result item.

Section EngineEdges.
Import Js Runtime Supabase TrackerEngine.

(** The completion gives [parsePrompt] nothing to parse: the request
    fails, or its text is not JSON. *)
Definition unparsed (env : Env) (prompt : string) : Prop :=
  (∃ e, openai_chat env parse_instructions prompt = Threw e)
  ∨ (∃ text, openai_chat env parse_instructions prompt = Returned (Some text)
             ∧ text ≠ "" ∧ JSON_parse env text = None).

(** [given || fallback] for an optional string. *)
Definition given_else (given : option string) (fallback : string) : string :=
  match given with
  | None | Some "" => fallback
  | Some s => s
  end.

(** The shape of a result object of [searchWithFirecrawl]. *)
Definition firecrawl_shaped (v : JsVal) : Prop :=
  (∃ title, prop v "title" = JStr title ∧ title ≠ "")
  ∧ (prop v "description" = JUndefined
     ∨ ∃ d, prop v "description" = JStr d ∧ (String.length d ≤ 200)%nat)
  ∧ (prop v "images" = JArr []
     ∨ ∃ shot, prop v "images" = JArr [JStr shot] ∧ shot ≠ "")
  ∧ prop v "source" = JStr "firecrawl".

End EngineEdges.

Section CrawlVocabulary.
Import Js Runtime FirecrawlCrawl.

(** The check number [n] on the job answers, with a status other than
    completed. *)
Definition still_running (client : CrawlClient) (jobId : JsVal) (n : nat) : Prop :=
  ∃ result, checkCrawlStatus client jobId n = Returned result
            ∧ crawl_status result ≠ Some "completed".

End CrawlVocabulary.

Section BuilderVocabulary.
Import Js Runtime NaturalLanguageBuilder.

(** What [validateAndEnhance] makes of one source: a firecrawl source
    gets a configuration with screenshots on, a list of queries and a
    limit; an exa source gets its query, a category and a number of
    results; any other source is passed on. *)
Definition enhanced_as (source out : JsVal) : Prop :=
  if is_string "firecrawl" (prop source "type")
  then prop out "type" = JStr "firecrawl"
       ∧ prop (prop out "config") "includeScreenshots" = JBool true
       ∧ truthy (prop (prop out "config") "queries") = true
       ∧ truthy (prop (prop out "config") "limit") = true
  else if is_string "exa" (prop source "type")
  then prop out "type" = JStr "exa"
       ∧ prop (prop out "config") "query" = prop source "query"
       ∧ truthy (prop (prop out "config") "category") = true
       ∧ truthy (prop (prop out "config") "numResults") = true
  else out = source.

(** The elements of [config.sources] that [validateAndEnhance] maps. *)
Definition given_sources (config : JsVal) : list JsVal :=
  match prop config "sources" with
  | JArr items => items
  | _ => []
  end.

End BuilderVocabulary.

(** The sum of the counts of an object of counts. *)
Definition total (counts : list (string * nat)) : nat := foldr Nat.add 0%nat counts.*2.

(** A ranked result that has neither an identifier nor a url. *)
Definition unidentified (result : Card.Ranked) : Prop :=
  default "" (Card.ranked_id result) = ""
  ∧ ResultProcessor.url (Card.ranked result) = None.

(** ** Further scenarios *)

(** Eleven collected items. *)
Definition eleven_items : list Js.JsVal :=
  replicate 10 (Js.JStr "one of the first ten") ++ [Js.JStr "the eleventh"].

Section CrawlScenarios.
Import Js Runtime FirecrawlCrawl.

Definition page_home : FcDocument :=
  mkFcDocument (Some "Home") (Some "https://example.com/") (Some "Welcome") None None JNull.

(** A job that is reported as scraping twice and as completed on the
    third check, and a job that the service reports as failed for ever. *)
Definition client_slow : CrawlClient :=
  mkCrawlClient (λ _ _, Returned (JObj [("jobId", JStr "job-1")]))
    (λ _ n, Returned (if bool_decide (n < 2)%nat
                      then mkCrawlStatus (Some "scraping") None
                      else mkCrawlStatus (Some "completed") (Some [page_home]))).

Definition client_stuck : CrawlClient :=
  mkCrawlClient (λ _ _, Returned (JObj [("jobId", JStr "job-2")]))
    (λ _ _, Returned (mkCrawlStatus (Some "failed") None)).

End CrawlScenarios.

(** A creation request and a configuration that give a prompt only. *)
Definition body_ai : Route.Body :=
  Route.mkBody (Some "Track AI tools on Product Hunt") None None None.

Definition config_ai : TrackerEngine.TrackerConfig :=
  TrackerEngine.mkConfig None "Track AI tools on Product Hunt" None None.

(** Results by their source alone: two from exa, one without a source. *)
Definition three_sources : list (option string) := [Some "exa"; None; Some "exa"].

(** A database that answers the first two requests made in [world_fresh],
    the lookup of the tracker and the creation of the run, and reports an
    error on every later one; and a database that answers only request 7,
    the first one made in [world_two_runs]. *)
Definition env_writes_fail : Runtime.Env :=
  Runtime.mkEnv
    (λ n, if bool_decide (n < 2)%nat then None
          else Some (Runtime.DbError (plain_error "permission denied")))
    search_one (λ _, Runtime.Returned None) chat_prose (parse_table json_texts)
    (λ _, "[]") plain_error (λ _, None).

Definition env_reads_fail : Runtime.Env :=
  Runtime.mkEnv
    (λ n, if bool_decide (n = 7)%nat then None
          else Some (Runtime.DbError (plain_error "permission denied")))
    search_one (λ _, Runtime.Returned None) chat_prose (parse_table json_texts)
    (λ _, "[]") plain_error (λ _, None).

(** * Properties *)

(** ** The stable sort *)

Section StableSortFacts.
Import Js.
Context {A : Type} (behind : A → A → bool).

Lemma sort_insert_perm (x : A) (l : list A) : sort_insert behind x l ≡ₚ x :: l.
Proof.
  induction l as [|y r IH]; simpl; [done|].
  destruct (behind x y); [|done].
  rewrite IH. apply Permutation_swap.
Qed.

Lemma stable_sort_perm (l : list A) : stable_sort behind l ≡ₚ l.
Proof.
  induction l as [|x l IH]; simpl; [done|].
  rewrite sort_insert_perm. by f_equiv.
Qed.

(** An element only moves past elements it has to come after, so a class
    of elements none of which has to come after another keeps its order. *)
Lemma sort_insert_filter (P : A → Prop) `{!∀ x, Decision (P x)} (x : A) (l : list A) :
  (∀ y, behind x y = true → P x → P y → False) →
  filter P (sort_insert behind x l) = filter P (x :: l).
Proof.
  intros Hclass. induction l as [|y r IH]; simpl; [done|].
  destruct (behind x y) eqn:Hb; [|done].
  rewrite filter_cons, IH, !filter_cons.
  destruct (decide (P y)) as [Hy|Hy], (decide (P x)) as [Hx|Hx]; try done.
  destruct (Hclass y Hb Hx Hy).
Qed.

Lemma stable_sort_filter (P : A → Prop) `{!∀ x, Decision (P x)} (l : list A) :
  (∀ x y, behind x y = true → P x → P y → False) →
  filter P (stable_sort behind l) = filter P l.
Proof.
  intros Hclass. induction l as [|x l IH]; simpl; [done|].
  rewrite sort_insert_filter by eauto.
  by rewrite !filter_cons, IH.
Qed.

Hypothesis behind_asym : ∀ x y, behind x y = true → behind y x = false.

Lemma sort_insert_hd (R : A → A → Prop) (z x : A) (l : list A) :
  R z x → HdRel R z l → HdRel R z (sort_insert behind x l).
Proof.
  intros Hzx Hzl. destruct l as [|y r]; simpl; [by constructor|].
  destruct (behind x y); constructor; [|done].
  by inversion Hzl.
Qed.

Lemma sort_insert_sorted (x : A) (l : list A) :
  Sorted (before behind) l → Sorted (before behind) (sort_insert behind x l).
Proof.
  induction l as [|y r IH]; simpl; intros Hs.
  - by repeat constructor.
  - destruct (behind x y) eqn:Hb.
    + inversion Hs; subst. constructor; [by apply IH|].
      apply sort_insert_hd; [by apply behind_asym | done].
    + constructor; [done|]. by constructor.
Qed.

Lemma stable_sort_sorted (l : list A) : Sorted (before behind) (stable_sort behind l).
Proof.
  induction l as [|x l IH]; simpl; [constructor|].
  by apply sort_insert_sorted.
Qed.

Lemma stable_sort_strongly_sorted (l : list A) :
  Transitive (before behind) → StronglySorted (before behind) (stable_sort behind l).
Proof. intros ?. apply Sorted_StronglySorted; [done | apply stable_sort_sorted]. Qed.
End StableSortFacts.

Lemma Sorted_impl_Forall {A : Type} (R R' : A → A → Prop) (P : A → Prop) (l : list A) :
  (∀ a b, P a → P b → R a b → R' a b) → Forall P l → Sorted R l → Sorted R' l.
Proof.
  intros Himpl HP Hs. induction Hs as [|a l Hs IH Hhd]; [constructor|].
  inversion HP; subst. constructor; [by apply IH|].
  destruct Hhd as [|b l Hab]; constructor.
  inversion H2; subst. by apply Himpl.
Qed.

(** ** Doubles *)

Section Doubles.
Import Js.

Ltac sf_cases :=
  unfold SFltb, SFeqb, SFcompare; change (Pos.compare_cont Eq) with Pos.compare;
  repeat match goal with
  | |- context [match ?x with S754_zero _ => _ | _ => _ end] => destruct x as [[]|[]| |[] ? ?]
  end;
  try done;
  repeat match goal with
  | |- context [(?a ?= ?b)%Z] => destruct (Z.compare_spec a b)
  end; try done; try lia;
  repeat match goal with
  | |- context [(?a ?= ?b)%positive] => destruct (Pos.compare_spec a b)
  end; try done; try lia.

Lemma SFltb_asym (x y : spec_float) : SFltb x y = true → SFltb y x = false.
Proof. sf_cases. Qed.


Lemma SFltb_neg_trans (x y z : spec_float) :
  SFeqb y y = true → SFltb x y = false → SFltb y z = false → SFltb x z = false.
Proof. sf_cases. Qed.

Lemma ltb_asym (x y : float) : (x <? y)%float = true → (y <? x)%float = false.
Proof. rewrite !FloatAxioms.ltb_spec. apply SFltb_asym. Qed.


(** Among numbers, "not less than" is transitive; [NaN] in the middle
    breaks it. *)
Lemma not_ltb_trans (x y z : float) :
  is_NaN y = false →
  (x <? y)%float = false → (y <? z)%float = false → (x <? z)%float = false.
Proof.
  unfold is_NaN. intros Hy%negb_false_iff. revert Hy.
  rewrite !FloatAxioms.ltb_spec, FloatAxioms.eqb_spec. apply SFltb_neg_trans.
Qed.

(** Rounding keeps the sign. *)
Lemma binary_round_aux_sign (s : bool) (m e : Z) (l : location) :
  match binary_round_aux prec emax s m e l with
  | S754_zero s' | S754_infinity s' | S754_finite s' _ _ => s' = s
  | S754_nan => True
  end.
Proof.
  unfold binary_round_aux.
  destruct (shr_fexp prec emax m e l) as [mrs' e'].
  destruct (shr_fexp prec emax _ e' loc_Exact) as [mrs'' e''].
  destruct (shr_m mrs''); [done| |done].
  by destruct (e'' <=? emax - prec)%Z.
Qed.

Lemma iter_pos_iter {A : Type} (f : A → A) (n : positive) (x : A) :
  SpecFloat.iter_pos f n x = Pos.iter f x n.
Proof.
  revert x. induction n as [n IH|n IH|]; intros x; simpl; [|by rewrite !IH|done].
  by rewrite !IH, <- !Pos.iter_swap.
Qed.

Lemma shr_1_div2 (r : shr_record) :
  (0 ≤ shr_m r)%Z → shr_m (shr_1 r) = Z.div2 (shr_m r).
Proof. destruct r as [[|[p|p|]|p] ? ?]; by try lia. Qed.

Lemma shr_m_iter (n : positive) (r : shr_record) :
  (0 ≤ shr_m r)%Z →
  shr_m (SpecFloat.iter_pos shr_1 n r) = Z.shiftr (shr_m r) (Z.pos n).
Proof.
  intros Hr. rewrite iter_pos_iter. unfold Z.shiftr, Z.shiftl. simpl.
  induction n as [|n IH] using Pos.peano_ind.
  - simpl. by apply shr_1_div2.
  - rewrite !Pos.iter_succ, shr_1_div2, IH; [done|].
    rewrite IH. clear IH. revert Hr. generalize (shr_m r). intros m Hm.
    induction n as [|n IH] using Pos.peano_ind; simpl.
    + by apply Z.div2_nonneg.
    + rewrite Pos.iter_succ. by apply Z.div2_nonneg.
Qed.

Lemma digits2_pos_lower (p : positive) : (2 ^ (Z.pos (digits2_pos p) - 1) ≤ Z.pos p)%Z.
Proof.
  induction p as [p IH|p IH|]; simpl; [| |done].
  - rewrite Pos2Z.inj_succ, Z.sub_1_r, Z.pred_succ.
    replace (Z.pos (digits2_pos p)) with (Z.succ (Z.pos (digits2_pos p) - 1)) by lia.
    rewrite Z.pow_succ_r by lia. lia.
  - rewrite Pos2Z.inj_succ, Z.sub_1_r, Z.pred_succ.
    replace (Z.pos (digits2_pos p)) with (Z.succ (Z.pos (digits2_pos p) - 1)) by lia.
    rewrite Z.pow_succ_r by lia. lia.
Qed.

Lemma digits2_pos_upper (p : positive) : (Z.pos p < 2 ^ Z.pos (digits2_pos p))%Z.
Proof.
  induction p as [p IH|p IH|]; simpl; [| |done].
  - rewrite Pos2Z.inj_succ, Z.pow_succ_r by lia. lia.
  - rewrite Pos2Z.inj_succ, Z.pow_succ_r by lia. lia.
Qed.

(** Shifting to the exponent of the format keeps a positive mantissa
    positive when the exponent is not below the least one. *)
Lemma shr_fexp_positive (p : positive) (e : Z) (l : location) :
  (emin ≤ e)%Z →
  (0 < shr_m (shr_fexp prec emax (Z.pos p) e l).1)%Z
  ∧ (emin ≤ (shr_fexp prec emax (Z.pos p) e l).2)%Z.
Proof.
  intros He. unfold shr_fexp, shr. cbn [Zdigits2].
  assert (Hrec : shr_m (shr_record_of_loc (Z.pos p) l) = Z.pos p) by (by destruct l as [|[]]).
  destruct (fexp prec emax (Z.pos (digits2_pos p) + e) - e)%Z as [|n|n] eqn:Hn;
    cbn [fst snd]; [rewrite Hrec; lia| |rewrite Hrec; lia].
  rewrite shr_m_iter, Hrec, Z.shiftr_div_pow2 by (rewrite ?Hrec; lia).
  unfold fexp, SpecFloat.emin, prec, emax in *.
  split; [|lia].
  apply Z.div_str_pos. split; [by apply Z.pow_pos_nonneg|].
  etrans; [|apply digits2_pos_lower].
  apply Z.pow_le_mono_r; lia.
Qed.

Lemma round_nearest_even_positive (m : Z) (l : location) :
  (0 < m)%Z → (0 < round_nearest_even m l)%Z.
Proof. intros Hm. destruct l as [|[]]; simpl; [done| |done|lia]. destruct (Z.even m); lia. Qed.

Lemma binary_round_aux_positive (p : positive) (e : Z) (l : location) :
  (emin ≤ e)%Z →
  SFltb (S754_zero false) (binary_round_aux prec emax false (Z.pos p) e l) = true.
Proof.
  intros He. unfold binary_round_aux.
  destruct (shr_fexp_positive p e l He) as [Hm He'].
  destruct (shr_fexp prec emax (Z.pos p) e l) as [mrs' e']. cbn [fst snd] in *.
  pose proof (round_nearest_even_positive _ (loc_of_shr_record mrs') Hm) as Hr.
  destruct (round_nearest_even (shr_m mrs') (loc_of_shr_record mrs')) as [|q|q]; try lia.
  destruct (shr_fexp_positive q e' loc_Exact He') as [Hm' _].
  destruct (shr_fexp prec emax (Z.pos q) e' loc_Exact) as [mrs'' e'']. cbn [fst snd] in *.
  destruct (shr_m mrs''); try lia.
  by destruct (e'' <=? emax - prec)%Z.
Qed.

Lemma binary_normalize_sign (m e : Z) :
  (emin ≤ e)%Z →
  SFltb (S754_zero false) (binary_normalize prec emax m e false) = (0 <? m)%Z.
Proof.
  intros He. destruct m as [|p|p]; [done| |].
  - unfold binary_normalize, binary_round, shl_align.
    set (e' := fexp prec emax (Z.pos (digits2_pos p) + e)).
    assert (He' : (emin ≤ e')%Z) by (unfold e', fexp, SpecFloat.emin; lia).
    destruct (e' - e)%Z eqn:Hd; by rewrite binary_round_aux_positive.
  - unfold binary_normalize, binary_round.
    destruct (shl_align p e _) as [mz ez].
    pose proof (binary_round_aux_sign true (Z.pos mz) ez loc_Exact) as Hs.
    by destruct (binary_round_aux prec emax true (Z.pos mz) ez loc_Exact) as [[]|[]| |[] ? ?].
Qed.

Lemma iter_xO_value (m d : positive) : Z.pos (Pos.iter xO m d) = (Z.pos m * 2 ^ Z.pos d)%Z.
Proof.
  induction d as [|d IH] using Pos.peano_ind.
  - simpl. lia.
  - rewrite Pos.iter_succ, Pos2Z.inj_xO, IH, Pos2Z.inj_succ, Z.pow_succ_r by lia. lia.
Qed.

Lemma shl_align_value (m : positive) (e ez : Z) :
  (ez ≤ e)%Z → Z.pos (shl_align m e ez).1 = (Z.pos m * 2 ^ (e - ez))%Z.
Proof.
  intros He. unfold shl_align. destruct (ez - e)%Z as [|d|d] eqn:Hd; cbn [fst].
  - replace (e - ez)%Z with 0%Z by lia. simpl. lia.
  - lia.
  - rewrite iter_xO_value. f_equal. f_equal. lia.
Qed.

(** A valid finite number is normal, with a mantissa of 53 bits, or has
    the least exponent. *)
Lemma bounded_shape (m : positive) (e : Z) :
  bounded prec emax m e = true →
  (emin ≤ e)%Z
  ∧ (Z.pos (digits2_pos m) = prec ∨ e = emin ∧ (Z.pos (digits2_pos m) ≤ prec)%Z).
Proof.
  unfold bounded, canonical_mantissa, fexp, SpecFloat.emin, prec, emax.
  intros [Hc _]%andb_true_iff. apply Z.eqb_eq in Hc. lia.
Qed.

(** Among valid numbers, a greater exponent is a greater magnitude. *)
Lemma magnitude_by_exponent (mx my : positive) (ex ey : Z) :
  bounded prec emax mx ex = true → bounded prec emax my ey = true →
  (ex < ey)%Z → (Z.pos mx < Z.pos my * 2 ^ (ey - ex))%Z.
Proof.
  intros [Hex Hx]%bounded_shape [Hey Hy]%bounded_shape Hlt.
  pose proof (digits2_pos_upper mx) as Hux. pose proof (digits2_pos_lower my) as Hly.
  assert (Hdy : Z.pos (digits2_pos my) = prec) by lia. rewrite Hdy in Hly.
  assert (Hdx : (2 ^ Z.pos (digits2_pos mx) ≤ 2 ^ prec)%Z) by (apply Z.pow_le_mono_r; lia).
  assert (Hpow : (2 ^ 1 ≤ 2 ^ (ey - ex))%Z) by (apply Z.pow_le_mono_r; lia).
  change (2 ^ 1)%Z with 2%Z in Hpow.
  change (2 ^ (prec - 1))%Z with 4503599627370496%Z in Hly.
  change (2 ^ prec)%Z with 9007199254740992%Z in Hdx.
  nia.
Qed.

Lemma SFsub_sign (x y : spec_float) :
  valid_binary x = true → valid_binary y = true →
  SFltb (S754_zero false) (SF64sub y x) = SFltb x y.
Proof.
  unfold SF64sub, SFsub, SFltb at 2, SFcompare.
  destruct x as [[]|[]| |sx mx ex], y as [[]|[]| |sy my ey]; try done;
    try (by destruct sx); try (by destruct sy).
  cbn [valid_binary]. intros Hx Hy.
  pose proof (bounded_shape _ _ Hx) as [Hex _]. pose proof (bounded_shape _ _ Hy) as [Hey _].
  rewrite binary_normalize_sign by lia.
  rewrite !shl_align_value by lia.
  change (Pos.compare_cont Eq) with Pos.compare.
  destruct (Z.compare_spec ex ey) as [->|Hlt|Hgt].
  - rewrite Z.min_id, Z.sub_diag. change (2 ^ 0)%Z with 1%Z. rewrite !Z.mul_1_r.
    destruct sx, sy; cbn [cond_Zopp]; destruct (Pos.compare_spec mx my); simpl; lia.
  - pose proof (magnitude_by_exponent _ _ _ _ Hx Hy Hlt) as Hmag.
    replace (Z.min ey ex) with ex by lia. rewrite Z.sub_diag.
    change (2 ^ 0)%Z with 1%Z. rewrite Z.mul_1_r.
    destruct sx, sy; cbn [cond_Zopp]; lia.
  - pose proof (magnitude_by_exponent _ _ _ _ Hy Hx Hgt) as Hmag.
    replace (Z.min ey ex) with ey by lia. rewrite Z.sub_diag.
    change (2 ^ 0)%Z with 1%Z. rewrite Z.mul_1_r.
    destruct sx, sy; cbn [cond_Zopp]; lia.
Qed.

(** A difference of doubles is positive exactly when the number taken
    away is the smaller one. *)
Lemma sub_positive (x y : float) : (0 <? y - x)%float = (x <? y)%float.
Proof.
  rewrite !FloatAxioms.ltb_spec, sub_spec.
  change (Prim2SF 0) with (S754_zero false).
  apply SFsub_sign; apply Prim2SF_valid.
Qed.

Lemma SFeqb_not_ltb (x y s : spec_float) :
  SFeqb x s = true → SFeqb y s = true → SFltb x y = false.
Proof. sf_cases. Qed.

(** Two numbers that compare equal to a third are not one less than the
    other. *)
Lemma eqb_not_ltb (x y s : float) :
  (x =? s)%float = true → (y =? s)%float = true → (x <? y)%float = false.
Proof. rewrite !FloatAxioms.eqb_spec, FloatAxioms.ltb_spec. apply SFeqb_not_ltb. Qed.

End Doubles.

Lemma StronglySorted_weaken {A : Type} (R R' : A → A → Prop) (l : list A) :
  (∀ a b, R a b → R' a b) → StronglySorted R l → StronglySorted R' l.
Proof.
  intros Himpl. induction 1 as [|a l Hs IH Hall]; constructor; [done|].
  eapply Forall_impl; [exact Hall|]. intros b. apply Himpl.
Qed.

(** ** The ranker *)

Section Ranker.
Import Js ResultProcessor.

(** The comparator puts [a] after [b] exactly when the score of [a] is
    the smaller one. *)
Lemma rank_after_lt (nowTime : Z) (a b : Result) :
  rank_after nowTime a b = (rank_score nowTime a <? rank_score nowTime b)%float.
Proof. unfold rank_after, rank_cmp. apply sub_positive. Qed.

Lemma rank_after_asym (nowTime : Z) (x y : Result) :
  rank_after nowTime x y = true → rank_after nowTime y x = false.
Proof. rewrite !rank_after_lt. apply ltb_asym. Qed.

Lemma rank_after_equal (nowTime : Z) (s : float) (x y : Result) :
  rank_after nowTime x y = true →
  (rank_score nowTime x =? s)%float = true → (rank_score nowTime y =? s)%float = true →
  False.
Proof.
  rewrite rank_after_lt. intros Hafter Hx Hy.
  by rewrite (eqb_not_ltb _ _ s Hx Hy) in Hafter.
Qed.

(** "May stand before" is transitive among results whose scores are numbers. *)
Lemma score_ge_trans (nowTime : Z) (a b c : Result) :
  is_NaN (rank_score nowTime b) = false →
  score_ge nowTime a b → score_ge nowTime b c → score_ge nowTime a c.
Proof. unfold score_ge. intros Hb Hab Hbc. by eapply not_ltb_trans. Qed.

Section WithEngine.
Variable inconsistent_sort : Z → list Result → list Result.

Lemma rankResults_dated (nowTime : Z) (results : list Result) :
  Forall (λ r, is_Some (getTime r)) results →
  rankResults inconsistent_sort nowTime results = stable_sort (rank_after nowTime) results.
Proof. intros Hdated. unfold rankResults. by rewrite bool_decide_eq_true_2. Qed.

Lemma rankResults_undated (nowTime : Z) (results : list Result) :
  ¬ Forall (λ r, is_Some (getTime r)) results →
  rankResults inconsistent_sort nowTime results = inconsistent_sort nowTime results.
Proof. intros Hdated. unfold rankResults. by rewrite bool_decide_eq_false_2. Qed.

End WithEngine.

End Ranker.

Section Router.
Import Js ResultProcessor SmartRouter.

Lemma process_before_ge (a b : Result) :
  before (after process_cmp) a b → media_then_date_ge a b.
Proof.
  unfold before, after, process_cmp, media_then_date_ge.
  destruct (decide (hasMedia a ≠ hasMedia b)) as [Hne|Heq];
    intros H%bool_decide_eq_false.
  - left. rewrite <- Z2Qc_inj_0, <- Z2Qc_inj_lt in H. lia.
  - right. rewrite <- Z2Qc_inj_0, <- Z2Qc_inj_lt in H. lia.
Qed.

Lemma media_then_date_ge_trans : Transitive media_then_date_ge.
Proof. unfold media_then_date_ge. intros a b c ??. lia. Qed.

End Router.

Section RankerClaim.
Import Js ResultProcessor SmartRouter.

(** C6 (amended). [rankResults], for a fixed value of [Date.now()], returns
    a permutation of its input. When every item carries a published or
    enriched date, it is the stable sort by the one score [rank_score],
    computed in doubles (10 x relevance + 5 x number of media + max(0, 10 -
    age in days) + 3 for exa and firecrawl): items whose scores compare
    equal keep their input order, no item is directly followed by one of a
    greater score, and, no score being [NaN], scores descend. With an item
    that has no date the comparator is inconsistent and the order is the
    engine's. [processResults] returns the url-deduplicated input arranged
    by media count, then by date, both descending. *)
Theorem rankResults_stable_by_score (inconsistent_sort : Z → list Result → list Result)
    (nowTime : Z) (results : list Result) :
  (∀ l, inconsistent_sort nowTime l ≡ₚ l) →
  rankResults inconsistent_sort nowTime results ≡ₚ results
  ∧ (Forall (λ r, is_Some (getTime r)) results →
     (∀ s, filter (λ r, (rank_score nowTime r =? s)%float = true)
             (rankResults inconsistent_sort nowTime results)
           = filter (λ r, (rank_score nowTime r =? s)%float = true) results)
     ∧ Sorted (score_ge nowTime) (rankResults inconsistent_sort nowTime results)
     ∧ (scores_are_numbers nowTime results →
        StronglySorted (score_ge nowTime) (rankResults inconsistent_sort nowTime results)))
  ∧ processResults results ≡ₚ unique_by_url [] results
  ∧ StronglySorted media_then_date_ge (processResults results).
Proof.
  intros Hengine. split_and!.
  - unfold rankResults. case_bool_decide; [apply stable_sort_perm | apply Hengine].
  - intros Hdated. rewrite rankResults_dated by done.
    assert (Hsorted : Sorted (score_ge nowTime) (stable_sort (rank_after nowTime) results)).
    { eapply (Sorted_impl_Forall (before (rank_after nowTime)) _ (λ _, True)).
      - intros a b _ _ Hab. unfold before in Hab. unfold score_ge.
        by rewrite <- rank_after_lt.
      - by apply Forall_forall.
      - apply stable_sort_sorted, rank_after_asym. }
    split_and!; [|done|].
    + intros s. apply stable_sort_filter.
      intros x y Hafter Hx Hy. by apply (rank_after_equal nowTime s x y).
    + intros Hnumbers.
      set (number := λ r, is_NaN (rank_score nowTime r) = false).
      apply (StronglySorted_weaken (λ a b, number a ∧ number b ∧ score_ge nowTime a b));
        [by intros a b (_ & _ & ?)|].
      apply Sorted_StronglySorted.
      { intros a b c (Ha & Hb & Hab) (_ & Hc & Hbc). split_and!; [done..|].
        eapply score_ge_trans; [apply Hb|done..]. }
      eapply (Sorted_impl_Forall _ _ number); [| |exact Hsorted].
      * intros a b Ha Hb Hab. by split_and!.
      * by rewrite stable_sort_perm.
  - apply stable_sort_perm.
  - apply Sorted_StronglySorted; [apply media_then_date_ge_trans|].
    eapply (Sorted_impl_Forall _ _ (λ _, True)).
    + intros a b _ _. apply process_before_ge.
    + by apply Forall_forall.
    + apply stable_sort_sorted.
      intros x y. unfold after, process_cmp.
      destruct (decide (hasMedia x ≠ hasMedia y)), (decide (hasMedia y ≠ hasMedia x));
        try congruence;
        intros H%bool_decide_eq_true; apply bool_decide_eq_false;
        rewrite <- Z2Qc_inj_0, <- Z2Qc_inj_lt in *; lia.
Qed.

End RankerClaim.

(** The theorem at the old and the fresh item, at instant 0 and in an
    engine that leaves an array as it is when the comparator is
    inconsistent: the fresh item leads. *)
Lemma rankResults_stable_by_score_witness :
  ResultProcessor.rankResults (λ _ l, l) 0 [item_old; item_fresh] ≡ₚ [item_old; item_fresh]
  ∧ StronglySorted (score_ge 0)
      (ResultProcessor.rankResults (λ _ l, l) 0 [item_old; item_fresh])
  ∧ ResultProcessor.rankResults (λ _ l, l) 0 [item_old; item_fresh] = [item_fresh; item_old].
Proof.
  destruct (rankResults_stable_by_score (λ _ l, l) 0 [item_old; item_fresh])
    as (Hperm & Hdated & _); [done|].
  destruct Hdated as (_ & _ & Hdesc); [by repeat constructor|].
  split_and!; [done| |by vm_compute].
  apply Hdesc; repeat constructor.
Defined.

(** C6 (counterexample). An item with media does not outrank an item
    without: 5 for one media entry loses against 100 for relevance 10. And
    the order of one and the same input changes with the current time: the
    fresh item leads at instant 0 and trails ten days later, when its
    recency bonus has gone. Every item of these inputs has a date, so the
    order is that of the stable sort in every engine. *)
Lemma rankResults_no_media_priority :
  (∀ inconsistent_sort,
     ResultProcessor.rankResults inconsistent_sort (100 * ResultProcessor.ms_per_day)
       [item_with_media; item_relevant] = [item_relevant; item_with_media]
     ∧ ResultProcessor.rankResults inconsistent_sort 0 [item_old; item_fresh]
       = [item_fresh; item_old]
     ∧ ResultProcessor.rankResults inconsistent_sort (10 * ResultProcessor.ms_per_day)
         [item_old; item_fresh] = [item_old; item_fresh])
  ∧ ResultProcessor.media item_with_media ≠ Some []
  ∧ ResultProcessor.media item_relevant = Some [].
Proof.
  split_and!; [|done..].
  intros inconsistent_sort.
  split_and!; (rewrite rankResults_dated by (by repeat constructor)); vm_compute; reflexivity.
Qed.

(** ** Reading a tracker with its results *)

Section HealthyDatabase.
Import Js Runtime Supabase.
Variable env : Env.
Hypothesis healthy : ∀ n, db_fault env n = None.

Lemma request_healthy {A} (query : World → DbReply A * World) (w : World) :
  request env query w = (Returned (query (tick w)).1, (query (tick w)).2).
Proof. unfold request. rewrite healthy. by destruct (query (tick w)). Qed.

End HealthyDatabase.

Section LatestResults.
Import Js Runtime Supabase TrackerEngine.

Lemma score_desc_trans : Transitive score_desc.
Proof.
  intros a b c. unfold score_desc.
  destruct (res_score a), (res_score b), (res_score c); try done.
  intros ??. by etrans.
Qed.

Lemma score_behind_asym (a b : ResultRow) :
  score_behind a b = true → score_behind b a = false.
Proof.
  unfold score_behind. destruct (res_score a), (res_score b); try done.
  intros H%bool_decide_eq_true. apply bool_decide_eq_false.
  by apply Qcle_not_lt, Qclt_le_weak.
Qed.

Lemma score_before_desc (a b : ResultRow) : before score_behind a b → score_desc a b.
Proof.
  unfold before, score_behind, score_desc.
  destruct (res_score a), (res_score b); try done.
  intros H%bool_decide_eq_false. by apply Qcnot_lt_le.
Qed.

Lemma results_of_run_sorted (id : nat) (rows : list ResultRow) :
  StronglySorted score_desc (results_of_run id rows).
Proof.
  apply Sorted_StronglySorted; [apply score_desc_trans|].
  eapply (Sorted_impl_Forall _ _ (λ _, True)).
  - intros a b _ _. apply score_before_desc.
  - by apply Forall_forall.
  - apply stable_sort_sorted, score_behind_asym.
Qed.

(** The first row under [ORDER BY started_at DESC] started last. *)
Lemma order_desc_head {A : Type} (key : A → Z) (l : list A) (x : A) (rest : list A) :
  order_desc key l = x :: rest → x ∈ l ∧ ∀ y, y ∈ l → (key y ≤ key x)%Z.
Proof.
  intros Heq.
  assert (Hperm : order_desc key l ≡ₚ l) by apply stable_sort_perm.
  assert (Hs : StronglySorted (λ a b, key b ≤ key a)%Z (order_desc key l)).
  { apply Sorted_StronglySorted; [intros a b c; lia|].
    eapply (Sorted_impl_Forall (before (λ a b, bool_decide (key a < key b)%Z)) _ (λ _, True)).
    - intros a b _ _ H%bool_decide_eq_false. lia.
    - by apply Forall_forall.
    - apply stable_sort_sorted. intros a b H%bool_decide_eq_true.
      apply bool_decide_eq_false. lia. }
  rewrite Heq in Hperm, Hs. split.
  - rewrite <- Hperm. by left.
  - intros y Hy. rewrite <- Hperm in Hy.
    apply StronglySorted_inv in Hs as [_ Hall].
    apply elem_of_cons in Hy as [->|Hy]; [done|].
    by eapply Forall_forall in Hall.
Qed.

(** C7 (amended). With a database that answers, reading a tracker returns
    the results of the tracker's most recent run, the run that started last
    whatever its status, in descending order of score (rows without a score
    first); a tracker without any run has no results. *)
Theorem getTrackerWithResults_latest_run (env : Env) (w : World) (trackerId : nat)
    (t : TrackerRow) :
  (∀ n, db_fault env n = None) →
  filter (λ t, t_id t = trackerId) (trackers w) = [t] →
  ∃ view w',
    getTrackerWithResults env trackerId w = (Returned (Success view), w')
    ∧ tracker view = t
    ∧ StronglySorted score_desc (view_results view)
    ∧ match latestRun view with
      | Some run =>
          run ∈ tracker_runs w
          ∧ r_tracker_id run = trackerId
          ∧ (∀ r, r ∈ tracker_runs w → r_tracker_id r = trackerId →
                  (r_started_at r ≤ r_started_at run)%Z)
          ∧ view_results view ≡ₚ filter (λ r, res_run_id r = r_id run) (tracker_results w)
      | None =>
          (∀ r, r ∈ tracker_runs w → r_tracker_id r ≠ trackerId)
          ∧ view_results view = []
      end.
Proof.
  intros healthy Hfound.
  unfold getTrackerWithResults, getTrackerWithResults_body, try_catch, bind,
    select_tracker, select_latest_run, select_results.
  rewrite !request_healthy by done. simpl. rewrite Hfound. simpl.
  rewrite !request_healthy by done. simpl.
  unfold latest_run_of.
  destruct (order_desc r_started_at
              (filter (λ r, r_tracker_id r = trackerId) (tracker_runs w)))
    as [|run rest] eqn:Hruns; simpl.
  - eexists _, _. split_and!; [done..|constructor|]. simpl. split; [|done].
    intros r Hr Hid.
    assert (Hin : r ∈ filter (λ r, r_tracker_id r = trackerId) (tracker_runs w))
      by by apply list_elem_of_filter.
    assert (Hperm : order_desc r_started_at
              (filter (λ r, r_tracker_id r = trackerId) (tracker_runs w))
              ≡ₚ filter (λ r, r_tracker_id r = trackerId) (tracker_runs w))
      by apply stable_sort_perm.
    rewrite Hruns in Hperm. rewrite <- Hperm in Hin. by apply not_elem_of_nil in Hin.
  - rewrite ?take_0. simpl. rewrite ?request_healthy by done. simpl.
    apply order_desc_head in Hruns as [Hin Hmax].
    apply list_elem_of_filter in Hin as [Hid Hin].
    eexists _, _. split_and!; [done..|apply results_of_run_sorted|]. simpl.
    split_and!; [done..| |].
    + intros r Hr Hrid. apply Hmax. by apply list_elem_of_filter.
    + apply stable_sort_perm.
Qed.

End LatestResults.

(** C7 (counterexample). The tracker's most recent completed run is
    [run_done], with two results; a later run is still marked running.
    Reading the tracker returns that later run and no result. *)
Lemma getTrackerWithResults_ignores_status :
  (TrackerEngine.getTrackerWithResults (scenario_env search_one chat_prose json_texts) 0
     world_two_runs).1
  = Runtime.Returned
      (Runtime.Success (TrackerEngine.mkTrackerView tracker_ai_ran (Some run_stuck) []))
  ∧ Runtime.r_status run_done = Runtime.completed
  ∧ Runtime.r_status run_stuck = Runtime.running
  ∧ filter (λ r, Runtime.res_run_id r = Runtime.r_id run_done)
      (Runtime.tracker_results world_two_runs) = [result_tool 2; result_tool 3].
Proof. split_and!; vm_compute; reflexivity. Qed.

(** The theorem on [getTrackerWithResults] at [world_two_runs]. *)
Lemma getTrackerWithResults_latest_run_witness :
  ∃ view w',
    TrackerEngine.getTrackerWithResults (scenario_env search_one chat_prose json_texts) 0
      world_two_runs = (Runtime.Returned (Runtime.Success view), w')
    ∧ TrackerEngine.tracker view = tracker_ai_ran
    ∧ StronglySorted score_desc (TrackerEngine.view_results view)
    ∧ match TrackerEngine.latestRun view with
      | Some run =>
          run ∈ Runtime.tracker_runs world_two_runs
          ∧ Runtime.r_tracker_id run = 0
          ∧ (∀ r, r ∈ Runtime.tracker_runs world_two_runs → Runtime.r_tracker_id r = 0 →
                  (Runtime.r_started_at r ≤ Runtime.r_started_at run)%Z)
          ∧ TrackerEngine.view_results view
              ≡ₚ filter (λ r, Runtime.res_run_id r = Runtime.r_id run)
                   (Runtime.tracker_results world_two_runs)
      | None =>
          (∀ r, r ∈ Runtime.tracker_runs world_two_runs → Runtime.r_tracker_id r ≠ 0)
          ∧ TrackerEngine.view_results view = []
      end.
Proof.
  apply (getTrackerWithResults_latest_run
           (scenario_env search_one chat_prose json_texts) world_two_runs 0 tracker_ai_ran).
  - intros n. reflexivity.
  - reflexivity.
Defined.

(** ** Creation requests *)

Section Creation.
Import Js Runtime Supabase TrackerEngine Route.

(** C8. A creation request whose prompt is missing or empty is answered with
    status 400 and the error "Prompt is required", and the world is returned
    as it was: no database request is made, so no tracker and no run come to
    exist, with any environment. *)
Theorem POST_rejects_missing_prompt (env : Env) (w : World)
    (name description : option string) (isPublic : option bool) :
  POST env (Some (mkBody None name description isPublic)) w
  = (Returned (mkResponse 400 (ErrorBody "Prompt is required")), w)
  ∧ POST env (Some (mkBody (Some "") name description isPublic)) w
    = (Returned (mkResponse 400 (ErrorBody "Prompt is required")), w).
Proof. split; reflexivity. Qed.

Lemma isPublic_or_true_true (isPublic : option bool) : isPublic_or_true isPublic = true.
Proof. by destruct isPublic as [[]|]. Qed.

(** What [insert_tracker] does to the table: nothing, or one more row that
    carries the flag it was given. *)
Lemma insert_tracker_effect (env : Env) (row : TrackerInsert) (w : World) :
  match insert_tracker env row w with
  | (Returned (DbData t), w') =>
      t_is_public t = ins_is_public row ∧ trackers w' = trackers w ++ [t]
  | (Returned (DbFailed _), w') | (Threw _, w') => trackers w' = trackers w
  end.
Proof.
  unfold insert_tracker, request.
  destruct (db_fault env (db_calls w)) as [[e|e]|]; simpl; [done..|].
  destruct (text (ins_name row)) as [[name|]|], (text (ins_description row)); by simpl.
Qed.

Lemma parsePrompt_world (env : Env) (prompt : string) (w : World) :
  ∃ parsed, parsePrompt env prompt w = (Returned parsed, w).
Proof.
  unfold parsePrompt, try_catch, bind, lift, parse, ret, throw.
  destruct (openai_chat env parse_instructions prompt) as [content|e]; [|by eexists].
  destruct (JSON_parse env (content_or "{}" content)); by eexists.
Qed.

Lemma read_world (v : JsVal) (k : string) (w : World) : (read v k w).2 = w.
Proof. unfold read. by destruct (nullish v). Qed.

Lemma given_or_world (env : Env) given parsed key (w : World) :
  (given_or given parsed key w).2 = w.
Proof. unfold given_or. destruct (truthy _); [done | apply read_world]. Qed.

(** C9. Whatever configuration [createTracker] is given, also one whose
    [isPublic] is false, a tracker row it inserts has [is_public] true;
    when it fails no row is inserted; it never throws. *)
Theorem createTracker_always_public (env : Env) (config : TrackerConfig) (w : World) :
  match createTracker env config w with
  | (Returned (Success t), w') => t_is_public t = true ∧ trackers w' = trackers w ++ [t]
  | (Returned (Failure _), w') => trackers w' = trackers w
  | (Threw _, _) => False
  end.
Proof.
  unfold createTracker, createTracker_body, try_catch, bind.
  destruct (parsePrompt_world env (prompt config) w) as [parsed ->].
  pose proof (given_or_world env (name config) parsed "name" w) as Hname.
  destruct (given_or _ parsed "name" w) as [[name|e] w1]; simpl in Hname; subst w1; [|done].
  pose proof (given_or_world env (description config) parsed "description" w) as Hdesc.
  destruct (given_or _ parsed "description" w) as [[description|e] w1];
    simpl in Hdesc; subst w1; [|done].
  unfold read at 1 2 3. destruct (nullish parsed); [done|]. unfold ret at 1 2 3.
  match goal with |- context [insert_tracker env ?row w] =>
    pose proof (insert_tracker_effect env row w) as Hins;
    destruct (insert_tracker env row w) as [[[t|e]|e] w1]
  end; simpl in *; [|done..].
  destruct Hins as [-> ?]. by rewrite isPublic_or_true_true.
Qed.

End Creation.

(** ** Totality of the public operations *)

Section Totality.
Import Js Runtime Supabase TrackerEngine.

Lemma try_catch_reports {A : Type} (fallback : string) (body : M (OpResult A)) :
  never_throws (try_catch body (λ error, ret (Failure (message_or fallback error))))
  ∧ failure_reported fallback body
      (try_catch body (λ error, ret (Failure (message_or fallback error)))).
Proof.
  split.
  - intros w. unfold try_catch, ret. destruct (body w) as [[r|e] w']; eauto.
  - intros w e w' Hbody. unfold try_catch, ret. by rewrite Hbody.
Qed.

Lemma bind_eq {A B : Type} (m : M A) (k : A → M B) (w : World) :
  bind m k w = match m w with
               | (Returned a, w') => k a w'
               | (Threw e, w') => (Threw e, w')
               end.
Proof. reflexivity. Qed.

Lemma request_error (env : Env) {A} (query : World → DbReply A * World) (w : World)
    (e : Thrown) :
  db_fault env (db_calls w) = Some (DbError e) →
  request env query w = (Returned (DbFailed e), tick w).
Proof. intros Hdb. unfold request. by rewrite Hdb. Qed.

Lemma request_rejects (env : Env) {A} (query : World → DbReply A * World) (w : World)
    (e : Thrown) :
  db_fault env (db_calls w) = Some (DbReject e) →
  request env query w = (Threw e, tick w).
Proof. intros Hdb. unfold request. by rewrite Hdb. Qed.

Lemma request_ok (env : Env) {A} (query : World → DbReply A * World) (w : World) :
  db_fault env (db_calls w) = None →
  request env query w = (Returned (query (tick w)).1, (query (tick w)).2).
Proof. intros Hdb. unfold request. rewrite Hdb. by destruct (query (tick w)). Qed.

(** Up to its database request, [createTracker] leaves the world alone. *)
Lemma createTracker_first_request (env : Env) (config : TrackerConfig) (w : World) :
  (∃ error, createTracker_body env config w = (Threw error, w))
  ∨ ∃ row, createTracker_body env config w
           = bind (insert_tracker env row)
               (λ reply, match reply with
                         | DbFailed error => throw error
                         | DbData tracker => ret (Success tracker)
                         end) w.
Proof.
  unfold createTracker_body.
  assert (Hparse : ∃ parsed, parsePrompt env (prompt config) w = (Returned parsed, w)).
  { unfold parsePrompt, try_catch, bind, lift, parse, ret, throw.
    destruct (openai_chat env _ _) as [content|]; [|by eexists].
    destruct (JSON_parse env _); by eexists. }
  destruct Hparse as [parsed Hparse].
  assert (Hread : ∀ v k, (∃ error, read v k w = (Threw error, w))
                         ∨ ∃ x, read v k w = (Returned x, w)).
  { intros v k. unfold read, throw, ret. destruct (nullish v); [left|right]; by eexists. }
  assert (Hgiven : ∀ given k, (∃ error, given_or given parsed k w = (Threw error, w))
                              ∨ ∃ x, given_or given parsed k w = (Returned x, w)).
  { intros given k. unfold given_or. destruct (truthy _); [right; by eexists|apply Hread]. }
  rewrite bind_eq, Hparse, bind_eq.
  destruct (Hgiven (name config) "name") as [[e He]|[x Hx]];
    [left; exists e; by rewrite He|rewrite Hx, bind_eq].
  destruct (Hgiven (description config) "description") as [[e He]|[y Hy]];
    [left; exists e; by rewrite He|rewrite Hy, bind_eq].
  destruct (Hread parsed "queries") as [[e He]|[q Hq]];
    [left; exists e; by rewrite He|rewrite Hq, bind_eq].
  destruct (Hread parsed "sources") as [[e He]|[p Hp]];
    [left; exists e; by rewrite He|rewrite Hp, bind_eq, Hp].
  right. by eexists.
Qed.

(** C10 (amended). Each public operation of [TrackerEngine] and
    [FirecrawlService] returns a result object in every environment and
    every state of the world, never throwing to its caller, and an error
    thrown inside its [try] block is returned as [success: false] with the
    error's message or the operation's fallback text. Thrown, and so
    reported, are: a rejected request; an error that the database reports
    on the first request of [runTracker], [getTrackerWithResults] and
    [getPublicTrackers], on the creation of the run and on the insert of
    [createTracker]; and a search or a scrape that the Firecrawl client
    refuses. *)
Theorem operations_report_thrown_errors (env : Env) :
  (∀ config,
     never_throws (createTracker env config)
     ∧ failure_reported "Failed to create tracker"
         (createTracker_body env config) (createTracker env config))
  ∧ (∀ trackerId,
       never_throws (runTracker env trackerId)
       ∧ failure_reported "Failed to run tracker"
           (runTracker_body env trackerId) (runTracker env trackerId))
  ∧ (∀ trackerId,
       never_throws (getTrackerWithResults env trackerId)
       ∧ failure_reported "Failed to get tracker"
           (getTrackerWithResults_body env trackerId) (getTrackerWithResults env trackerId))
  ∧ (never_throws (getPublicTrackers env)
     ∧ failure_reported "Failed to get trackers"
         (getPublicTrackers_body env) (getPublicTrackers env))
  ∧ (∀ query limit,
       never_throws (FirecrawlService.search env query limit)
       ∧ failure_reported "Search failed"
           (FirecrawlService.search_body env query limit)
           (FirecrawlService.search env query limit))
  ∧ (∀ url,
       never_throws (FirecrawlService.scrapeUrl env url)
       ∧ failure_reported "Failed to scrape URL"
           (FirecrawlService.scrapeUrl_body env url) (FirecrawlService.scrapeUrl env url))
  ∧ (∀ trackerId w e,
       db_fault env (db_calls w) = Some (DbError e) →
       runTracker env trackerId w = (Returned (Failure "Tracker not found"), tick w)
       ∧ getTrackerWithResults env trackerId w
         = (Returned (Failure (message_or "Failed to get tracker" e)), tick w)
       ∧ getPublicTrackers env w
         = (Returned (Failure (message_or "Failed to get trackers" e)), tick w))
  ∧ (∀ trackerId w e,
       db_fault env (db_calls w) = Some (DbReject e) →
       runTracker env trackerId w
       = (Returned (Failure (message_or "Failed to run tracker" e)), tick w)
       ∧ getTrackerWithResults env trackerId w
         = (Returned (Failure (message_or "Failed to get tracker" e)), tick w)
       ∧ getPublicTrackers env w
         = (Returned (Failure (message_or "Failed to get trackers" e)), tick w))
  ∧ (∀ trackerId w t e,
       db_fault env (db_calls w) = None →
       filter (λ t, t_id t = trackerId) (trackers w) = [t] →
       db_fault env (S (db_calls w)) = Some (DbError e)
       ∨ db_fault env (S (db_calls w)) = Some (DbReject e) →
       runTracker env trackerId w
       = (Returned (Failure (message_or "Failed to run tracker" e)), tick (tick w)))
  ∧ (∀ config w e,
       db_fault env (db_calls w) = Some (DbError e)
       ∨ db_fault env (db_calls w) = Some (DbReject e) →
       ∃ error w',
         createTracker env config w = (Returned (Failure error), w')
         ∧ trackers w' = trackers w)
  ∧ (∀ query limit w e,
       firecrawl_search env query limit = Threw e →
       FirecrawlService.search env query limit w
       = (Returned (Failure (message_or "Search failed" e)), w))
  ∧ (∀ url w e,
       firecrawl_scrapeUrl env url = Threw e →
       FirecrawlService.scrapeUrl env url w
       = (Returned (Failure (message_or "Failed to scrape URL" e)), w)).
Proof.
  do 6 (split; [intros; apply try_catch_reports|]). split_and!.
  - intros trackerId w e Hdb. split_and!.
    + unfold runTracker, runTracker_body, try_catch, select_tracker.
      by rewrite bind_eq, (request_error env _ w e Hdb).
    + unfold getTrackerWithResults, getTrackerWithResults_body, try_catch, select_tracker.
      by rewrite bind_eq, (request_error env _ w e Hdb).
    + unfold getPublicTrackers, getPublicTrackers_body, try_catch, select_public_trackers.
      by rewrite bind_eq, (request_error env _ w e Hdb).
  - intros trackerId w e Hdb. split_and!.
    + unfold runTracker, runTracker_body, try_catch, select_tracker.
      by rewrite bind_eq, (request_rejects env _ w e Hdb).
    + unfold getTrackerWithResults, getTrackerWithResults_body, try_catch, select_tracker.
      by rewrite bind_eq, (request_rejects env _ w e Hdb).
    + unfold getPublicTrackers, getPublicTrackers_body, try_catch, select_public_trackers.
      by rewrite bind_eq, (request_rejects env _ w e Hdb).
  - intros trackerId w t e Hfirst Hfound Hsecond.
    unfold runTracker, runTracker_body, try_catch, select_tracker, insert_run.
    rewrite bind_eq, (request_ok env _ w Hfirst). cbn [fst snd].
    cbn [trackers tick]. rewrite Hfound. cbn [single].
    rewrite bind_eq. unfold ret at 1. rewrite bind_eq.
    destruct Hsecond as [Hsecond|Hsecond].
    + by rewrite (request_error env _ (tick w) e Hsecond).
    + by rewrite (request_rejects env _ (tick w) e Hsecond).
  - intros config w e Hdb. unfold createTracker, try_catch.
    destruct (createTracker_first_request env config w) as [[error ->]|[row ->]].
    { eexists _, w. by split. }
    unfold insert_tracker. rewrite bind_eq.
    destruct Hdb as [Hdb|Hdb].
    + rewrite (request_error env _ w e Hdb). eexists _, (tick w). by split.
    + rewrite (request_rejects env _ w e Hdb). eexists _, (tick w). by split.
  - intros query limit w e Hsearch.
    unfold FirecrawlService.search, FirecrawlService.search_body, try_catch, bind, lift.
    by rewrite Hsearch.
  - intros url w e Hscrape.
    unfold FirecrawlService.scrapeUrl, FirecrawlService.scrapeUrl_body, try_catch, bind, lift.
    by rewrite Hscrape.
Qed.

End Totality.

(** C10 (counterexample). A failure that is not thrown is not reported.
    With a database that answers the lookup of the tracker and the creation
    of the run and reports an error on every later request, [runTracker]
    returns [success: true] with the collected results, although none of
    them is stored and the run is still marked running. With a database
    that answers the lookup only, [getTrackerWithResults] returns
    [success: true] without a run and without results, although the tracker
    has two runs. And when every search times out, [runTracker] returns
    [success: true] with no results. *)
Lemma failures_reported_as_success :
  (TrackerEngine.runTracker env_writes_fail 0 world_fresh).1
  = Runtime.Returned
      (Runtime.Success (TrackerEngine.mkRunPayload (Js.JArr collected_tools) 1))
  ∧ collected_tools ≠ []
  ∧ Runtime.db_fault env_writes_fail 2
    = Some (Runtime.DbError (plain_error "permission denied"))
  ∧ Runtime.tracker_results (TrackerEngine.runTracker env_writes_fail 0 world_fresh).2 = []
  ∧ Runtime.tracker_runs (TrackerEngine.runTracker env_writes_fail 0 world_fresh).2
    = [new_run world_fresh 0]
  ∧ (TrackerEngine.getTrackerWithResults env_reads_fail 0 world_two_runs).1
    = Runtime.Returned
        (Runtime.Success (TrackerEngine.mkTrackerView tracker_ai_ran None []))
  ∧ Runtime.db_fault env_reads_fail 8
    = Some (Runtime.DbError (plain_error "permission denied"))
  ∧ Runtime.tracker_runs world_two_runs = [run_done; run_stuck]
  ∧ (TrackerEngine.runTracker env_sources_down 0 world_fresh).1
    = Runtime.Returned (Runtime.Success (TrackerEngine.mkRunPayload (Js.JArr []) 1))
  ∧ Runtime.firecrawl_search env_sources_down (Js.JStr "AI tools Product Hunt") 5
    = Runtime.Threw (Runtime.ErrorObject "timeout").
Proof. split_and!; by vm_compute. Qed.

(** ** Running a tracker *)

Section Run.
Import Js Runtime Supabase TrackerEngine.
Local Open Scope js_scope.

Lemma searchWithFirecrawl_found (env : Env) (query : JsVal) (w : World) :
  searchWithFirecrawl env query w = (Returned (found_by env query), w).
Proof.
  unfold searchWithFirecrawl, FirecrawlService.search, FirecrawlService.search_body,
    found_by, try_catch, bind, lift, ret.
  by destruct (firecrawl_search env query 5) as [[data|]|e].
Qed.

Lemma collect_found (env : Env) (queries results : list JsVal) (w : World) :
  collect env queries results w
  = (Returned (results ++ concat (found_by env <$> queries)), w).
Proof.
  revert results. induction queries as [|q qs IH]; intros results; simpl.
  - unfold ret. by rewrite app_nil_r.
  - unfold bind. rewrite searchWithFirecrawl_found, IH. by rewrite <- app_assoc.
Qed.

Lemma content_or_text (fallback text : string) :
  text ≠ "" → content_or fallback (Some text) = text.
Proof. by destruct text. Qed.

(** The enricher neither throws nor touches the world. *)
Lemma enrichResults_returns (env : Env) (results : list JsVal) (prompt : string) (w : World) :
  ∃ enriched, enrichResults env results prompt w = (Returned enriched, w).
Proof.
  unfold enrichResults. destruct results as [|r rs]; [by eexists|].
  unfold try_catch, bind, lift, parse, read, ret, throw.
  destruct (openai_chat env _ _) as [content|e]; [|by eexists].
  destruct (JSON_parse env _) as [enhanced|]; [|by eexists].
  destruct (nullish enhanced); by eexists.
Qed.

Lemma enrichResults_not_json (env : Env) (results : list JsVal) (prompt text : string)
    (w : World) :
  openai_chat env (enrich_instructions prompt) (JSON_stringify env (JArr (take 10 results)))
  = Returned (Some text) →
  text ≠ "" →
  JSON_parse env text = None →
  enrichResults env results prompt w = (Returned (JArr results), w).
Proof.
  intros Hchat Htext Hparse. unfold enrichResults. destruct results as [|r rs]; [done|].
  unfold try_catch, bind, lift, parse. rewrite Hchat, content_or_text, Hparse by done.
  done.
Qed.

Lemma map_array_world {B : Type} (f : JsVal → M B) (items : list JsVal) (w : World) :
  (∀ v w, (f v w).2 = w) → (map_array f items w).2 = w.
Proof.
  intros Hf. induction items as [|v vs IH]; simpl; [done|].
  unfold bind. specialize (Hf v w).
  destruct (f v w) as [[b|e] w1]; simpl in Hf; subst w1; [|done].
  destruct (map_array f vs w) as [[bs|e] w1]; simpl in IH; by subst w1.
Qed.

Lemma to_insert_world (run_id trackerId : nat) (v : JsVal) (w : World) :
  (to_insert run_id trackerId v w).2 = w.
Proof. unfold to_insert, bind, read, ret, throw. by destruct (nullish v). Qed.

Lemma map_results_world (run_id trackerId : nat) (v : JsVal) (w : World) :
  (map_results (to_insert run_id trackerId) v w).2 = w.
Proof.
  destruct v; simpl; try done.
  apply map_array_world. intros. apply to_insert_world.
Qed.

Lemma insert_results_same_runs (env : Env) (rows : list ResultInsert) (w : World) :
  same_runs w (insert_results env rows w).2.
Proof.
  unfold insert_results, request, same_runs.
  destruct (db_fault env (db_calls w)) as [[e|e]|]; simpl; [done..|].
  by destruct (result_rows _ _ rows).
Qed.

Lemma gather_same_runs (env : Env) (tracker : TrackerRow) (run_id trackerId : nat)
    (w : World) :
  same_runs w (gather env tracker run_id trackerId w).2.
Proof.
  unfold gather, bind at 1.
  assert (Hit : (iterate (queries_of tracker) w).2 = w)
    by (unfold iterate; by destruct (queries_of tracker)).
  destruct (iterate (queries_of tracker) w) as [[queries|e] w1];
    simpl in Hit; subst w1; [|done].
  unfold bind at 1. rewrite collect_found.
  unfold bind at 1.
  destruct (enrichResults_returns env ([] ++ concat (found_by env <$> queries))
              (t_prompt tracker) w) as [enriched ->].
  unfold bind at 1.
  destruct (has_length env enriched); [|done].
  unfold bind at 1.
  pose proof (map_results_world run_id trackerId enriched w) as Hmap.
  destruct (map_results _ enriched w) as [[rows|e] w1]; simpl in Hmap; subst w1; [|done].
  unfold bind at 1.
  pose proof (insert_results_same_runs env rows w) as Hins.
  by destruct (insert_results env rows w) as [[reply|e] w1].
Qed.

Lemma runTracker_body_healthy (env : Env) (w : World) (trackerId : nat) (t : TrackerRow) :
  (∀ n, db_fault env n = None) →
  filter (λ t, t_id t = trackerId) (trackers w) = [t] →
  runTracker_body env trackerId w
  = match gather env t (next_id w) trackerId (run_created w trackerId) with
    | (Returned enriched, w') =>
        (Returned (Success (mkRunPayload enriched (next_id w))),
         run_finished w' (next_id w) trackerId enriched)
    | (Threw e, w') => (Threw e, w')
    end.
Proof.
  intros healthy Hfound.
  unfold runTracker_body, gather, select_tracker, insert_run.
  unfold bind at 1. rewrite request_healthy by done. simpl. rewrite Hfound. simpl.
  unfold bind at 1. unfold ret at 1.
  unfold bind at 1. rewrite request_healthy by done. simpl.
  unfold bind at 1. unfold ret at 1.
  fold (new_run w trackerId). fold (run_created w trackerId).
  change (r_id (new_run w trackerId)) with (next_id w).
  rewrite !bind_eq.
  destruct (iterate (queries_of t) (run_created w trackerId)) as [[queries|e] w1]; [|done].
  rewrite !bind_eq.
  destruct (collect env queries [] w1) as [[results|e] w2]; [|done].
  rewrite !bind_eq.
  destruct (enrichResults env results (t_prompt t) w2) as [[enriched|e] w3]; [|done].
  rewrite !bind_eq.
  match goal with |- context [(if has_length env enriched then ?a else ?b) w3] =>
    destruct ((if has_length env enriched then a else b) w3) as [[[]|e] w4]
  end; [|done].
  unfold update_run_completed, update_last_run, current_time.
  unfold bind, ret. rewrite !request_healthy by done. simpl.
  rewrite ?request_healthy by done. simpl. done.
Qed.

End Run.

Section RunClaims.
Import Js Runtime Supabase TrackerEngine.
Local Open Scope js_scope.

Lemma set_completed_fresh (id : nat) (at_ : Z) (metadata : JsVal) (runs : list RunRow) :
  Forall (λ r, r_id r < id) runs → set_completed id at_ metadata <$> runs = runs.
Proof.
  induction 1 as [|r runs Hr _ IH]; [done|].
  rewrite fmap_cons, IH. unfold set_completed.
  destruct (decide (r_id r = id)); [lia|done].
Qed.

(** The runs table after a successful run. *)
Lemma run_finished_runs (w w' : World) (trackerId : nat) (enriched : JsVal) :
  Forall (λ r, r_id r < next_id w) (tracker_runs w) →
  same_runs (run_created w trackerId) w' →
  tracker_runs (run_finished w' (next_id w) trackerId enriched)
  = tracker_runs w ++ [completed_run w trackerId enriched].
Proof.
  intros Hfresh (_ & Hruns & Hnow). simpl. rewrite Hruns, Hnow. simpl.
  rewrite fmap_app, set_completed_fresh by done. simpl.
  unfold set_completed, completed_run. simpl.
  by destruct (decide (next_id w = next_id w)).
Qed.

(** C2 (amended). With a database that answers and an existing tracker,
    [runTracker] inserts the run row in status running (pending is never
    used) before collection begins, and a run that ends successfully
    leaves this row, and no other, changed to completed. *)
Theorem runTracker_running_then_completed (env : Env) (w : World) (trackerId : nat)
    (t : TrackerRow) :
  (∀ n, db_fault env n = None) →
  filter (λ t, t_id t = trackerId) (trackers w) = [t] →
  Forall (λ r, r_id r < next_id w) (tracker_runs w) →
  runTracker_body env trackerId w
  = match gather env t (next_id w) trackerId (run_created w trackerId) with
    | (Returned enriched, w') =>
        (Returned (Success (mkRunPayload enriched (next_id w))),
         run_finished w' (next_id w) trackerId enriched)
    | (Threw e, w') => (Threw e, w')
    end
  ∧ tracker_runs (run_created w trackerId) = tracker_runs w ++ [new_run w trackerId]
  ∧ r_status (new_run w trackerId) = running
  ∧ ∀ payload w',
      runTracker env trackerId w = (Returned (Success payload), w') →
      runId payload = next_id w
      ∧ tracker_runs w' = tracker_runs w ++ [completed_run w trackerId (results payload)]
      ∧ r_status (completed_run w trackerId (results payload)) = completed.
Proof.
  intros healthy Hfound Hfresh. split_and!; [by apply runTracker_body_healthy|done..|].
  intros payload w'. unfold runTracker, try_catch.
  rewrite (runTracker_body_healthy env w trackerId t) by done.
  pose proof (gather_same_runs env t (next_id w) trackerId (run_created w trackerId)) as Hsame.
  destruct (gather env t (next_id w) trackerId (run_created w trackerId))
    as [[enriched|e] w1]; simpl in Hsame; [|done].
  intros [= <- <-]. split_and!; [done| |done].
  by apply run_finished_runs.
Qed.

Lemma tracker_result_not_nullish (item : FirecrawlService.SearchItem) :
  nullish (tracker_result item) = false.
Proof. reflexivity. Qed.

Lemma found_by_not_nullish (env : Env) (queries : list JsVal) :
  Forall (λ v, nullish v = false) (concat (found_by env <$> queries)).
Proof.
  apply Forall_concat, Forall_fmap, Forall_forall. intros q _. unfold compose, found_by.
  destruct (firecrawl_search env q 5) as [[data|]|e]; [|constructor..].
  apply Forall_fmap, Forall_forall. by intros.
Qed.

Lemma map_array_to_insert (run_id trackerId : nat) (items : list JsVal) (w : World) :
  Forall (λ v, nullish v = false) items →
  ∃ rows, map_array (to_insert run_id trackerId) items w = (Returned rows, w).
Proof.
  induction 1 as [|v vs Hv _ [rows IH]]; simpl; [by eexists|].
  rewrite bind_eq. unfold to_insert at 1, bind, read, ret. rewrite Hv.
  rewrite IH. by eexists.
Qed.

(** The collection phase when the enricher hands back what was collected. *)
Lemma gather_unenriched (env : Env) (t : TrackerRow) (run_id trackerId : nat)
    (queries : list JsVal) (w : World) :
  (∀ n, db_fault env n = None) →
  queries_of t = JArr queries →
  enrichResults env (concat (found_by env <$> queries)) (t_prompt t) w
  = (Returned (JArr (concat (found_by env <$> queries))), w) →
  ∃ w', gather env t run_id trackerId w
        = (Returned (JArr (concat (found_by env <$> queries))), w').
Proof.
  intros healthy Hq Henrich. unfold gather. rewrite Hq. simpl.
  rewrite bind_eq. unfold ret at 1. rewrite bind_eq, collect_found. simpl.
  rewrite bind_eq, Henrich. rewrite bind_eq.
  destruct (has_length env _); [|by eexists].
  rewrite bind_eq. simpl.
  destruct (map_array_to_insert run_id trackerId _ w (found_by_not_nullish env queries))
    as [rows ->].
  rewrite bind_eq. unfold insert_results. rewrite request_healthy by done.
  by eexists.
Qed.

(** C3 (amended). When the completion returns a non-empty text that
    [JSON.parse] refuses, the enricher returns exactly the list it was given;
    and with a database that answers and a tracker whose queries are an
    array, the run returns these items with success and leaves its run row
    completed. *)
Theorem enrichResults_falls_back (env : Env) (w : World) (trackerId : nat)
    (t : TrackerRow) (queries : list JsVal) (text : string) :
  (∀ n, db_fault env n = None) →
  filter (λ t, t_id t = trackerId) (trackers w) = [t] →
  Forall (λ r, r_id r < next_id w) (tracker_runs w) →
  queries_of t = JArr queries →
  (∀ results,
     openai_chat env (enrich_instructions (t_prompt t))
       (JSON_stringify env (JArr (take 10 results))) = Returned (Some text)) →
  text ≠ "" →
  JSON_parse env text = None →
  (∀ results w0, enrichResults env results (t_prompt t) w0 = (Returned (JArr results), w0))
  ∧ ∃ w',
      runTracker env trackerId w
      = (Returned (Success (mkRunPayload (JArr (concat (found_by env <$> queries)))
                              (next_id w))), w')
      ∧ tracker_runs w'
        = tracker_runs w
          ++ [completed_run w trackerId (JArr (concat (found_by env <$> queries)))].
Proof.
  intros healthy Hfound Hfresh Hq Hchat Htext Hparse.
  assert (Henrich : ∀ results w0,
            enrichResults env results (t_prompt t) w0 = (Returned (JArr results), w0)).
  { intros results w0. destruct results as [|r rs]; [done|].
    by eapply enrichResults_not_json. }
  split; [done|].
  pose proof (gather_same_runs env t (next_id w) trackerId (run_created w trackerId)) as Hsame.
  destruct (gather_unenriched env t (next_id w) trackerId queries
              (run_created w trackerId) healthy Hq (Henrich _ _)) as [w1 Hgather].
  unfold runTracker, try_catch.
  rewrite (runTracker_body_healthy env w trackerId t) by done.
  rewrite Hgather in *. simpl in Hsame. eexists. split; [done|].
  by apply run_finished_runs.
Qed.

(** C5. A search that fails contributes no result and the loop over the
    queries goes on: the collection is the concatenation of what each query
    found. When every search fails, with a database that answers and a
    tracker whose queries are an array, the run returns success with no
    result, stores no TrackerResult and leaves its run row completed. *)
Theorem adapter_failure_contributes_nothing (env : Env) (w : World) (trackerId : nat)
    (t : TrackerRow) (queries : list JsVal) :
  (∀ n, db_fault env n = None) →
  filter (λ t, t_id t = trackerId) (trackers w) = [t] →
  Forall (λ r, r_id r < next_id w) (tracker_runs w) →
  queries_of t = JArr queries →
  (∀ query e w0, firecrawl_search env query 5 = Threw e →
     FirecrawlService.search env query 5 w0 = (Returned (Failure (message_or "Search failed" e)), w0)
     ∧ searchWithFirecrawl env query w0 = (Returned [], w0)
     ∧ found_by env query = [])
  ∧ (∀ w0, collect env queries [] w0 = (Returned (concat (found_by env <$> queries)), w0))
  ∧ ((∀ query, query ∈ queries → ∃ e, firecrawl_search env query 5 = Threw e) →
     ∃ w',
       runTracker env trackerId w
       = (Returned (Success (mkRunPayload (JArr []) (next_id w))), w')
       ∧ tracker_results w' = tracker_results w
       ∧ tracker_runs w' = tracker_runs w ++ [completed_run w trackerId (JArr [])]).
Proof.
  intros healthy Hfound Hfresh Hq. split_and!.
  - intros query e w0 Hfail. split_and!.
    + unfold FirecrawlService.search, FirecrawlService.search_body, try_catch, bind, lift.
      by rewrite Hfail.
    + rewrite searchWithFirecrawl_found. unfold found_by. by rewrite Hfail.
    + unfold found_by. by rewrite Hfail.
  - intros w0. by rewrite collect_found.
  - intros Hall.
    assert (Hnone : concat (found_by env <$> queries) = []).
    { clear Hq. induction queries as [|q qs IH]; simpl; [done|].
      destruct (Hall q) as [e He]; [by left|].
      unfold found_by at 1. rewrite He. simpl. apply IH.
      intros q' Hq'. apply Hall. by right. }
    assert (Hgather : gather env t (next_id w) trackerId (run_created w trackerId)
                      = (Returned (JArr []), run_created w trackerId)).
    { unfold gather. rewrite Hq. simpl.
      rewrite bind_eq. unfold ret at 1. rewrite bind_eq, collect_found, Hnone. simpl.
      reflexivity. }
    unfold runTracker, try_catch.
    rewrite (runTracker_body_healthy env w trackerId t) by done.
    rewrite Hgather. eexists. split_and!; [done..|].
    by apply run_finished_runs.
Qed.

End RunClaims.

(** ** The claims on runs at the scenarios *)

(** C2 (counterexample). The completion answers [{ results: [null] }]; the
    run row has been created when mapping the enriched results throws, so
    [runTracker] returns a failure, and the row is left in status running,
    which is not a terminal status. *)
Lemma runTracker_error_leaves_running :
  (TrackerEngine.runTracker env_null_item 0 world_fresh).1
  = Runtime.Returned (Runtime.Failure "Cannot read properties of null (reading title)")
  ∧ Runtime.tracker_runs (TrackerEngine.runTracker env_null_item 0 world_fresh).2
    = [Runtime.mkRunRow 1 0 Runtime.running None Js.JNull 1000 None].
Proof. split; vm_compute; reflexivity. Qed.

(** The theorem on the run's status at [world_fresh], with a completion
    that answers in prose. *)
Lemma runTracker_running_then_completed_witness :
  ∃ payload w',
    TrackerEngine.runTracker env_prose 0 world_fresh
    = (Runtime.Returned (Runtime.Success payload), w')
    ∧ TrackerEngine.runId payload = 1
    ∧ Runtime.tracker_runs w'
      = [completed_run world_fresh 0 (TrackerEngine.results payload)]
    ∧ Runtime.r_status (completed_run world_fresh 0 (TrackerEngine.results payload))
      = Runtime.completed.
Proof.
  eexists _, _. split; [vm_compute; reflexivity|].
  apply (runTracker_running_then_completed env_prose world_fresh 0 tracker_ai).
  - intros n. reflexivity.
  - reflexivity.
  - constructor.
  - vm_compute; reflexivity.
Defined.

(** C3 (counterexample). The empty text is not valid JSON, yet when the
    completion returns it the enricher parses the default object instead
    and returns the empty list, not the item it was given. *)
Lemma enrichResults_empty_text_drops_items :
  Runtime.JSON_parse env_empty_reply "" = None
  ∧ collected_tools ≠ []
  ∧ TrackerEngine.enrichResults env_empty_reply collected_tools
      "Track AI tools on Product Hunt" world_fresh
    = (Runtime.Returned (Js.JArr []), world_fresh).
Proof. split_and!; [vm_compute; reflexivity | discriminate | vm_compute; reflexivity]. Qed.

(** The theorem on the enricher's fallback at [world_fresh]. *)
Lemma enrichResults_falls_back_witness :
  (∀ results w0,
     TrackerEngine.enrichResults env_prose results (Runtime.t_prompt tracker_ai) w0
     = (Runtime.Returned (Js.JArr results), w0))
  ∧ ∃ w',
      TrackerEngine.runTracker env_prose 0 world_fresh
      = (Runtime.Returned
           (Runtime.Success (TrackerEngine.mkRunPayload (Js.JArr collected_tools) 1)), w')
      ∧ Runtime.tracker_runs w' = [completed_run world_fresh 0 (Js.JArr collected_tools)].
Proof.
  apply (enrichResults_falls_back env_prose world_fresh 0 tracker_ai
           [Js.JStr "AI tools Product Hunt"; Js.JStr "new AI launches"]
           "Sorry, here are my thoughts.").
  - intros n. reflexivity.
  - reflexivity.
  - constructor.
  - reflexivity.
  - intros results. reflexivity.
  - discriminate.
  - vm_compute; reflexivity.
Defined.

(** The theorem on failing searches at [world_fresh], every search timing
    out. *)
Lemma adapter_failure_contributes_nothing_witness :
  ∃ w',
    TrackerEngine.runTracker env_sources_down 0 world_fresh
    = (Runtime.Returned (Runtime.Success (TrackerEngine.mkRunPayload (Js.JArr []) 1)), w')
    ∧ Runtime.tracker_results w' = []
    ∧ Runtime.tracker_runs w' = [completed_run world_fresh 0 (Js.JArr [])].
Proof.
  apply (adapter_failure_contributes_nothing env_sources_down world_fresh 0 tracker_ai
           [Js.JStr "AI tools Product Hunt"; Js.JStr "new AI launches"]).
  - intros n. reflexivity.
  - reflexivity.
  - constructor.
  - reflexivity.
  - intros query _. eexists. reflexivity.
Defined.

(** A request that asks for a private tracker gets a public one. *)
Example createTracker_private_is_public :
  ∃ t w',
    TrackerEngine.createTracker env_prose
      (TrackerEngine.mkConfig (Some "Mine") "Track my things" None (Some false)) world_fresh
    = (Runtime.Returned (Runtime.Success t), w')
    ∧ Runtime.t_is_public t = true.
Proof. eexists _, _. split; vm_compute; reflexivity. Qed.

(** [world_two_runs] arises from [world_fresh] by a run that completes at
    instant 1000 and, at instant 2000, a run on which the completion answers
    [{ results: [null] }]. *)
Example world_two_runs_reachable :
  let w1 := (TrackerEngine.runTracker env_prose 0 world_fresh).2 in
  let w1' := Runtime.mkWorld (Runtime.trackers w1) (Runtime.tracker_runs w1)
               (Runtime.tracker_results w1) (Runtime.next_id w1) (Runtime.db_calls w1) 2000 in
  (TrackerEngine.runTracker env_null_item 0 w1').2 = world_two_runs.
Proof. vm_compute. reflexivity. Qed.

(** ** Sets and maps of the JavaScript runtime *)

Section SetAndMap.
Import Js.

Lemma elem_of_foldl_set_add (acc l : list string) (x : string) :
  x ∈ foldl set_add acc l ↔ x ∈ acc ∨ x ∈ l.
Proof.
  revert acc. induction l as [|y l IH]; intros acc; simpl.
  - rewrite elem_of_nil. tauto.
  - rewrite IH, elem_of_cons. unfold set_add.
    destruct (decide (y ∈ acc)) as [Hy|Hy].
    + split; [tauto|]. intros [?|[->|?]]; tauto.
    + rewrite elem_of_app, list_elem_of_singleton. tauto.
Qed.

Lemma NoDup_foldl_set_add (acc l : list string) :
  NoDup acc → NoDup (foldl set_add acc l).
Proof.
  revert acc. induction l as [|y l IH]; intros acc Hacc; simpl; [done|].
  apply IH. unfold set_add. destruct (decide (y ∈ acc)) as [Hy|Hy]; [done|].
  apply NoDup_app. split_and!; [done| |apply NoDup_singleton].
  intros x Hx ->%list_elem_of_singleton. done.
Qed.

Lemma elem_of_Set_spread (l : list string) (x : string) : x ∈ Set_spread l ↔ x ∈ l.
Proof. unfold Set_spread. rewrite elem_of_foldl_set_add, elem_of_nil. tauto. Qed.

Lemma NoDup_Set_spread (l : list string) : NoDup (Set_spread l).
Proof. apply NoDup_foldl_set_add, NoDup_nil_2. Qed.

Context {V : Type}.
Implicit Types (m : list (string * V)) (k : string) (v : V).

Lemma map_get_set_eq k v m : map_get k (map_set k v m) = Some v.
Proof.
  induction m as [|[k' v'] m IH]; simpl.
  - by destruct (decide (k = k)).
  - destruct (decide (k' = k)) as [->|Hne]; simpl.
    + by destruct (decide (k = k)).
    + by destruct (decide (k' = k)).
Qed.

Lemma map_get_set_ne k k' v m : k ≠ k' → map_get k (map_set k' v m) = map_get k m.
Proof.
  intros Hne. induction m as [|[k0 v0] m IH]; simpl.
  - by destruct (decide (k' = k)).
  - destruct (decide (k0 = k')) as [->|Hne']; simpl.
    + by destruct (decide (k' = k)).
    + by rewrite IH.
Qed.

Lemma map_get_elem k v m : map_get k m = Some v → (k, v) ∈ m.
Proof.
  induction m as [|[k' v'] m IH]; simpl; [done|].
  destruct (decide (k' = k)) as [->|Hne].
  - intros [= ->]. by left.
  - intros H. right. by apply IH.
Qed.

Lemma map_get_None k m : map_get k m = None → k ∉ m.*1.
Proof.
  induction m as [|[k' v'] m IH]; simpl; [intros _; apply not_elem_of_nil|].
  destruct (decide (k' = k)) as [->|Hne]; [done|].
  intros H. apply not_elem_of_cons. split; [done | by apply IH].
Qed.

Lemma map_set_keys k v m :
  (map_set k v m).*1 = if decide (k ∈ m.*1) then m.*1 else m.*1 ++ [k].
Proof.
  induction m as [|[k' v'] m IH]; cbn [map_set].
  - rewrite decide_False by apply not_elem_of_nil. done.
  - rewrite !fmap_cons. cbn [fst]. destruct (decide (k' = k)) as [->|Hne].
    + rewrite fmap_cons. cbn [fst]. rewrite decide_True by left. done.
    + rewrite fmap_cons, IH. cbn [fst]. destruct (decide (k ∈ m.*1)) as [H|H].
      * rewrite decide_True by (by right). done.
      * rewrite decide_False; [done|]. intros [->|?]%elem_of_cons; done.
Qed.

Lemma map_set_NoDup k v m : NoDup m.*1 → NoDup (map_set k v m).*1.
Proof.
  intros Hm. rewrite map_set_keys. destruct (decide (k ∈ m.*1)) as [H|H]; [done|].
  apply NoDup_app. split_and!; [done| |apply NoDup_singleton].
  intros x Hx ->%list_elem_of_singleton. done.
Qed.

Lemma map_set_Forall (P : string * V → Prop) k v m :
  Forall P m → P (k, v) → Forall P (map_set k v m).
Proof.
  intros Hm Hkv. induction Hm as [|[k' v'] m Hx Hm IH]; simpl.
  - by repeat constructor.
  - destruct (decide (k' = k)); constructor; done.
Qed.

End SetAndMap.

(** ** mergeAndDedupe *)

Section MergeAndDedupe.
Import Js KoreanBeautyTracker.
Variable toLowerCase : string → string.

Lemma key_of_merge (existing item : BeautyTrend) : key_of toLowerCase (merge existing item) = key_of toLowerCase existing.
Proof. reflexivity. Qed.

Lemma dedupe_step_get (k : string) (productMap : list (string * BeautyTrend))
    (item : BeautyTrend) :
  map_get k (dedupe_step toLowerCase productMap item)
  = if decide (key_of toLowerCase item = Some k) then absorb (map_get k productMap) item
    else map_get k productMap.
Proof.
  unfold dedupe_step, key_of, absorb. destruct (nameless item).
  - by rewrite decide_False.
  - set (key := toLowerCase _).
    destruct (decide (Some key = Some k)) as [[= ->]|Hne].
    + destruct (map_get k productMap); by rewrite map_get_set_eq.
    + assert (k ≠ key) by congruence.
      destruct (map_get key productMap); by rewrite map_get_set_ne.
Qed.

Lemma dedupe_step_well_keyed (productMap : list (string * BeautyTrend)) (item : BeautyTrend) :
  well_keyed toLowerCase productMap → well_keyed toLowerCase (dedupe_step toLowerCase productMap item).
Proof.
  intros [Hkeys Hall]. unfold dedupe_step.
  destruct (nameless item) eqn:Hname; [done|].
  set (key := toLowerCase _).
  assert (Hitem : key_of toLowerCase item = Some key) by (unfold key_of; by rewrite Hname).
  destruct (map_get key productMap) as [existing|] eqn:Hget.
  - split; [by apply map_set_NoDup|]. apply map_set_Forall; [done|]. simpl.
    rewrite key_of_merge. apply map_get_elem in Hget.
    eapply Forall_forall in Hall; [|done]. done.
  - split; [by apply map_set_NoDup|]. by apply map_set_Forall.
Qed.

Lemma foldl_dedupe_get (k : string) (items : list BeautyTrend)
    (productMap : list (string * BeautyTrend)) :
  map_get k (foldl (dedupe_step toLowerCase) productMap items)
  = foldl absorb (map_get k productMap) (filter (λ it, key_of toLowerCase it = Some k) items).
Proof.
  revert productMap. induction items as [|item items IH]; intros productMap; [done|].
  simpl. rewrite IH, dedupe_step_get, filter_cons.
  by destruct (decide (key_of toLowerCase item = Some k)).
Qed.

Lemma foldl_dedupe_well_keyed (items : list BeautyTrend)
    (productMap : list (string * BeautyTrend)) :
  well_keyed toLowerCase productMap → well_keyed toLowerCase (foldl (dedupe_step toLowerCase) productMap items).
Proof.
  revert productMap. induction items as [|item items IH]; intros productMap ?; [done|].
  simpl. by apply IH, dedupe_step_well_keyed.
Qed.

(** In a well-keyed map the values of signature [k] are the entry of [k]. *)
Lemma well_keyed_values (k : string) (productMap : list (string * BeautyTrend)) :
  well_keyed toLowerCase productMap →
  filter (λ o, key_of toLowerCase o = Some k) (map_values productMap)
  = match map_get k productMap with
    | Some v => [v]
    | None => []
    end.
Proof.
  unfold map_values. intros [Hkeys Hall].
  induction productMap as [|[k' v'] m IH]; [done|].
  rewrite fmap_cons in Hkeys. apply NoDup_cons in Hkeys as [Hk' Hkeys].
  apply Forall_cons in Hall as [Hv' Hall]. simpl in Hk', Hv'.
  rewrite fmap_cons, filter_cons. cbn [snd map_get]. rewrite IH by done.
  destruct (decide (k' = k)) as [->|Hne].
  - rewrite decide_True by done.
    destruct (map_get k m) as [v|] eqn:Hget; [|done].
    apply map_get_elem in Hget. destruct Hk'.
    apply list_elem_of_fmap. by exists (k, v).
  - rewrite decide_False by congruence. done.
Qed.

End MergeAndDedupe.

Section Summaries.
Import Js KoreanBeautyTracker.

Lemma summarises_one (item : BeautyTrend) : summarises item [item].
Proof.
  split_and!.
  - intros p. split; [intros; exists item; split; [by left|done]|].
    by intros (it & ->%list_elem_of_singleton & ?).
  - intros i. split; [intros; exists item; split; [by left|done]|].
    by intros (it & ->%list_elem_of_singleton & ?).
  - done.
Qed.

Lemma summarises_merge (existing item : BeautyTrend) (group : list BeautyTrend) :
  group ≠ [] →
  summarises existing group → summarises (merge existing item) (group ++ [item]).
Proof.
  intros Hgroup (Hp & Hi & Hm). split_and!.
  - intros p. simpl. rewrite elem_of_Set_spread, elem_of_app, Hp. split.
    + intros [(it & ? & ?)|?].
      * exists it. rewrite elem_of_app. tauto.
      * exists item. rewrite elem_of_app, list_elem_of_singleton. tauto.
    + intros (it & [? | ->%list_elem_of_singleton]%elem_of_app & ?); [left|right]; eauto.
  - intros i. simpl. rewrite elem_of_Set_spread, elem_of_app, Hi. split.
    + intros [(it & ? & ?)|?].
      * exists it. rewrite elem_of_app. tauto.
      * exists item. rewrite elem_of_app, list_elem_of_singleton. tauto.
    + intros (it & [? | ->%list_elem_of_singleton]%elem_of_app & ?); [left|right]; eauto.
  - destruct group as [|first rest]; [done|].
    cbn [app total_mentions merge mentions]. rewrite foldl_app. cbn [foldl].
    unfold add_mentions at 1. by rewrite Hm.
Qed.

Lemma merged_shape_merge (existing item : BeautyTrend) : merged_shape (merge existing item).
Proof.
  split_and!; simpl; [eexists; split; [done|apply NoDup_Set_spread]..|done].
Qed.

Lemma foldl_absorb_summarises (rest group : list BeautyTrend) (entry : BeautyTrend) :
  group ≠ [] →
  summarises entry group →
  ∃ out, foldl absorb (Some entry) rest = Some out
         ∧ summarises out (group ++ rest)
         ∧ productName out = productName entry
         ∧ (rest ≠ [] ∨ merged_shape entry → merged_shape out).
Proof.
  revert group entry. induction rest as [|item rest IH]; intros group entry Hgroup Hsum.
  - exists entry. rewrite app_nil_r. split_and!; [done..|]. by intros [?|?].
  - simpl. destruct (IH (group ++ [item]) (merge entry item)) as (out & Hout & Hs & Hn & Hshape).
    { by destruct group. }
    { by apply summarises_merge. }
    exists out. rewrite <- app_assoc in Hs. split_and!; [done..|].
    intros _. apply Hshape. right. apply merged_shape_merge.
Qed.

End Summaries.

Section MergeClaim.
Import Js KoreanBeautyTracker.
Variable toLowerCase : string → string.

(** C4 (amended). In [mergeAndDedupe], whatever the case folding, the
    items that share one non-empty lower-cased name, when there are at
    least two of them, come out as exactly one item: it has the name of
    the first, its platform list and its image list are free of duplicates
    and hold exactly the platforms and the images of the group, and its
    mentions are the sum of theirs as the code adds them: as doubles, in
    the order of the items, a counter or running sum that is missing, 0 or
    [NaN] counting as 0. *)
Theorem mergeAndDedupe_merges_group (items : list BeautyTrend) (k : string)
    (first second : BeautyTrend) (rest : list BeautyTrend) :
  filter (λ it, key_of toLowerCase it = Some k) items = first :: second :: rest →
  ∃ out ps imgs,
    filter (λ o, key_of toLowerCase o = Some k) (mergeAndDedupe toLowerCase items) = [out]
    ∧ productName out = productName first
    ∧ platforms out = Some ps ∧ NoDup ps
    ∧ (∀ p, p ∈ ps ↔ ∃ it, it ∈ first :: second :: rest ∧ p ∈ default [] (platforms it))
    ∧ images out = Some imgs ∧ NoDup imgs
    ∧ (∀ i, i ∈ imgs ↔ ∃ it, it ∈ first :: second :: rest ∧ i ∈ default [] (images it))
    ∧ mentions out = total_mentions (first :: second :: rest)
    ∧ is_Some (mentions out).
Proof.
  intros Hgroup. unfold mergeAndDedupe.
  rewrite well_keyed_values
    by (apply foldl_dedupe_well_keyed; split; [apply NoDup_nil_2 | constructor]).
  rewrite foldl_dedupe_get, Hgroup.
  change (foldl absorb (map_get k []) (first :: second :: rest))
    with (foldl absorb (Some first) (second :: rest)).
  destruct (foldl_absorb_summarises (second :: rest) [first] first ltac:(done)
              (summarises_one first))
    as (out & Hout & (Hp & Hi & Hm) & Hname & Hshape).
  rewrite Hout.
  destruct Hshape as ((ps & Hps & Hnd) & (imgs & Himgs & Hndi) & Hn); [by left|].
  rewrite Hps in Hp. rewrite Himgs in Hi. simpl in Hp, Hi.
  exists out, ps, imgs. by split_and!.
Qed.

End MergeClaim.

(** ** deduplicateResults *)

Section MergeResults.
Import Js ResultProcessor.

Lemma similar_iff_equal (hash existingHash : string) :
  bool_decide (Q2Qc (85 # 100) < calculateSimilarity hash existingHash)%Qc
  = bool_decide (hash = existingHash).
Proof.
  unfold calculateSimilarity. destruct (decide (hash = existingHash)) as [Heq|Hne].
  - by rewrite (bool_decide_eq_true_2 _ Heq).
  - by rewrite (bool_decide_eq_false_2 _ Hne).
Qed.

Lemma find_similar_get (hash : string) (entries : list (string * nat)) :
  find_similar hash entries = map_get hash entries.
Proof.
  induction entries as [|[h e] entries IH]; simpl; [done|].
  rewrite similar_iff_equal, IH.
  destruct (decide (h = hash)) as [->|Hne].
  - by rewrite bool_decide_eq_true_2.
  - by rewrite bool_decide_eq_false_2.
Qed.

Lemma mergeResults_title (existing duplicate : Result) :
  title (mergeResults existing duplicate) = title existing.
Proof. unfold mergeResults. by repeat case_match. Qed.

Lemma mergeResults_images (existing duplicate : Result) (img : string) :
  img ∈ default [] (images (mergeResults existing duplicate))
  ↔ img ∈ default [] (images existing) ∨ img ∈ default [] (images duplicate).
Proof.
  unfold mergeResults.
  destruct (images duplicate) as [imgs|] eqn:Hd; repeat case_match; simpl;
    rewrite ?elem_of_app, ?elem_of_nil; tauto.
Qed.

Lemma mergeResults_sources (existing duplicate : Result) (s : option string) :
  s ∈ default [] (sources (mergeResults existing duplicate))
  ↔ s ∈ default [] (sources existing) ∨ s = source duplicate.
Proof.
  unfold mergeResults.
  destruct (images duplicate) as [imgs|] eqn:Hd; repeat case_match; simpl;
    rewrite ?elem_of_app, ?list_elem_of_singleton; tauto.
Qed.

Lemma mergeResults_mentions (existing duplicate : Result) :
  mentions (mergeResults existing duplicate) = mentions existing.
Proof. unfold mergeResults. by repeat case_match. Qed.

End MergeResults.

Section Deduplicate.
Import Js ResultProcessor.
Variable md5 : string → string.
Variable results : list Result.

Lemma dedup_inv_init : dedup_inv md5 results 0 (mkState results [] []).
Proof.
  split; simpl; try done.
  - intros e He. by apply elem_of_nil in He.
  - intros j item. lia.
  - intros j item Hj. by apply elem_of_nil in Hj.
  - intros j item Hj. exists item. by split_and!.
  - intros j item. lia.
Qed.

Lemma dedup_step_inv (k : nat) (st : State) :
  dedup_inv md5 results k st → (k < length results)%nat → dedup_inv md5 results (S k) (dedup_step md5 st k).
Proof.
  intros [Hlen Hrest Huniq Hmap Hkeys Hfirst Hkept Hcov] Hk.
  destruct (lookup_lt_is_Some_2 results k Hk) as [result Hres].
  unfold dedup_step. rewrite (Hrest k), Hres by lia. rewrite find_similar_get.
  fold (signature md5 result).
  destruct (map_get (signature md5 result) (contentHashes st)) as [e|] eqn:Hget.
  - destruct (Hmap _ _ Hget) as (He & first & Hfirst_e & Hsig).
    pose proof (Huniq e He) as Hek.
    destruct (Hkept e first Hfirst_e) as (existing & Hex & _ & _).
    split; cbn [heap contentHashes unique].
    + by rewrite length_alter.
    + intros j Hj. rewrite list_lookup_alter_ne by lia. apply Hrest. lia.
    + intros e' He'. specialize (Huniq e' He'). lia.
    + done.
    + intros j item Hj Hitem. destruct (decide (j = k)) as [->|Hne].
      * rewrite Hres in Hitem. injection Hitem as <-. by rewrite Hget.
      * apply (Hkeys j); [lia|done].
    + done.
    + intros j item Hitem. destruct (Hkept j item Hitem) as (cur & Hcur & Htitle & Himgs).
      destruct (decide (j = e)) as [->|Hne].
      * exists (mergeResults cur result). rewrite list_lookup_alter_eq, Hcur.
        split_and!; [done|by rewrite mergeResults_title|].
        intros img Himg. apply mergeResults_images. left. by apply Himgs.
      * exists cur. by rewrite list_lookup_alter_ne.
    + intros j item Hj Hitem. destruct (decide (j = k)) as [->|Hne].
      * rewrite Hres in Hitem. injection Hitem as <-. right.
        exists e, first, (mergeResults existing result). cbn [heap contentHashes unique].
        rewrite list_lookup_alter_eq, Hex. split_and!; try done.
        -- intros img Himg. apply mergeResults_images. by right.
        -- apply mergeResults_sources. by right.
      * destruct (Hcov j item) as [?|(e0 & first0 & existing0 & ? & ? & ? & ? & Hex0 & Hi0 & Hs0)];
          [lia|done|by left|]. right.
        destruct (decide (e0 = e)) as [->|Hne0].
        -- exists e, first0, (mergeResults existing0 result). cbn [heap contentHashes unique].
           rewrite list_lookup_alter_eq, Hex0. split_and!; try done.
           ++ intros img Himg. apply mergeResults_images. left. by apply Hi0.
           ++ apply mergeResults_sources. by left.
        -- exists e0, first0, existing0. cbn [heap contentHashes unique].
           rewrite list_lookup_alter_ne by done.
           by split_and!.
  - split; cbn [heap contentHashes unique].
    + done.
    + intros j Hj. apply Hrest. lia.
    + intros e [He| ->%list_elem_of_singleton]%elem_of_app; [|lia].
      specialize (Huniq e He). lia.
    + intros h e. destruct (decide (h = signature md5 result)) as [->|Hne].
      * rewrite map_get_set_eq. intros [= <-]. split.
        -- apply elem_of_app. right. by apply list_elem_of_singleton.
        -- by exists result.
      * rewrite map_get_set_ne by done. intros Hh.
        destruct (Hmap h e Hh) as [? ?]. split; [|done]. apply elem_of_app. by left.
    + intros j item Hj Hitem.
      destruct (decide (signature md5 item = signature md5 result)) as [->|Hne].
      * by rewrite map_get_set_eq.
      * rewrite map_get_set_ne by done. apply (Hkeys j); [|done].
        destruct (decide (j = k)) as [->|?]; [|lia]. congruence.
    + intros j item [Hj| ->%list_elem_of_singleton]%elem_of_app Hitem j' other Hj' Hother.
      * by eapply Hfirst.
      * rewrite Hres in Hitem. injection Hitem as <-. intros Heq.
        destruct (Hkeys j' other Hj' Hother) as [e' He']. congruence.
    + done.
    + intros j item Hj Hitem. destruct (decide (j = k)) as [->|Hne].
      * left. apply elem_of_app. right. by apply list_elem_of_singleton.
      * destruct (Hcov j item) as [?|(e0 & first0 & existing0 & ? & ? & ? & ? & ? & ? & ?)];
          [lia|done| |].
        -- left. apply elem_of_app. by left.
        -- right. exists e0, first0, existing0. cbn [heap contentHashes unique].
           split_and!; try done.
           apply elem_of_app. by left.
Qed.

Lemma dedup_prefix_inv (k : nat) :
  (k ≤ length results)%nat →
  dedup_inv md5 results k (foldl (dedup_step md5) (mkState results [] []) (seq 0 k)).
Proof.
  induction k as [|k IH]; intros Hk; [apply dedup_inv_init|].
  rewrite seq_S, foldl_app. simpl. apply dedup_step_inv; [apply IH|]; lia.
Qed.

Lemma dedup_run_inv : dedup_inv md5 results (length results) (dedup_run md5 results).
Proof. by apply dedup_prefix_inv. Qed.

End Deduplicate.

Section DeduplicationClaim.
Import Js ResultProcessor KoreanBeautyTracker.
Variable toLowerCase : string → string.

Lemma dedupe_step_nameless (productMap : list (string * BeautyTrend)) (item : BeautyTrend) :
  key_of toLowerCase item = None → dedupe_step toLowerCase productMap item = productMap.
Proof. unfold key_of, dedupe_step. by destruct (nameless item). Qed.

Lemma foldl_dedupe_named (items : list BeautyTrend) (productMap : list (string * BeautyTrend)) :
  foldl (dedupe_step toLowerCase) productMap (filter (λ it, key_of toLowerCase it ≠ None) items)
  = foldl (dedupe_step toLowerCase) productMap items.
Proof.
  revert productMap. induction items as [|item items IH]; intros productMap; [done|].
  rewrite filter_cons. destruct (decide (key_of toLowerCase item ≠ None)) as [Hn|Hn]; simpl.
  - apply IH.
  - rewrite IH. rewrite (dedupe_step_nameless productMap item); [done|].
    by destruct (key_of toLowerCase item); [destruct Hn|].
Qed.

(** C1 (amended). [deduplicateResults] never loses an item: the object of
    every input position is in the output itself or went into an earlier
    object of the output with the same md5 of title and content, which then
    holds its images and lists its source; it is in the output itself
    exactly when no earlier item has that md5, a missing title counting as
    the empty string. [mergeAndDedupe] leaves items without a name out, as
    if they were not in the input, and every named item is held by the one
    output item of its lower-cased name, whatever the case folding of
    [toLowerCase]. *)
Theorem deduplication_keeps_or_merges :
  (∀ (md5 : string → string) (results : list Result) (i : nat) (item : Result),
     results !! i = Some item →
     (i ∈ unique (dedup_run md5 results)
      ↔ ∀ j other, (j < i)%nat → results !! j = Some other →
                   signature md5 other ≠ signature md5 item)
     ∧ (i ∈ unique (dedup_run md5 results)
        ∨ merged_into md5 results (dedup_run md5 results) i item)
     ∧ ∃ e out,
         e ∈ unique (dedup_run md5 results) ∧ (e ≤ i)%nat
         ∧ heap (dedup_run md5 results) !! e = Some out
         ∧ out ∈ deduplicateResults md5 results
         ∧ (∀ img, img ∈ default [] (ResultProcessor.images item)
                   → img ∈ default [] (ResultProcessor.images out))
         ∧ (e = i → title out = title item))
  ∧ (∀ (items : list BeautyTrend) (item : BeautyTrend) (k : string),
       item ∈ items → key_of toLowerCase item = Some k →
       ∃ out,
         filter (λ o, key_of toLowerCase o = Some k) (mergeAndDedupe toLowerCase items) = [out]
         ∧ (∀ img, img ∈ default [] (KoreanBeautyTracker.images item)
                   → img ∈ default [] (KoreanBeautyTracker.images out))
         ∧ (∀ p, p ∈ default [] (platforms item) → p ∈ default [] (platforms out)))
  ∧ (∀ items : list BeautyTrend,
       mergeAndDedupe toLowerCase items = mergeAndDedupe toLowerCase (filter (λ it, key_of toLowerCase it ≠ None) items)).
Proof.
  split_and!.
  - intros md5 results i item Hitem.
    pose proof (dedup_run_inv md5 results)
      as [Hlen Hrest Huniq Hmap Hkeys Hfirst Hkept Hcov].
    pose proof (lookup_lt_Some _ _ _ Hitem) as Hi.
    specialize (Hcov i item Hi Hitem).
    split_and!; [|done|].
    + split; [intros Hin; by eapply Hfirst|].
      intros Hnone. destruct Hcov as [?|(e & first & ? & ? & ? & ? & Hsig & ?)]; [done|].
      by destruct (Hnone e first).
    + destruct Hcov as [Hin|(e & first & existing & He & Hlt & _ & _ & Hex & Himgs & _)].
      * destruct (Hkept i item Hitem) as (cur & Hcur & Htitle & Himgs).
        exists i, cur. split_and!; try done.
        apply list_elem_of_omap. by exists i.
      * exists e, existing. split_and!; try done; [lia| |lia].
        apply list_elem_of_omap. by exists e.
  - intros items item k Hin Hkey. unfold mergeAndDedupe.
    rewrite well_keyed_values
      by (apply foldl_dedupe_well_keyed; split; [apply NoDup_nil_2 | constructor]).
    rewrite foldl_dedupe_get.
    assert (Hgroup : item ∈ filter (λ it, key_of toLowerCase it = Some k) items)
      by by apply list_elem_of_filter.
    destruct (filter (λ it, key_of toLowerCase it = Some k) items) as [|first rest];
      [by apply elem_of_nil in Hgroup|].
    change (foldl absorb (map_get k []) (first :: rest))
      with (foldl absorb (Some first) rest).
    destruct (foldl_absorb_summarises rest [first] first ltac:(done) (summarises_one first))
      as (out & -> & (Hp & Hi & _) & _ & _).
    exists out. split_and!; [done| |].
    + intros img Himg. apply Hi. by exists item.
    + intros p Hpl. apply Hp. by exists item.
  - intros items. unfold mergeAndDedupe. by rewrite foldl_dedupe_named.
Qed.

End DeduplicationClaim.

(** ** The deduplicators at concrete inputs *)

Section DedupPair.
Import Js ResultProcessor KoreanBeautyTracker.

(** Two results of equal title and content are merged whatever the hash. *)
Lemma deduplicateResults_pair (md5 : string → string) (a b : Result) :
  contentToHash a = contentToHash b →
  deduplicateResults md5 [a; b] = [mergeResults a b].
Proof.
  intros Heq.
  assert (H0 : dedup_step md5 (mkState [a; b] [] []) 0
               = mkState [a; b] [(md5 (contentToHash a), 0)] [0]) by reflexivity.
  assert (H1 : dedup_step md5 (mkState [a; b] [(md5 (contentToHash a), 0)] [0]) 1
               = mkState [mergeResults a b; b] [(md5 (contentToHash a), 0)] [0]).
  { unfold dedup_step. simpl. rewrite Heq, similar_iff_equal.
    by rewrite bool_decide_eq_true_2. }
  unfold deduplicateResults, dedup_run. cbn [length seq foldl].
  rewrite H0, H1. reflexivity.
Qed.

End DedupPair.

(** C1 (counterexample). [mergeAndDedupe] removes an item without a name:
    the one input item is gone from the output, whatever the case folding.
    And [deduplicateResults] does not treat results without a title as
    unique: two of them, with different urls, images and sources, come out
    as one, under any hash. *)
Lemma dedup_drops_and_merges_untitled :
  (∀ toLowerCase, KoreanBeautyTracker.mergeAndDedupe toLowerCase [trend_unnamed] = [])
  ∧ ResultProcessor.title untitled_exa = None
  ∧ ResultProcessor.title untitled_jina = None
  ∧ ∀ md5 : string → string,
      ResultProcessor.deduplicateResults md5 [untitled_exa; untitled_jina]
      = [ResultProcessor.mkResult None None (Some "https://one.example")
           (Some ["one.jpg"; "two.jpg"]) None (Some "exa") (Some [Some "jina"])
           None None None None None].
Proof.
  split_and!; [reflexivity..|].
  intros md5. by rewrite deduplicateResults_pair.
Qed.

(** C4 (counterexample). Two results of identical title, content and url
    are merged by [deduplicateResults] into one whose [sources] list holds
    firecrawl alone, not the union with exa, whose mentions are those of the
    first, 3 and not 3 + 4, and whose image list repeats the shared image. *)
Lemma deduplicateResults_no_union_no_sum :
  ResultProcessor.title tool_exa = ResultProcessor.title tool_firecrawl
  ∧ ResultProcessor.url tool_exa = ResultProcessor.url tool_firecrawl
  ∧ ResultProcessor.source tool_exa = Some "exa"
  ∧ ResultProcessor.mentions tool_exa = Some 3%Z
  ∧ ResultProcessor.mentions tool_firecrawl = Some 4%Z
  ∧ ∀ md5 : string → string,
      ResultProcessor.deduplicateResults md5 [tool_exa; tool_firecrawl]
      = [ResultProcessor.mkResult (Some "Tool") (Some "An AI tool")
           (Some "https://tool.example") (Some ["tool.jpg"; "tool.jpg"]) None (Some "exa")
           (Some [Some "firecrawl"]) (Some 3%Z) None None None None].
Proof.
  split_and!; [reflexivity..|].
  intros md5. by rewrite deduplicateResults_pair.
Qed.

(** The theorem on [mergeAndDedupe] at two mentions of one product around
    an unnamed trend, with the case folding of Latin-1 text. *)
Lemma mergeAndDedupe_merges_group_witness :
  ∃ out ps imgs,
    filter (λ o, key_of latin1_toLowerCase o = Some "snail cream")
      (KoreanBeautyTracker.mergeAndDedupe latin1_toLowerCase
         [trend_tiktok; trend_unnamed; trend_instagram])
    = [out]
    ∧ KoreanBeautyTracker.productName out = Some "Snail Cream"
    ∧ KoreanBeautyTracker.platforms out = Some ps ∧ NoDup ps
    ∧ (∀ p, p ∈ ps ↔ ∃ it, it ∈ [trend_tiktok; trend_instagram]
                          ∧ p ∈ default [] (KoreanBeautyTracker.platforms it))
    ∧ KoreanBeautyTracker.images out = Some imgs ∧ NoDup imgs
    ∧ (∀ i, i ∈ imgs ↔ ∃ it, it ∈ [trend_tiktok; trend_instagram]
                           ∧ i ∈ default [] (KoreanBeautyTracker.images it))
    ∧ KoreanBeautyTracker.mentions out = total_mentions [trend_tiktok; trend_instagram]
    ∧ is_Some (KoreanBeautyTracker.mentions out).
Proof.
  apply (mergeAndDedupe_merges_group latin1_toLowerCase
           [trend_tiktok; trend_unnamed; trend_instagram]
           "snail cream" trend_tiktok trend_instagram []).
  reflexivity.
Defined.

(** The merged product of the witness, computed: 1500 mentions and none
    make 1500. *)
Example mergeAndDedupe_snail_cream :
  KoreanBeautyTracker.mergeAndDedupe latin1_toLowerCase
    [trend_tiktok; trend_unnamed; trend_instagram]
  = [KoreanBeautyTracker.mkTrend (Some "Snail Cream")
       (Some ["https://img.example/1.jpg"; "https://img.example/2.jpg"])
       (Some ["TikTok"; "Instagram"]) (Some 1500%float) None None].
Proof. reflexivity. Qed.

(** Names that differ in the case of an accented letter are one product,
    and counters are added as doubles: 9007199254740992 mentions and one
    more are 9007199254740992. *)
Example mergeAndDedupe_creme :
  KoreanBeautyTracker.mergeAndDedupe latin1_toLowerCase [trend_creme_upper; trend_creme_lower]
  = [KoreanBeautyTracker.mkTrend (Some creme_upper) (Some []) (Some ["TikTok"; "Instagram"])
       (Some 9007199254740992%float) None None]
  ∧ latin1_toLowerCase creme_upper = creme_lower
  ∧ creme_upper ≠ creme_lower.
Proof. split_and!; [reflexivity..|done]. Qed.

(** * Further properties of the pipeline *)

(** ** Sorting what is sorted *)

Section SortedAlready.
Import Js.
Context {A : Type} (behind : A → A → bool).

Lemma sort_insert_HdRel (x : A) (l : list A) :
  HdRel (before behind) x l → sort_insert behind x l = x :: l.
Proof. destruct 1 as [|y r Hxy]; simpl; [done|]. unfold before in Hxy. by rewrite Hxy. Qed.

Lemma stable_sort_id (l : list A) : Sorted (before behind) l → stable_sort behind l = l.
Proof.
  induction 1 as [|x l Hs IH Hhd]; simpl; [done|].
  rewrite IH. by apply sort_insert_HdRel.
Qed.

Lemma stable_sort_twice (l : list A) :
  (∀ x y, behind x y = true → behind y x = false) →
  stable_sort behind (stable_sort behind l) = stable_sort behind l.
Proof. intros Hasym. by apply stable_sort_id, stable_sort_sorted. Qed.
End SortedAlready.

(** ** The url filter of the router *)

Section UrlFilter.
Import Js ResultProcessor SmartRouter.

Lemma unique_by_url_filter (u : option string) (seen : list (option string))
    (results : list Result) :
  filter (λ r, url r = u) (unique_by_url seen results)
  = if decide (u ∈ seen) then [] else take 1 (filter (λ r, url r = u) results).
Proof.
  revert seen. induction results as [|r rest IH]; intros seen; simpl.
  - by destruct (decide (u ∈ seen)).
  - rewrite (filter_cons _ r rest).
    destruct (decide (url r ∈ seen)) as [Hseen|Hnew].
    + rewrite IH. destruct (decide (u ∈ seen)) as [|Hu]; [done|].
      destruct (decide (url r = u)) as [<-|]; [done|done].
    + rewrite filter_cons, IH.
      destruct (decide (url r = u)) as [<-|Hne].
      * rewrite decide_True by (by left). by rewrite decide_False.
      * destruct (decide (u ∈ seen)) as [Hu|Hu].
        -- by rewrite decide_True by (by right).
        -- rewrite decide_False; [done|].
           intros [?|?]%elem_of_cons; congruence.
Qed.

Lemma unique_by_url_seen (seen : list (option string)) (results : list Result) :
  NoDup (url <$> unique_by_url seen results)
  ∧ ∀ r, r ∈ unique_by_url seen results → url r ∉ seen.
Proof.
  revert seen. induction results as [|r rest IH]; intros seen; simpl.
  - split; [constructor | by intros ? ?%not_elem_of_nil].
  - destruct (decide (url r ∈ seen)) as [Hseen|Hnew]; [apply IH|].
    destruct (IH (url r :: seen)) as [Hnd Hout]. split.
    + rewrite fmap_cons. constructor; [|done].
      intros (x & Hx & Hin)%list_elem_of_fmap.
      apply (Hout x Hin). rewrite Hx. by left.
    + intros x [->|Hx]%elem_of_cons; [done|].
      intros Hs. apply (Hout x Hx). by right.
Qed.

Lemma unique_by_url_fresh (seen : list (option string)) (results : list Result) :
  NoDup (url <$> results) → (∀ r, r ∈ results → url r ∉ seen) →
  unique_by_url seen results = results.
Proof.
  revert seen. induction results as [|r rest IH]; intros seen Hnd Hnew; simpl; [done|].
  rewrite fmap_cons in Hnd. apply NoDup_cons in Hnd as [Hr Hnd].
  rewrite decide_False by (apply Hnew; by left).
  f_equal. apply IH; [done|].
  intros x Hx [Heq|Hs]%elem_of_cons.
  - apply Hr. rewrite <- Heq. apply list_elem_of_fmap. by exists x.
  - apply (Hnew x); [by right | done].
Qed.

Lemma process_after_asym (x y : Result) :
  after process_cmp x y = true → after process_cmp y x = false.
Proof.
  unfold after, process_cmp.
  destruct (decide (hasMedia x ≠ hasMedia y)), (decide (hasMedia y ≠ hasMedia x));
    try congruence;
    intros H%bool_decide_eq_true; apply bool_decide_eq_false;
    rewrite <- Z2Qc_inj_0, <- Z2Qc_inj_lt in *; lia.
Qed.

Lemma processResults_NoDup (results : list Result) :
  NoDup (url <$> processResults results).
Proof.
  assert (Hperm : processResults results ≡ₚ unique_by_url [] results)
    by apply stable_sort_perm.
  rewrite Hperm. apply unique_by_url_seen.
Qed.

(** X1. Of the results that share a url (a missing url counts as one
    url), [processResults] returns exactly the first in input order: every
    url of the input is still there, once. *)
Theorem processResults_first_of_each_url (results : list Result) :
  (∀ u, filter (λ r, url r = u) (processResults results)
        = take 1 (filter (λ r, url r = u) results))
  ∧ NoDup (url <$> processResults results)
  ∧ (∀ r, r ∈ results → url r ∈ url <$> processResults results).
Proof.
  assert (Hperm : processResults results ≡ₚ unique_by_url [] results)
    by apply stable_sort_perm.
  assert (Hfirst : ∀ u, filter (λ r, url r = u) (processResults results)
                        = take 1 (filter (λ r, url r = u) results)).
  { intros u.
    assert (Hf : filter (λ r, url r = u) (processResults results)
                 ≡ₚ take 1 (filter (λ r, url r = u) results)).
    { rewrite Hperm, unique_by_url_filter. by rewrite decide_False by apply not_elem_of_nil. }
    destruct (filter (λ r, url r = u) results) as [|x rest]; simpl in *.
    - by apply Permutation_nil_r in Hf.
    - rewrite take_0 in *. by apply Permutation_singleton_r in Hf. }
  split_and!; [done|apply processResults_NoDup|].
  intros r Hr.
  assert (Hin : r ∈ filter (λ x, url x = url r) results) by by apply list_elem_of_filter.
  pose proof (Hfirst (url r)) as Hu.
  destruct (filter (λ x, url x = url r) results) as [|x rest];
    [by apply not_elem_of_nil in Hin|].
  simpl in Hu. rewrite take_0 in Hu.
  assert (Hx : x ∈ filter (λ x, url x = url r) (processResults results))
    by (rewrite Hu; by left).
  apply list_elem_of_filter in Hx as [Hxu Hx].
  apply list_elem_of_fmap. by exists x.
Qed.

(** X2. For a fixed value of [Date.now()] and results that all carry a
    date (without one the comparator is inconsistent and the order is left
    to the engine), ranking a ranked list changes nothing; and processing a
    processed list changes nothing, for any input. *)
Theorem ranking_is_idempotent (inconsistent_sort : Z → list Result → list Result)
    (nowTime : Z) (results : list Result) :
  (Forall (λ r, is_Some (getTime r)) results →
   rankResults inconsistent_sort nowTime (rankResults inconsistent_sort nowTime results)
   = rankResults inconsistent_sort nowTime results)
  ∧ processResults (processResults results) = processResults results.
Proof.
  split.
  - intros Hdated. rewrite (rankResults_dated _ nowTime results) by done.
    rewrite rankResults_dated by (by rewrite stable_sort_perm).
    apply stable_sort_twice, rank_after_asym.
  - unfold processResults at 1.
    rewrite unique_by_url_fresh.
    + apply stable_sort_twice, process_after_asym.
    + apply processResults_NoDup.
    + intros r _. apply not_elem_of_nil.
Qed.

End UrlFilter.

(** ** One product per name *)

Section OnePerName.
Import Js KoreanBeautyTracker.
Variable toLowerCase : string → string.

Lemma dedupe_step_keys (productMap : list (string * BeautyTrend)) (item : BeautyTrend) :
  (dedupe_step toLowerCase productMap item).*1
  = match key_of toLowerCase item with
    | Some k => set_add productMap.*1 k
    | None => productMap.*1
    end.
Proof.
  unfold dedupe_step, key_of, set_add. destruct (nameless item); [done|].
  by destruct (map_get _ productMap); rewrite map_set_keys.
Qed.

Lemma foldl_dedupe_keys (items : list BeautyTrend) (productMap : list (string * BeautyTrend)) :
  (foldl (dedupe_step toLowerCase) productMap items).*1 = foldl set_add productMap.*1 (omap (key_of toLowerCase) items).
Proof.
  revert productMap. induction items as [|item items IH]; intros productMap; [done|].
  cbn [foldl omap list_omap]. rewrite IH, dedupe_step_keys.
  by destruct (key_of toLowerCase item).
Qed.

Lemma well_keyed_keys (productMap : list (string * BeautyTrend)) :
  well_keyed toLowerCase productMap → key_of toLowerCase <$> map_values productMap = Some <$> productMap.*1.
Proof.
  intros [_ Hall]. unfold map_values.
  induction Hall as [|[k v] m Hkv _ IH]; [done|].
  rewrite !fmap_cons, IH. simpl in *. by rewrite Hkv.
Qed.

Lemma map_get_fresh {V : Type} (k : string) (m : list (string * V)) :
  k ∉ m.*1 → map_get k m = None.
Proof.
  induction m as [|[k' v] m IH]; [done|]. rewrite fmap_cons. cbn [map_get fst].
  intros Hk. destruct (decide (k' = k)) as [->|]; [destruct Hk; by left|].
  apply IH. intros ?. apply Hk. by right.
Qed.

Lemma map_set_fresh {V : Type} (k : string) (v : V) (m : list (string * V)) :
  k ∉ m.*1 → map_set k v m = m ++ [(k, v)].
Proof.
  induction m as [|[k' v'] m IH]; [done|]. rewrite fmap_cons. cbn [map_set fst].
  intros Hk. destruct (decide (k' = k)) as [->|]; [destruct Hk; by left|].
  rewrite IH; [done|]. intros ?. apply Hk. by right.
Qed.

Lemma foldl_dedupe_values (productMap acc : list (string * BeautyTrend)) :
  well_keyed toLowerCase (acc ++ productMap) →
  foldl (dedupe_step toLowerCase) acc (map_values productMap) = acc ++ productMap.
Proof.
  unfold map_values. revert acc.
  induction productMap as [|[k v] m IH]; intros acc Hwk; [by rewrite app_nil_r|].
  rewrite fmap_cons. cbn [foldl snd].
  destruct Hwk as [Hnd Hall].
  assert (Hkv : key_of toLowerCase v = Some k).
  { apply Forall_app in Hall as [_ Hall]. by inversion Hall. }
  assert (Hk : k ∉ acc.*1).
  { rewrite fmap_app, fmap_cons in Hnd. apply NoDup_app in Hnd as (_ & Hdisj & _).
    intros Hin. apply (Hdisj k Hin). by left. }
  assert (Hstep : dedupe_step toLowerCase acc v = acc ++ [(k, v)]).
  { unfold dedupe_step. unfold key_of in Hkv.
    destruct (nameless v); [done|]. injection Hkv as Hkv. rewrite Hkv.
    rewrite map_get_fresh by done. by apply map_set_fresh. }
  rewrite Hstep, IH; [by rewrite <- app_assoc|].
  rewrite <- app_assoc. by split.
Qed.

(** X3. Whatever the case folding of [toLowerCase], [mergeAndDedupe]
    returns one product for each lower-cased name of the input, in the
    order in which the names first occur; so no two products of the output
    share a lower-cased name, and merging the output once more changes
    nothing. *)
Theorem mergeAndDedupe_one_per_name (items : list BeautyTrend) :
  key_of toLowerCase <$> mergeAndDedupe toLowerCase items = Some <$> Set_spread (omap (key_of toLowerCase) items)
  ∧ NoDup (key_of toLowerCase <$> mergeAndDedupe toLowerCase items)
  ∧ mergeAndDedupe toLowerCase (mergeAndDedupe toLowerCase items) = mergeAndDedupe toLowerCase items.
Proof.
  assert (Hwk : well_keyed toLowerCase (foldl (dedupe_step toLowerCase) [] items)).
  { apply foldl_dedupe_well_keyed. split; constructor. }
  assert (Hkeys : key_of toLowerCase <$> mergeAndDedupe toLowerCase items = Some <$> Set_spread (omap (key_of toLowerCase) items)).
  { unfold mergeAndDedupe. rewrite well_keyed_keys by done.
    by rewrite foldl_dedupe_keys. }
  split_and!; [done| |].
  - rewrite Hkeys. apply (NoDup_fmap_2 Some), NoDup_Set_spread.
  - unfold mergeAndDedupe at 1 2.
    by rewrite (foldl_dedupe_values _ []).
Qed.

End OnePerName.

(** ** The order of the deduplicated results *)

Section DedupOrder.
Import Js ResultProcessor.
Variable md5 : string → string.
Variable results : list Result.

Lemma mergeResults_identity (existing duplicate : Result) :
  same_identity (mergeResults existing duplicate) existing.
Proof.
  unfold mergeResults, same_identity.
  destruct (images duplicate); simpl;
    match goal with |- context [if ?c then _ else _] => by destruct c end.
Qed.

Lemma dedup_step_unique (st : State) (i : nat) :
  unique (dedup_step md5 st i) = unique st ∨ unique (dedup_step md5 st i) = unique st ++ [i].
Proof.
  unfold dedup_step. destruct (heap st !! i); [|by left].
  destruct (find_similar _ _); [by left | by right].
Qed.

Lemma dedup_step_heap (st : State) (i : nat) :
  Forall2 same_identity (heap st) results →
  Forall2 same_identity (heap (dedup_step md5 st i)) results.
Proof.
  intros Hheap. unfold dedup_step. destruct (heap st !! i) as [result|]; [|done].
  destruct (find_similar _ _) as [existing|]; [|done]. cbn [heap].
  apply Forall2_same_length_lookup. apply Forall2_same_length_lookup in Hheap as [Hlen Hheap].
  split; [by rewrite length_alter|].
  intros j cur item Hcur Hitem.
  destruct (decide (existing = j)) as [->|Hne].
  - rewrite list_lookup_alter_eq in Hcur.
    destruct (heap st !! j) as [old|] eqn:Hold; [|done]. injection Hcur as <-.
    destruct (mergeResults_identity old result) as (Ht & Hu & Hs & Hm).
    destruct (Hheap j old item Hold Hitem) as (Ht' & Hu' & Hs' & Hm').
    unfold same_identity. by rewrite Ht, Hu, Hs, Hm.
  - rewrite list_lookup_alter_ne in Hcur by done. by apply (Hheap j).
Qed.

Lemma dedup_prefix_order (k : nat) :
  let st := foldl (dedup_step md5) (mkState results [] []) (seq 0 k) in
  StronglySorted lt (unique st)
  ∧ (∀ e, e ∈ unique st → (e < k)%nat)
  ∧ (length (unique st) ≤ k)%nat
  ∧ Forall2 same_identity (heap st) results.
Proof.
  induction k as [|k IH]; [simpl|cbv zeta in *].
  - split_and!; [constructor|by intros ? ?%not_elem_of_nil|done|].
    apply Forall2_same_length_lookup. split; [done|].
    intros i x y Hx Hy. simpl in Hx. rewrite Hx in Hy. by injection Hy as ->.
  - rewrite seq_S, foldl_app. cbn [foldl plus].
    destruct IH as (Hs & Hlt & Hlen & Hheap).
    set (st := foldl (dedup_step md5) (mkState results [] []) (seq 0 k)) in *.
    split_and!; [| | |by apply dedup_step_heap];
      destruct (dedup_step_unique st k) as [-> | ->].
    + done.
    + apply StronglySorted_app. split_and!; [|done|by repeat constructor].
      intros x y Hx ->%list_elem_of_singleton. by apply Hlt.
    + intros e He. specialize (Hlt e He). lia.
    + intros e [He | ->%list_elem_of_singleton]%elem_of_app; [|lia].
      specialize (Hlt e He). lia.
    + lia.
    + rewrite length_app. simpl. lia.
Qed.

(** X4. [deduplicateResults] keeps the order of the input: the
    positions it keeps ascend, the k-th object returned has the title, url,
    source and mentions of the input at the k-th kept position, and the
    output is never longer than the input. *)
Theorem deduplicateResults_keeps_order :
  StronglySorted lt (unique (dedup_run md5 results))
  ∧ Forall2 (λ out i, ∃ item, results !! i = Some item ∧ same_identity out item)
      (deduplicateResults md5 results) (unique (dedup_run md5 results))
  ∧ (length (deduplicateResults md5 results) ≤ length results)%nat.
Proof.
  destruct (dedup_prefix_order (length results)) as (Hs & Hlt & Hlen & Hheap).
  fold (dedup_run md5 results) in *.
  assert (Hout : Forall2 (λ out i, ∃ item, results !! i = Some item ∧ same_identity out item)
                   (deduplicateResults md5 results) (unique (dedup_run md5 results))).
  { unfold deduplicateResults.
    apply Forall2_same_length_lookup in Hheap as [Hsame Hheap].
    clear Hs Hlen. revert Hlt.
    generalize (unique (dedup_run md5 results)) as es.
    induction es as [|e es IH]; intros Hlt; [constructor|].
    cbn [omap list_omap].
    assert (He : (e < length results)%nat) by (apply Hlt; by left).
    destruct (lookup_lt_is_Some_2 results e He) as [item Hitem].
    destruct (lookup_lt_is_Some_2 (heap (dedup_run md5 results)) e) as [cur Hcur]; [lia|].
    rewrite Hcur. constructor.
    - exists item. split; [done|]. by apply (Hheap e).
    - apply IH. intros x Hx. apply Hlt. by right. }
  split_and!; [done..|].
  apply Forall2_length in Hout. lia.
Qed.

End DedupOrder.

(** ** The public listing *)

Section PublicTrackers.
Import Js Runtime Supabase TrackerEngine.

Lemma order_desc_sorted {A : Type} (key : A → Z) (l : list A) :
  StronglySorted (λ a b, key b ≤ key a)%Z (order_desc key l).
Proof.
  apply Sorted_StronglySorted; [intros a b c; lia|].
  eapply (Sorted_impl_Forall (before (λ a b, bool_decide (key a < key b)%Z)) _ (λ _, True)).
  - intros a b _ _ H%bool_decide_eq_false. lia.
  - by apply Forall_forall.
  - apply stable_sort_sorted. intros a b H%bool_decide_eq_true.
    apply bool_decide_eq_false. lia.
Qed.

(** X5. [getPublicTrackers] never returns a private tracker: what it
    returns are at most 20 rows of the table, all public, newest first;
    a public tracker it leaves out is no newer than any it returns, and
    none is left out when fewer than 20 come back. It makes one request and
    changes no table. *)
Theorem getPublicTrackers_only_public (env : Env) (w : World) :
  match getPublicTrackers env w with
  | (Returned (Success ts), w') =>
      Forall (λ t, t_is_public t = true ∧ t ∈ trackers w) ts
      ∧ (length ts ≤ 20)%nat
      ∧ StronglySorted newest_first ts
      ∧ (∀ t, t ∈ trackers w → t_is_public t = true → t ∉ ts →
              length ts = 20%nat ∧ Forall (λ t', newest_first t' t) ts)
      ∧ w' = tick w
  | (Returned (Failure _), w') => w' = tick w
  | (Threw _, _) => False
  end.
Proof.
  unfold getPublicTrackers, getPublicTrackers_body, try_catch, bind, select_public_trackers,
    request.
  destruct (db_fault env (db_calls w)) as [[e|e]|]; simpl; [done..|].
  set (public := filter (λ t, t_is_public t = true) (trackers w)).
  assert (Hperm : order_desc t_created_at public ≡ₚ public) by apply stable_sort_perm.
  pose proof (order_desc_sorted t_created_at public) as Hsorted.
  rewrite <- (take_drop 20 (order_desc t_created_at public)) in Hsorted.
  apply StronglySorted_app in Hsorted as (Hcross & Htake & _).
  split_and!; [| |done| |done].
  - apply Forall_forall. intros t Ht%subseteq_take.
    rewrite Hperm in Ht. by apply list_elem_of_filter in Ht.
  - rewrite length_take. lia.
  - intros t Ht Hpub Hout.
    assert (Hin : t ∈ take 20 (order_desc t_created_at public)
                      ++ drop 20 (order_desc t_created_at public)).
    { rewrite take_drop, Hperm. by apply list_elem_of_filter. }
    apply elem_of_app in Hin as [Hin|Hin]; [done|]. split.
    + rewrite length_take.
      destruct (decide (length (order_desc t_created_at public) ≤ 20)%nat) as [Hle|]; [|lia].
      rewrite drop_ge in Hin by done. by apply not_elem_of_nil in Hin.
    + apply Forall_forall. intros t' Ht'. by apply Hcross.
Qed.

End PublicTrackers.

(** ** What a run stores *)

Section RunStores.
Import Js Runtime Supabase TrackerEngine.
Local Open Scope js_scope.

Lemma runTracker_body_phases (env : Env) (trackerId : nat) (w : World) :
  runTracker_body env trackerId w = run_phases env trackerId w.
Proof.
  unfold runTracker_body, run_phases, gather, finish. cbv [bind ret throw].
  destruct (select_tracker env trackerId w) as [[[tracker|e]|e] w1]; [|done..].
  destruct (insert_run env trackerId running w1) as [[[run|e]|e] w2]; [|done..].
  destruct (iterate (queries_of tracker) w2) as [[queries|e] w3]; [|done].
  destruct (collect env queries [] w3) as [[results|e] w4]; [|done].
  destruct (enrichResults env results (t_prompt tracker) w4) as [[enriched|e] w5]; [|done].
  destruct (has_length env enriched); [|done].
  destruct (map_results _ enriched w5) as [[rows|e] w6]; [|done].
  by destruct (insert_results env rows w6) as [[reply|e] w7].
Qed.

Lemma select_tracker_world (env : Env) (trackerId : nat) (w : World) :
  (select_tracker env trackerId w).2 = tick w.
Proof.
  unfold select_tracker, request. by destruct (db_fault env (db_calls w)) as [[e|e]|].
Qed.

Lemma insert_run_effect (env : Env) (trackerId : nat) (status : Status) (w : World) :
  match insert_run env trackerId status w with
  | (Returned (DbData run), w') =>
      run = mkRunRow (next_id w) trackerId status None JNull (now w) None
      ∧ tracker_runs w' = tracker_runs w ++ [run]
      ∧ tracker_results w' = tracker_results w
  | (Returned (DbFailed _), w') | (Threw _, w') => tracker_results w' = tracker_results w
  end.
Proof.
  unfold insert_run, request. by destruct (db_fault env (db_calls w)) as [[e|e]|].
Qed.

Lemma result_rows_of_run (created_at : Z) (run_id trackerId : nat) (ps : list ResultInsert) :
  Forall (λ p, ins_run_id p = run_id ∧ ins_tracker_id p = trackerId) ps →
  ∀ id rows, result_rows created_at id ps = Some rows → rows_of_run run_id trackerId rows.
Proof.
  induction 1 as [|p ps [Hrun Htracker] _ IH]; intros id rows; simpl.
  - intros [= <-]. constructor.
  - destruct (result_row created_at id p) as [row|] eqn:Hrow; [|done].
    destruct (result_rows created_at (S id) ps) as [rows'|] eqn:Hrows; [|done].
    intros [= <-]. constructor; [|by eapply IH].
    unfold result_row in Hrow.
    destruct (text (ins_title p)) as [[?|]|], (text (ins_res_description p)),
      (text (ins_url p)), (text_array (ins_images p)), (text (ins_source p)),
      (numeric (ins_score p)); try done.
    by injection Hrow as <-.
Qed.

Lemma to_insert_ids (run_id trackerId : nat) (v : JsVal) (w w' : World) (p : ResultInsert) :
  to_insert run_id trackerId v w = (Returned p, w') →
  ins_run_id p = run_id ∧ ins_tracker_id p = trackerId.
Proof.
  unfold to_insert, bind, read, ret, throw. destruct (nullish v); [done|].
  by intros [= <- _].
Qed.

Lemma map_array_ids (run_id trackerId : nat) (vs : list JsVal) (w w' : World)
    (ps : list ResultInsert) :
  map_array (to_insert run_id trackerId) vs w = (Returned ps, w') →
  Forall (λ p, ins_run_id p = run_id ∧ ins_tracker_id p = trackerId) ps.
Proof.
  revert w w' ps. induction vs as [|v vs IH]; intros w w' ps; simpl.
  - intros [= <- _]. constructor.
  - rewrite bind_eq.
    destruct (to_insert run_id trackerId v w) as [[p|e] w1] eqn:Hp; [|done].
    rewrite bind_eq.
    destruct (map_array (to_insert run_id trackerId) vs w1) as [[ps'|e] w2] eqn:Hps; [|done].
    intros [= <- _]. constructor; [by eapply to_insert_ids | by eapply IH].
Qed.

Lemma results_added_refl (run_id trackerId : nat) (w w' : World) :
  tracker_results w' = tracker_results w → results_added run_id trackerId w w'.
Proof. intros Heq. exists []. split; [by rewrite app_nil_r | constructor]. Qed.

Lemma insert_results_added (env : Env) (run_id trackerId : nat) (ps : list ResultInsert)
    (w : World) :
  Forall (λ p, ins_run_id p = run_id ∧ ins_tracker_id p = trackerId) ps →
  results_added run_id trackerId w (insert_results env ps w).2.
Proof.
  intros Hids. unfold insert_results, request.
  destruct (db_fault env (db_calls w)) as [[e|e]|]; [by apply results_added_refl..|].
  cbn [tick next_id now].
  destruct (result_rows (now w) (next_id w) ps) as [rows|] eqn:Hrows;
    [|by apply results_added_refl].
  exists rows. split; [done|]. by eapply result_rows_of_run.
Qed.

Lemma gather_added (env : Env) (tracker : TrackerRow) (run_id trackerId : nat) (w : World) :
  results_added run_id trackerId w (gather env tracker run_id trackerId w).2.
Proof.
  unfold gather. rewrite bind_eq.
  assert (Hit : (iterate (queries_of tracker) w).2 = w)
    by (unfold iterate; by destruct (queries_of tracker)).
  destruct (iterate (queries_of tracker) w) as [[queries|e] w1];
    simpl in Hit; subst w1; [|by apply results_added_refl].
  rewrite bind_eq, collect_found. rewrite bind_eq.
  destruct (enrichResults_returns env ([] ++ concat (found_by env <$> queries))
              (t_prompt tracker) w) as [enriched ->].
  rewrite bind_eq.
  destruct (has_length env enriched); [|by apply results_added_refl].
  rewrite bind_eq.
  pose proof (map_results_world run_id trackerId enriched w) as Hmap.
  destruct (map_results _ enriched w) as [[rows|e] w1] eqn:Hrows;
    simpl in Hmap; subst w1; [|by apply results_added_refl].
  assert (Hids : Forall (λ p, ins_run_id p = run_id ∧ ins_tracker_id p = trackerId) rows).
  { destruct enriched; try done. by eapply map_array_ids. }
  rewrite bind_eq.
  pose proof (insert_results_added env run_id trackerId rows w Hids) as Hins.
  by destruct (insert_results env rows w) as [[reply|e] w1].
Qed.

Lemma set_completed_ids (id : nat) (at_ : Z) (metadata : JsVal) (r : RunRow) :
  r_id (set_completed id at_ metadata r) = r_id r
  ∧ r_tracker_id (set_completed id at_ metadata r) = r_tracker_id r.
Proof. unfold set_completed. by destruct (decide (r_id r = id)). Qed.

Lemma finish_keeps (env : Env) (run_id trackerId : nat) (enriched : JsVal) (w : World) :
  tracker_results (finish env run_id trackerId enriched w).2 = tracker_results w
  ∧ ∀ rid tid, has_run rid tid w → has_run rid tid (finish env run_id trackerId enriched w).2.
Proof.
  assert (Hmap : ∀ rid tid (runs : list RunRow),
            (∃ run, run ∈ runs ∧ r_id run = rid ∧ r_tracker_id run = tid) →
            ∃ run, run ∈ set_completed run_id (now w)
                           (JObj [("results_count", prop enriched "length")]) <$> runs
                   ∧ r_id run = rid ∧ r_tracker_id run = tid).
  { intros rid tid runs (run & Hin & <- & <-). eexists. split_and!.
    - apply list_elem_of_fmap. by eexists.
    - apply set_completed_ids.
    - apply set_completed_ids. }
  unfold finish, current_time, update_run_completed, update_last_run, request.
  cbv [bind ret]. unfold has_run.
  destruct (db_fault env (db_calls w)) as [[e|e]|]; cbn [tick db_calls now tracker_runs].
  - destruct (db_fault env (S (db_calls w))) as [[e'|e']|]; split; by simpl.
  - split; by simpl.
  - destruct (db_fault env (S (db_calls w))) as [[e'|e']|]; (split; [done|]); simpl; eauto.
Qed.

(** X6. Whatever the environment does, a call of [runTracker] leaves the
    results that were stored before in place and adds only rows that carry
    the identifier of the run this call created and the identifier of the
    tracker it was given; and when it adds rows, the row of that run is in
    the table of runs. *)
Theorem runTracker_results_belong_to_run (env : Env) (trackerId : nat) (w : World) :
  ∃ new,
    tracker_results (runTracker env trackerId w).2 = tracker_results w ++ new
    ∧ rows_of_run (next_id w) trackerId new
    ∧ (new ≠ [] → has_run (next_id w) trackerId (runTracker env trackerId w).2).
Proof.
  assert (Hnone : ∀ w', tracker_results w' = tracker_results w →
            ∃ new, tracker_results w' = tracker_results w ++ new
                   ∧ rows_of_run (next_id w) trackerId new
                   ∧ (new ≠ [] → has_run (next_id w) trackerId w')).
  { intros w' ->. exists []. split_and!; [by rewrite app_nil_r|constructor|done]. }
  assert (Hbody : (runTracker env trackerId w).2 = (run_phases env trackerId w).2).
  { unfold runTracker, try_catch. rewrite runTracker_body_phases.
    by destruct (run_phases env trackerId w) as [[r|e] w']. }
  rewrite Hbody. unfold run_phases. cbv [bind ret throw].
  pose proof (select_tracker_world env trackerId w) as Hsel.
  destruct (select_tracker env trackerId w) as [[[tracker|e]|e] w1];
    simpl in Hsel; subst w1; [|by apply Hnone..].
  pose proof (insert_run_effect env trackerId running (tick w)) as Hrun.
  destruct (insert_run env trackerId running (tick w)) as [[[run|e]|e] w2];
    [|by apply Hnone..].
  destruct Hrun as (Hrow & Hruns & Hresults).
  assert (Hid : r_id run = next_id w) by by rewrite Hrow.
  rewrite Hid.
  assert (Hhas : has_run (next_id w) trackerId w2).
  { exists run. rewrite Hruns, Hrow. split_and!; [|done..].
    apply elem_of_app. right. by left. }
  destruct (gather_added env tracker (next_id w) trackerId w2) as (new & Hnew & Hrows).
  pose proof (gather_same_runs env tracker (next_id w) trackerId w2) as (_ & Hsame & _).
  destruct (gather env tracker (next_id w) trackerId w2) as [[enriched|e] w3];
    simpl in Hnew, Hsame.
  - destruct (finish_keeps env (next_id w) trackerId enriched w3) as [Hkeep Hkeeps].
    exists new. rewrite Hkeep, Hnew, Hresults. split_and!; [done..|].
    intros _. apply Hkeeps.
    destruct Hhas as (r & Hr & ? & ?). exists r. by rewrite Hsame.
  - exists new. cbn [snd]. rewrite Hnew, Hresults. split_and!; [done..|].
    intros _. destruct Hhas as (r & Hr & ? & ?). exists r. by rewrite Hsame.
Qed.

End RunStores.

(** ** Storing what the searches found *)

Section StoreCollected.
Import Js Runtime Supabase TrackerEngine.
Local Open Scope js_scope.

Lemma found_by_from_firecrawl (env : Env) (queries : list JsVal) :
  Forall from_firecrawl (concat (found_by env <$> queries)).
Proof.
  apply Forall_concat, Forall_fmap, Forall_forall. intros q _. unfold compose, found_by.
  destruct (firecrawl_search env q 5) as [[data|]|e]; [|constructor..].
  apply Forall_fmap, Forall_forall. intros item _. by eexists.
Qed.

Lemma result_row_from_firecrawl (created_at : Z) (id run_id trackerId : nat)
    (item : FirecrawlService.SearchItem) :
  ∃ row,
    result_row created_at id
      (mkResultInsert run_id trackerId
         (prop (tracker_result item) "title") (prop (tracker_result item) "description")
         (prop (tracker_result item) "url") (prop (tracker_result item) "images")
         (prop (tracker_result item) "source") (prop (tracker_result item) "score")
         (prop (tracker_result item) "metadata")) = Some row
    ∧ stored_as run_id trackerId (tracker_result item) row.
Proof.
  destruct item as [title url content screenshot score].
  unfold stored_as.
  destruct title as [[|c title]|], url as [url|], content as [content|],
    screenshot as [[|c' shot]|], score as [score|];
    eexists; (split; [reflexivity|]); by split_and!.
Qed.

Lemma has_length_array (env : Env) (items : list JsVal) :
  has_length env (JArr items) = bool_decide (items ≠ []).
Proof.
  unfold has_length. cbn.
  destruct items as [|v vs]; [done|].
  rewrite bool_decide_eq_true_2 by done. apply bool_decide_eq_true.
  rewrite <- Z2Qc_inj_lt. simpl. lia.
Qed.

Lemma store_from_firecrawl (run_id trackerId : nat) (vs : list JsVal) (w : World) :
  Forall from_firecrawl vs →
  ∃ ps, map_array (to_insert run_id trackerId) vs w = (Returned ps, w)
        ∧ ∀ created_at id, ∃ rows,
            result_rows created_at id ps = Some rows
            ∧ Forall2 (stored_as run_id trackerId) vs rows.
Proof.
  induction 1 as [|v vs [item ->] _ (ps & Hps & Hrows)].
  - exists []. split; [done|]. intros. exists []. split; [done|constructor].
  - eexists. split.
    + cbn [map_array]. rewrite bind_eq. unfold to_insert at 1, bind, read, ret.
      cbn [nullish tracker_result]. rewrite Hps. reflexivity.
    + intros created_at id. cbn [result_rows].
      destruct (result_row_from_firecrawl created_at id run_id trackerId item)
        as (row & -> & Hrow).
      destruct (Hrows created_at (S id)) as (rows & -> & Hall).
      exists (row :: rows). split; [done|]. by constructor.
Qed.

(** X7. When the enricher hands back what it was given (as it does when
    the completion fails or answers in prose), a run on a database that
    answers stores one row for each item the searches found, in the order
    found: each row carries the item's title, url and score, the source
    firecrawl, the run's identifier and the tracker's. *)
Theorem runTracker_stores_collected (env : Env) (w : World) (trackerId : nat)
    (t : TrackerRow) (queries : list JsVal) :
  (∀ n, db_fault env n = None) →
  filter (λ t, t_id t = trackerId) (trackers w) = [t] →
  queries_of t = JArr queries →
  (∀ results w0, enrichResults env results (t_prompt t) w0 = (Returned (JArr results), w0)) →
  ∃ rows w',
    runTracker env trackerId w
    = (Returned (Success (mkRunPayload (JArr (concat (found_by env <$> queries)))
                            (next_id w))), w')
    ∧ tracker_results w' = tracker_results w ++ rows
    ∧ Forall2 (stored_as (next_id w) trackerId) (concat (found_by env <$> queries)) rows.
Proof.
  intros healthy Hfound Hq Henrich.
  unfold runTracker, try_catch.
  rewrite (runTracker_body_healthy env w trackerId t) by done.
  unfold gather. rewrite Hq. cbn [iterate].
  rewrite bind_eq. unfold ret at 1. rewrite bind_eq, collect_found. cbn [app].
  rewrite bind_eq, Henrich. rewrite bind_eq.
  rewrite has_length_array.
  destruct (decide (concat (found_by env <$> queries) = [])) as [Hnil|Hsome].
  - rewrite bool_decide_eq_false_2 by (by intros []). unfold ret at 1 2.
    eexists [], _. split; [done|]. cbn. rewrite app_nil_r, Hnil. split; [done|constructor].
  - rewrite bool_decide_eq_true_2 by done. rewrite bind_eq. cbn [map_results].
    destruct (store_from_firecrawl (next_id w) trackerId _ (run_created w trackerId)
                (found_by_from_firecrawl env queries)) as (ps & -> & Hrows).
    rewrite bind_eq. unfold insert_results. rewrite request_healthy by done.
    cbn [tick now next_id run_created].
    destruct (Hrows (now w) (S (next_id w))) as (rows & -> & Hall).
    cbn. eexists rows, _. split; [done|]. by split.
Qed.

End StoreCollected.

(** ** Creation followed by the first run *)

Section CreateAndRun.
Import Js Runtime Supabase TrackerEngine Route.
Local Open Scope js_scope.

Lemma insert_tracker_row (env : Env) (row : TrackerInsert) (w : World) :
  match insert_tracker env row w with
  | (Returned (DbData t), w') =>
      t_id t = next_id w ∧ t_prompt t = ins_prompt row ∧ t_is_public t = ins_is_public row
      ∧ t_config t = ins_config row
      ∧ JStr (t_name t) = ins_name row
      ∧ trackers w' = trackers w ++ [t]
      ∧ tracker_runs w' = tracker_runs w ∧ tracker_results w' = tracker_results w
      ∧ next_id w' = S (next_id w)
  | (Returned (DbFailed _), w') | (Threw _, w') =>
      trackers w' = trackers w
      ∧ tracker_runs w' = tracker_runs w ∧ tracker_results w' = tracker_results w
  end.
Proof.
  unfold insert_tracker, request.
  destruct (db_fault env (db_calls w)) as [[e|e]|]; simpl; [done..|].
  destruct (ins_name row) as [| | | |name| |]; simpl; try done;
    by destruct (text (ins_description row)).
Qed.

Lemma createTracker_effect (env : Env) (config : TrackerConfig) (w : World) :
  match createTracker env config w with
  | (Returned (Success t), w') =>
      t_id t = next_id w ∧ t_prompt t = prompt config ∧ t_is_public t = true
      ∧ trackers w' = trackers w ++ [t]
      ∧ tracker_runs w' = tracker_runs w ∧ tracker_results w' = tracker_results w
      ∧ next_id w' = S (next_id w)
  | (Returned (Failure _), w') =>
      trackers w' = trackers w
      ∧ tracker_runs w' = tracker_runs w ∧ tracker_results w' = tracker_results w
  | (Threw _, _) => False
  end.
Proof.
  unfold createTracker, createTracker_body, try_catch, bind.
  destruct (parsePrompt_world env (prompt config) w) as [parsed ->].
  pose proof (given_or_world env (name config) parsed "name" w) as Hname.
  destruct (given_or _ parsed "name" w) as [[name|e] w1]; simpl in Hname; subst w1; [|done].
  pose proof (given_or_world env (description config) parsed "description" w) as Hdesc.
  destruct (given_or _ parsed "description" w) as [[description|e] w1];
    simpl in Hdesc; subst w1; [|done].
  unfold read at 1 2 3. destruct (nullish parsed); [done|]. unfold ret at 1 2 3.
  match goal with |- context [insert_tracker env ?row w] =>
    pose proof (insert_tracker_row env row w) as Hins;
    destruct (insert_tracker env row w) as [[[t|e]|e] w1]
  end; simpl in *; [|done..].
  destruct Hins as (? & ? & -> & _ & _ & ? & ? & ? & ?).
  by rewrite isPublic_or_true_true.
Qed.

Lemma set_last_run_id (id : nat) (at_ : Z) (t : TrackerRow) :
  t_id (set_last_run id at_ t) = t_id t.
Proof. unfold set_last_run. by destruct (decide (t_id t = id)). Qed.

Lemma filter_fresh_id (id : nat) (ts : list TrackerRow) :
  Forall (λ t, t_id t < id) ts → filter (λ t, t_id t = id) ts = [].
Proof.
  induction 1 as [|t ts Ht _ IH]; [done|].
  rewrite filter_cons, IH. destruct (decide (t_id t = id)); [lia|done].
Qed.

(** X8. With a database that answers and identifiers that are fresh, a
    creation request with a prompt is answered either with status 500, and
    then no tracker and no run has come to exist, or with status 200 and
    the new tracker, public and with the prompt given; in that case exactly
    one run has been recorded for the new tracker, completed when the run
    in the answer is a success and left running when it is a failure. *)
Theorem POST_creates_and_runs (env : Env) (w : World) (body : Body) :
  (∀ n, db_fault env n = None) →
  Forall (λ t, t_id t < next_id w) (trackers w) →
  Forall (λ r, r_id r < next_id w) (tracker_runs w) →
  no_prompt (body_prompt body) = false →
  ∃ resp w',
    POST env (Some body) w = (Returned resp, w')
    ∧ ((∃ error, resp = mkResponse 500 (ErrorBody error)
                 ∧ trackers w' = trackers w ∧ tracker_runs w' = tracker_runs w
                 ∧ tracker_results w' = tracker_results w)
       ∨ (∃ t run r,
            resp = mkResponse 200 (CreatedBody t run)
            ∧ t_id t = next_id w ∧ body_prompt body = Some (t_prompt t)
            ∧ t_is_public t = true
            ∧ t_id <$> trackers w' = (t_id <$> trackers w) ++ [t_id t]
            ∧ tracker_runs w' = tracker_runs w ++ [r]
            ∧ r_id r = S (next_id w) ∧ r_tracker_id r = t_id t
            ∧ r_status r = (if success run then completed else running))).
Proof.
  intros healthy Hts Hruns Hprompt.
  unfold POST, try_catch. rewrite bind_eq. unfold ret at 1. rewrite Hprompt, bind_eq.
  match goal with |- context [createTracker env ?c w] =>
    pose proof (createTracker_effect env c w) as Hcreate;
    destruct (createTracker env c w) as [[[t|error]|e] w1]
  end; [| |done].
  2:{ eexists _, _. split; [done|]. left. by exists error. }
  destruct Hcreate as (Hid & Hp & Hpublic & Htrackers & Hsame_runs & Hsame_results & Hnext).
  simpl in Hp.
  assert (Hfound : filter (λ t', t_id t' = t_id t) (trackers w1) = [t]).
  { rewrite Htrackers, filter_app, Hid, filter_fresh_id by done.
    rewrite filter_cons, filter_nil. by rewrite decide_True. }
  assert (Hfresh : Forall (λ r, r_id r < next_id w1) (tracker_runs w1)).
  { rewrite Hsame_runs, Hnext. eapply Forall_impl; [done|]. simpl. lia. }
  rewrite bind_eq. unfold runTracker, try_catch.
  rewrite (runTracker_body_healthy env w1 (t_id t) t) by done.
  pose proof (gather_same_runs env t (next_id w1) (t_id t) (run_created w1 (t_id t)))
    as Hsame.
  destruct (gather env t (next_id w1) (t_id t) (run_created w1 (t_id t)))
    as [[enriched|e] w2]; simpl in Hsame.
  - eexists _, _. split; [done|]. right.
    eexists t, _, (completed_run w1 (t_id t) enriched).
    split_and!; [done|done| |done| | |by rewrite <- Hnext|done|done].
    + destruct (body_prompt body) as [p|]; [|done]. by rewrite Hp.
    + destruct Hsame as (Hsame & _). cbn [run_finished trackers].
      rewrite Hsame. cbn [run_created trackers]. rewrite Htrackers.
      rewrite <- list_fmap_compose, fmap_app. f_equal.
      * apply list_fmap_ext. intros i x _. apply set_last_run_id.
      * cbn. by rewrite set_last_run_id.
    + rewrite (run_finished_runs w1 w2) by done. by rewrite Hsame_runs.
  - eexists _, _. split; [done|]. right.
    eexists t, _, (new_run w1 (t_id t)). destruct Hsame as (Htr & Hrs & _).
    split_and!; [done|done| |done| | |by rewrite <- Hnext|done|done].
    + destruct (body_prompt body) as [p|]; [|done]. by rewrite Hp.
    + rewrite Htr. cbn [run_created trackers]. by rewrite Htrackers, fmap_app.
    + rewrite Hrs. cbn [run_created tracker_runs]. by rewrite Hsame_runs.
Qed.

End CreateAndRun.

(** ** Edges of the engine *)

Section EngineEdgeFacts.
Import Js Runtime Supabase TrackerEngine.
Local Open Scope js_scope.

(** X9. The enricher sends the first ten results to the completion and,
    when the reply is an object with a truthy [results], returns that value
    as it is: whatever was collected beyond the tenth item is neither sent
    nor returned. *)
Theorem enrichResults_reads_ten (env : Env) (sent rest : list JsVal) (prompt : string)
    (content : option string) (enhanced : JsVal) (w : World) :
  length sent = 10%nat →
  openai_chat env (enrich_instructions prompt) (JSON_stringify env (JArr sent))
  = Returned content →
  JSON_parse env (content_or ("{" +:+ dquote +:+ "results" +:+ dquote +:+ ":[]}") content)
  = Some enhanced →
  nullish enhanced = false →
  truthy (prop enhanced "results") = true →
  enrichResults env (sent ++ rest) prompt w = (Returned (prop enhanced "results"), w).
Proof.
  intros Hlen Hchat Hparse Hobj Hresults.
  unfold enrichResults.
  assert (Htake : take 10 (sent ++ rest) = sent) by (by rewrite <- Hlen, take_app_length).
  destruct (sent ++ rest) as [|r rs] eqn:Hall.
  { destruct sent; [done|]. discriminate Hall. }
  rewrite Htake. unfold try_catch, bind, lift, parse, read, ret.
  rewrite Hchat, Hparse, Hobj. unfold js_or. by rewrite Hresults.
Qed.

Lemma length_slice0 (n : nat) (s : string) : (String.length (slice0 n s) ≤ n)%nat.
Proof.
  unfold slice0. revert s. induction n as [|n IH]; intros [|c s]; simpl; try lia.
  specialize (IH s). lia.
Qed.

Lemma parsePrompt_unparsed (env : Env) (prompt : string) (w : World) :
  unparsed env prompt → parsePrompt env prompt w = (Returned (fallback_parse prompt), w).
Proof.
  unfold parsePrompt, try_catch, bind, lift, parse.
  intros [[e ->] | (text & -> & Htext & Hparse)]; [done|].
  by rewrite content_or_text, Hparse.
Qed.

Lemma given_or_else (given : option string) (parsed : JsVal) (key fallback : string)
    (w : World) :
  prop parsed key = JStr fallback → nullish parsed = false →
  given_or given parsed key w = (Returned (JStr (given_else given fallback)), w).
Proof.
  intros Hprop Hobj. unfold given_or, read, given_else. rewrite Hobj.
  destruct given as [[|c s]|]; simpl; by rewrite ?Hprop.
Qed.

(** X10. When the completion fails or does not answer in JSON, and the
    database answers, [createTracker] still creates the tracker: named as
    given or else by the first 50 characters of the prompt, described as
    given or else by the prompt, with the source web, and with the prompt
    itself as its only query. *)
Theorem createTracker_without_completion (env : Env) (config : TrackerConfig) (w : World) :
  (∀ n, db_fault env n = None) →
  unparsed env (prompt config) →
  ∃ t w',
    createTracker env config w = (Returned (Success t), w')
    ∧ t_name t = given_else (name config) (slice0 50 (prompt config))
    ∧ (t_name t = default "" (name config) ∨ (String.length (t_name t) ≤ 50)%nat)
    ∧ t_description t = Some (given_else (description config) (prompt config))
    ∧ t_sources t = JArr [JStr "web"]
    ∧ queries_of t = JArr [JStr (prompt config)]
    ∧ trackers w' = trackers w ++ [t].
Proof.
  intros healthy Hfail.
  unfold createTracker, createTracker_body, try_catch.
  rewrite bind_eq, parsePrompt_unparsed by done.
  rewrite bind_eq, (given_or_else _ _ _ (slice0 50 (prompt config))) by done.
  rewrite bind_eq, (given_or_else _ _ _ (prompt config)) by done.
  unfold bind, read, ret. cbn [nullish fallback_parse].
  unfold insert_tracker. rewrite request_healthy by done. cbn.
  eexists _, _. split; [done|]. cbn. split_and!; try done.
  unfold given_else. destruct (name config) as [[|c s]|]; simpl.
  - right. apply length_slice0.
  - by left.
  - right. apply length_slice0.
Qed.

(** X11. [searchWithFirecrawl] never throws and touches nothing; it
    returns one object for each document the search found, none when the
    search fails. Every object has a title that is not empty (Untitled
    when the document has none), a description of at most 200 characters,
    at most one image and the source firecrawl, so the table of results
    accepts it. *)
Theorem searchWithFirecrawl_shapes (env : Env) (query : JsVal) (w : World) :
  ∃ found,
    searchWithFirecrawl env query w = (Returned found, w)
    ∧ length found
      = match firecrawl_search env query 5 with
        | Returned (Some data) => length data
        | Returned None | Threw _ => 0%nat
        end
    ∧ Forall firecrawl_shaped found
    ∧ ∀ run_id trackerId created_at id, ∃ ps rows,
        map_array (to_insert run_id trackerId) found w = (Returned ps, w)
        ∧ result_rows created_at id ps = Some rows.
Proof.
  exists (found_by env query). split_and!.
  - apply searchWithFirecrawl_found.
  - unfold found_by. destruct (firecrawl_search env query 5) as [[data|]|e]; [|done..].
    by rewrite !length_fmap.
  - unfold found_by. destruct (firecrawl_search env query 5) as [[data|]|e]; [|constructor..].
    apply Forall_fmap, Forall_fmap, Forall_forall. intros [title url content shot score meta] _.
    unfold compose, firecrawl_shaped, FirecrawlService.search_item. cbn.
    split_and!; [| | |done].
    + destruct title as [[|c s]|]; by eexists.
    + destruct content as [s|]; [right|by left].
      eexists. split; [done|]. apply length_slice0.
    + destruct shot as [[|c s]|]; [by left| |by left].
      right. by eexists.
  - intros run_id trackerId created_at id.
    assert (Hall : Forall from_firecrawl (found_by env query)).
    { pose proof (found_by_from_firecrawl env [query]) as H.
      simpl in H. by rewrite app_nil_r in H. }
    destruct (store_from_firecrawl run_id trackerId _ w Hall) as (ps & Hps & Hrows).
    destruct (Hrows created_at id) as (rows & Hr & _). by exists ps, rows.
Qed.

End EngineEdgeFacts.

(** ** The handlers beside the creation request *)

Section Handlers.
Import Js Runtime Supabase TrackerEngine.

(** X12. The listing request is always answered: with status 200 and
    at most 20 trackers of the table, all of them public, or with status
    500 and an error text when the database request fails. It makes that
    one request and changes no table. *)
Theorem GET_lists_public_trackers (env : Env) (w : World) :
  ∃ resp,
    TrackersRoute.GET env w = (Returned resp, tick w)
    ∧ match TrackersRoute.list_json resp with
      | TrackersRoute.Trackers ts =>
          TrackersRoute.list_status resp = 200%Z
          ∧ db_fault env (db_calls w) = None
          ∧ Forall (λ t, t_is_public t = true ∧ t ∈ trackers w) ts
          ∧ (length ts ≤ 20)%nat
      | TrackersRoute.ListError _ =>
          TrackersRoute.list_status resp = 500%Z
          ∧ db_fault env (db_calls w) ≠ None
      end.
Proof.
  unfold TrackersRoute.GET, getPublicTrackers, getPublicTrackers_body, try_catch, bind,
    select_public_trackers, request.
  destruct (db_fault env (db_calls w)) as [[e|e]|]; simpl; [by eexists..|].
  eexists. split; [done|]. simpl. split_and!; [done..| |].
  - apply Forall_forall. intros t Ht%subseteq_take.
    assert (Hperm : ∀ l : list TrackerRow, order_desc t_created_at l ≡ₚ l)
      by (intros l; apply stable_sort_perm).
    rewrite Hperm in Ht. by apply list_elem_of_filter in Ht.
  - rewrite length_take. lia.
Qed.

(** X18. The test endpoint answers with status 200 and the body ok in
    every environment: a Firecrawl that fails shows as the status Failed,
    not as an error of the endpoint, and without a Firecrawl key no search
    is made. *)
Theorem test_GET_always_ok (env : Env) (process_env : TestRoute.ProcessEnv) (w : World) :
  ∃ firecrawlStatus exa openai,
    TestRoute.GET env process_env w
    = (Returned
         (TestRoute.mkTestResponse 200
            (TestRoute.TestOk (now w)
               (TestRoute.mkServiceReport
                  (TestRoute.has_key (TestRoute.FIRECRAWL_API_KEY process_env))
                  firecrawlStatus)
               exa openai)), w)
    ∧ firecrawlStatus
      = (if TestRoute.has_key (TestRoute.FIRECRAWL_API_KEY process_env)
         then match firecrawl_search env (JStr "test") 1 with
              | Returned _ => "Connected"
              | Threw _ => "Failed"
              end
         else "Not tested").
Proof.
  unfold TestRoute.GET, try_catch, bind, current_time, ret.
  destruct (TestRoute.has_key (TestRoute.FIRECRAWL_API_KEY process_env)).
  - unfold FirecrawlService.search, FirecrawlService.search_body, try_catch, bind, lift, ret.
    destruct (firecrawl_search env (JStr "test") 1) as [data|e]; simpl; by eexists _, _, _.
  - by eexists _, _, _.
Qed.

End Handlers.

(** ** Freshness and media of a card *)

Section CardFacts.
Import Js ResultProcessor SmartRouter Card.

Lemma Qc_div_lt (a b c : Z) :
  (0 < b)%Z → (Qc_of_Z a / Qc_of_Z b < Qc_of_Z c)%Qc ↔ (a < c * b)%Z.
Proof.
  intros Hb.
  assert (HB : (0 < Qc_of_Z b)%Qc) by (by rewrite <- Z2Qc_inj_0, <- Z2Qc_inj_lt).
  assert (Hne : Qc_of_Z b ≠ 0%Qc) by (by apply not_symmetry, Qclt_not_eq).
  assert (Hmul : (Qc_of_Z a / Qc_of_Z b * Qc_of_Z b = Qc_of_Z a)%Qc).
  { by rewrite Qcmult_comm, Qcmult_div_r. }
  rewrite Z2Qc_inj_lt, Z2Qc_inj_mul. split.
  - intros Hlt. rewrite <- Hmul. by apply Qcmult_lt_compat_r.
  - intros Hlt. apply Qcnot_le_lt. intros Hle.
    apply (Qcmult_le_compat_r _ _ (Qc_of_Z b)) in Hle; [|by apply Qclt_le_weak].
    rewrite Hmul in Hle. by apply Qcle_not_lt in Hle.
Qed.

Lemma calculateFreshness_age (nowTime : Z) (r : Result) (t : Z) :
  getTime r = Some t →
  calculateFreshness nowTime r
  = (if bool_decide (nowTime - t < 1 * ms_per_hour) then 10
     else if bool_decide (nowTime - t < 24 * ms_per_hour) then 8
     else if bool_decide (nowTime - t < 72 * ms_per_hour) then 6
     else if bool_decide (nowTime - t < 168 * ms_per_hour) then 4
     else 2)%Z.
Proof.
  intros Ht. unfold calculateFreshness. rewrite Ht.
  assert (Hpos : (0 < ms_per_hour)%Z) by done.
  by rewrite !(bool_decide_ext _ _ (Qc_div_lt _ _ _ Hpos)).
Qed.

(** X13. [calculateFreshness] grades a result by its age in whole
    milliseconds: 10 under one hour, 8 under a day, 6 under three days, 4
    under a week, 2 beyond, and 2 as well for a result without a date. A
    result that is not older than another is never graded lower. *)
Theorem calculateFreshness_steps (nowTime : Z) :
  (∀ r, getTime r = None → calculateFreshness nowTime r = 2%Z)
  ∧ (∀ r t, getTime r = Some t →
       calculateFreshness nowTime r
       = (if bool_decide (nowTime - t < 3600000) then 10
          else if bool_decide (nowTime - t < 86400000) then 8
          else if bool_decide (nowTime - t < 259200000) then 6
          else if bool_decide (nowTime - t < 604800000) then 4
          else 2)%Z)
  ∧ (∀ a b ta tb, getTime a = Some ta → getTime b = Some tb → (ta ≤ tb)%Z →
       (calculateFreshness nowTime a ≤ calculateFreshness nowTime b)%Z)
  ∧ (∀ r, (2 ≤ calculateFreshness nowTime r ≤ 10)%Z).
Proof.
  split_and!.
  - intros r Hr. unfold calculateFreshness. by rewrite Hr.
  - intros r t Ht. by rewrite (calculateFreshness_age _ _ t).
  - intros a b ta tb Ha Hb Hle.
    rewrite (calculateFreshness_age _ _ ta), (calculateFreshness_age _ _ tb) by done.
    unfold ms_per_hour. repeat case_bool_decide; lia.
  - intros r. destruct (getTime r) as [t|] eqn:Ht.
    + rewrite (calculateFreshness_age _ _ t) by done. repeat case_bool_decide; lia.
    + unfold calculateFreshness. rewrite Ht. lia.
Qed.

Lemma collect_media_sorted (r : Result) (imageCaptions : option (list string)) :
  StronglySorted (λ a b, entry_priority a ≤ entry_priority b)%Z
    (collect_media r imageCaptions).
Proof.
  unfold collect_media.
  set (pictures := imap _ (default [] (images r))).
  assert (Hpictures : Forall (λ e, entry_priority e = 2%Z) pictures).
  { apply Forall_lookup. intros i e. unfold pictures. rewrite list_lookup_imap.
    destruct (default [] (images r) !! i); [|done]. by intros [= <-]. }
  assert (Hsorted : StronglySorted (λ a b, entry_priority a ≤ entry_priority b)%Z pictures).
  { induction Hpictures as [|e l He Hl IH]; constructor; [done|].
    eapply Forall_impl; [exact Hl|]. simpl. intros e' He'. lia. }
  destruct (screenshot r) as [[|c shot]|]; [done| |done].
  constructor; [done|].
  eapply Forall_impl; [exact Hpictures|]. simpl. intros e' He'. lia.
Qed.

Lemma length_collect_media (r : Result) (imageCaptions : option (list string)) :
  length (collect_media r imageCaptions) = Z.to_nat (hasMedia r).
Proof.
  unfold collect_media, hasMedia. rewrite length_app, length_imap.
  destruct (screenshot r) as [[|c shot]|]; simpl; lia.
Qed.

Lemma card_media_take (r : Result) (imageCaptions : option (list string)) :
  card_media r imageCaptions = take 4 (collect_media r imageCaptions).
Proof.
  unfold card_media, sort. f_equal. apply stable_sort_id.
  eapply (Sorted_impl_Forall (λ a b, entry_priority a ≤ entry_priority b)%Z _ (λ _, True)).
  - intros a b _ _ Hab. unfold before, after. apply bool_decide_eq_false.
    rewrite <- Z2Qc_inj_0, <- Z2Qc_inj_lt. lia.
  - by apply Forall_forall.
  - apply StronglySorted_Sorted, collect_media_sorted.
Qed.

(** X14. [processMedia] leaves a result with at most four media
    entries: the first four of the screenshot followed by the images in
    their order (sorting by priority changes nothing), so as many as the
    result has media, up to four. The media term of the ranker is thus at
    most 20 after it. *)
Theorem processMedia_at_most_four (r : Result) (imageCaptions : option (list string)) :
  card_media r imageCaptions = take 4 (collect_media r imageCaptions)
  ∧ length (card_media r imageCaptions) = (Z.to_nat (hasMedia r) `min` 4)%nat
  ∧ (∀ shot, screenshot r = Some shot → shot ≠ "" →
       card_media r imageCaptions !! 0%nat = Some (mkMediaEntry "screenshot" shot None 1))
  ∧ ∀ results,
      length (processMedia results) = length results
      ∧ Forall (λ out, ∃ m, media out = Some m ∧ (length m ≤ 4)%nat) (processMedia results).
Proof.
  split_and!.
  - apply card_media_take.
  - rewrite card_media_take, length_take, length_collect_media. lia.
  - intros shot Hshot Hne. rewrite card_media_take. unfold collect_media. rewrite Hshot.
    by destruct shot.
  - intros results. unfold processMedia. split; [by rewrite length_fmap|].
    apply Forall_fmap, Forall_forall. intros [x caps] _. simpl.
    eexists. split; [done|]. rewrite length_fmap, card_media_take, length_take. lia.
Qed.

End CardFacts.

(** ** Crawling a site *)

Section Crawl.
Import Js Runtime FirecrawlCrawl.
Variable client : CrawlClient.

Lemma poll_pending (jobId : JsVal) (k : nat) :
  ∀ n, (∀ i, (i < k)%nat → still_running client jobId (n + i)) →
  ∀ fuel, poll client jobId (k + fuel) n = poll client jobId fuel (n + k).
Proof.
  induction k as [|k IH]; intros n Hpending fuel.
  - by rewrite Nat.add_0_r.
  - cbn [Nat.add poll].
    destruct (Hpending 0%nat) as (result & Hcheck & Hstatus); [lia|].
    rewrite Nat.add_0_r in Hcheck. rewrite Hcheck.
    rewrite bool_decide_eq_false_2 by done.
    rewrite IH; [f_equal; lia|].
    intros i Hi. replace (S n + i)%nat with (n + S i)%nat by lia. apply Hpending. lia.
Qed.

Lemma poll_short (jobId : JsVal) (fuel : nat) :
  ∀ n, (∀ i, (i < fuel)%nat → still_running client jobId (n + i)) →
  poll client jobId fuel n = None.
Proof.
  induction fuel as [|fuel IH]; intros n Hpending; [done|].
  cbn [poll].
  destruct (Hpending 0%nat) as (result & Hcheck & Hstatus); [lia|].
  rewrite Nat.add_0_r in Hcheck. rewrite Hcheck.
  rewrite bool_decide_eq_false_2 by done.
  apply IH. intros i Hi.
  replace (S n + i)%nat with (n + S i)%nat by lia. apply Hpending. lia.
Qed.

(** X15. [crawlSite] checks the job until a check reports completed:
    when the first [k] checks report another status and the next one
    completed, the call returns the pages of that check after [k + 1]
    checks and not before. No other status ends the loop: on a job that is
    never reported completed (one that failed, say) the call is still
    checking after any number of checks. *)
Theorem crawlSite_polls_until_completed (url : string) (maxPages : Z) (job : JsVal) :
  crawlUrl client url maxPages = Returned job →
  nullish job = false →
  (∀ k result,
     (∀ i, (i < k)%nat → still_running client (prop job "jobId") i) →
     checkCrawlStatus client (prop job "jobId") k = Returned result →
     crawl_status result = Some "completed" →
     ∀ fuel,
       crawlSite client url maxPages fuel
       = if decide (k < fuel)%nat
         then Some (Success match crawl_data result with
                            | Some pages => crawl_page <$> pages
                            | None => []
                            end)
         else None)
  ∧ ((∀ i, still_running client (prop job "jobId") i) →
     ∀ fuel, crawlSite client url maxPages fuel = None).
Proof.
  intros Hjob Hobj. split.
  - intros k result Hpending Hcheck Hdone fuel.
    unfold crawlSite. rewrite Hjob, Hobj.
    destruct (decide (k < fuel)%nat) as [Hlt|Hge].
    + replace fuel with (k + S (fuel - S k))%nat by lia.
      rewrite poll_pending by done.
      cbn [poll Nat.add]. rewrite Hcheck, bool_decide_eq_true_2 by done. done.
    + rewrite poll_short; [done|]. intros i Hi. apply Hpending. lia.
  - intros Hpending fuel. unfold crawlSite. rewrite Hjob, Hobj.
    rewrite poll_short; [done|]. intros i _. apply Hpending.
Qed.

End Crawl.

(** ** Instagram results and the merge *)

Section Instagram.
Import Js Runtime KoreanBeautyTracker KoreanBeautySearch.
Variable toLowerCase : string → string.

Lemma instagram_trend_named (result : ExaResult) :
  key_of toLowerCase (instagram_trend result)
  = Some (toLowerCase (extractProductFromExaResult result)).
Proof.
  unfold key_of, nameless, instagram_trend, extractProductFromExaResult. cbn.
  by destruct (exa_title result) as [[|c s]|].
Qed.

Lemma merged_keys (items : list BeautyTrend) (k : string) :
  Some k ∈ key_of toLowerCase <$> mergeAndDedupe toLowerCase items ↔ Some k ∈ key_of toLowerCase <$> items.
Proof.
  assert (Hwk : well_keyed toLowerCase (foldl (dedupe_step toLowerCase) [] items)).
  { apply foldl_dedupe_well_keyed. split; constructor. }
  unfold mergeAndDedupe. rewrite well_keyed_keys by done.
  rewrite foldl_dedupe_keys. fold (Set_spread (omap (key_of toLowerCase) items)).
  rewrite (list_elem_of_fmap_inj Some), elem_of_Set_spread, list_elem_of_omap.
  rewrite list_elem_of_fmap. split.
  - intros (it & Hit & Hk). by exists it.
  - intros (it & Hk & Hit). by exists it.
Qed.

(** X16. [searchInstagram] never throws and returns no item when the
    search fails. Every item it returns has a name, a result without a
    title being called Unknown Product, one image and the platform
    Instagram; so [mergeAndDedupe] drops none of them: whatever the other
    sources found and whatever the case folding of [toLowerCase], the
    merged list has a product with the lower-cased name of every Instagram
    result. *)
Theorem searchInstagram_names_every_result (exa : Outcome (option (list ExaResult)))
    (w : World) :
  ∃ items,
    searchInstagram exa w = (Returned items, w)
    ∧ items = match exa with
              | Returned (Some found) => instagram_trend <$> found
              | Returned None | Threw _ => []
              end
    ∧ Forall (λ it, is_Some (key_of toLowerCase it)
                    ∧ (∃ img, images it = Some [img])
                    ∧ platforms it = Some ["Instagram"]) items
    ∧ ∀ tiktokData youtubeData it,
        it ∈ items →
        ∃ out, out ∈ mergeAndDedupe toLowerCase (tiktokData ++ items ++ youtubeData)
               ∧ key_of toLowerCase out = key_of toLowerCase it.
Proof.
  set (items := match exa with
                | Returned (Some found) => instagram_trend <$> found
                | Returned None | Threw _ => []
                end).
  exists items. split_and!.
  - unfold searchInstagram, try_catch, bind, lift, ret, throw.
    by destruct exa as [[found|]|e].
  - done.
  - unfold items. destruct exa as [[found|]|e]; [|constructor..].
    apply Forall_fmap, Forall_forall. intros result _. unfold compose.
    rewrite instagram_trend_named. split_and!; [done| |done]. by eexists.
  - intros tiktokData youtubeData it Hit.
    assert (Hnamed : ∃ k, key_of toLowerCase it = Some k).
    { unfold items in Hit.
      destruct exa as [[found|]|e]; try by apply not_elem_of_nil in Hit.
      apply list_elem_of_fmap in Hit as (result & -> & _).
      rewrite instagram_trend_named. by eexists. }
    destruct Hnamed as [k Hk].
    assert (Hin : Some k ∈ key_of toLowerCase <$> mergeAndDedupe toLowerCase (tiktokData ++ items ++ youtubeData)).
    { apply merged_keys. apply list_elem_of_fmap. exists it. split; [done|].
      apply elem_of_app. right. apply elem_of_app. left. exact Hit. }
    apply list_elem_of_fmap in Hin as (out & Hout & Hmem).
    exists out. split; [exact Hmem|]. by rewrite Hk.
Qed.

End Instagram.

(** ** The configuration builder *)

Section Builder.
Import Js Runtime NaturalLanguageBuilder.
Local Open Scope js_scope.

Lemma truthy_js_or (a b : JsVal) : truthy b = true → truthy (js_or a b) = true.
Proof. unfold js_or. by destruct (truthy a) eqn:Ha. Qed.

Lemma truthy_ten : truthy (JNum (Qc_of_Z 10)) = true.
Proof.
  cbn. apply negb_true_iff, bool_decide_eq_false. by intros ?%Z2Qc_inj.
Qed.

Lemma enhance_source_spec (source : JsVal) (w : World) :
  match enhance_source source w with
  | (Returned out, w') => w' = w ∧ nullish source = false ∧ enhanced_as source out
  | (Threw _, w') => w' = w ∧ nullish source = true
  end.
Proof.
  unfold enhance_source, bind, read, enhanced_as.
  destruct (nullish source); [done|]. cbn [ret].
  destruct (is_string "firecrawl" (prop source "type")).
  { do 2 (split; [done|]). cbn. split_and!; [done..| |];
      apply truthy_js_or; [done | apply truthy_ten]. }
  destruct (is_string "exa" (prop source "type")); [|done].
  do 2 (split; [done|]). cbn. split_and!; [done..| |];
    apply truthy_js_or; [done | apply truthy_ten].
Qed.

Lemma map_array_enhance (items : list JsVal) (w : World) :
  match TrackerEngine.map_array enhance_source items w with
  | (Returned outs, w') =>
      w' = w ∧ Forall (λ s, nullish s = false) items ∧ Forall2 enhanced_as items outs
  | (Threw _, w') => w' = w ∧ Exists (λ s, nullish s = true) items
  end.
Proof.
  induction items as [|source items IH]; cbn [TrackerEngine.map_array].
  - split_and!; [done|constructor..].
  - rewrite bind_eq. pose proof (enhance_source_spec source w) as Hsource.
    destruct (enhance_source source w) as [[out|e] w1].
    + destruct Hsource as (-> & Hobj & Hsource). rewrite bind_eq.
      destruct (TrackerEngine.map_array enhance_source items w) as [[outs|e] w1].
      * destruct IH as (-> & Hall & IH). split_and!; [done|by constructor..].
      * destruct IH as [-> IH]. split; [done|]. by apply Exists_cons_tl.
    + destruct Hsource as [-> Hsource]. split; [done|]. by apply Exists_cons_hd.
Qed.

(** X17. [validateAndEnhance] throws exactly when the configuration is
    null or undefined, or its [sources] is a truthy value that is not an
    array or an array that holds a null. Otherwise the configuration it
    returns has a name and a schedule that are not empty (My Tracker and
    daily at nine by default), a description that is truthy or the empty
    text, and one source for each source given, enhanced by its type. *)
Theorem validateAndEnhance_defaults (config : JsVal) (w : World) :
  match validateAndEnhance config w with
  | (Returned enhanced, w') =>
      w' = w
      ∧ nullish config = false
      ∧ (truthy (prop config "sources") = true →
         ∃ items, prop config "sources" = JArr items
                  ∧ Forall (λ s, nullish s = false) items)
      ∧ name enhanced = js_or (prop config "name") (JStr "My Tracker")
      ∧ truthy (name enhanced) = true
      ∧ truthy (schedule enhanced) = true
      ∧ (truthy (description enhanced) = true ∨ description enhanced = JStr "")
      ∧ Forall2 enhanced_as (given_sources config) (sources enhanced)
  | (Threw _, w') =>
      w' = w
      ∧ (nullish config = true
         ∨ (truthy (prop config "sources") = true
            ∧ ∀ items, prop config "sources" = JArr items →
                       Exists (λ s, nullish s = true) items))
  end.
Proof.
  unfold validateAndEnhance, bind, read, given_sources.
  destruct (nullish config); [by split; [|left]|]. cbn [ret].
  destruct (truthy (prop config "sources")) eqn:Hsources.
  - destruct (prop config "sources") as [| | | | |items|] eqn:Hprop;
      try (split; [done|]; right; split; [done|]; by intros items' [=]).
    pose proof (map_array_enhance items w) as Hmap.
    destruct (TrackerEngine.map_array enhance_source items w) as [[outs|e] w1].
    + destruct Hmap as (-> & Hall & Hmap).
      split_and!; [done|done| |done| | | |done].
      * intros _. by exists items.
      * by apply truthy_js_or.
      * by apply truthy_js_or.
      * cbn [description]. unfold js_or.
        destruct (truthy (prop config "description")) eqn:Hd; [by left | by right].
    + destruct Hmap as [-> Hmap].
      split; [done|]. right. split; [done|]. by intros items' [= <-].
  - split_and!; [done..| | | |].
    + by apply truthy_js_or.
    + by apply truthy_js_or.
    + cbn [description]. unfold js_or.
      destruct (truthy (prop config "description")) eqn:Hd; [by left | by right].
    + destruct (prop config "sources"); try constructor. done.
Qed.

End Builder.

(** ** The budget plan *)

Section Budget.
Import Js CostOptimizer.





End Budget.

(** ** A tracker that is not there *)

Section UnknownTracker.
Import Js Runtime Supabase TrackerEngine.

Lemma single_not_one {A : Type} (env : Env) (rows : list A) :
  length rows ≠ 1%nat →
  single env rows
  = DbFailed (PostgrestError env "JSON object requested, multiple (or no) rows returned").
Proof. by destruct rows as [|x [|y l]]. Qed.

(** X20. When the table has no tracker of the identifier asked for, or
    more than one, and the lookup itself goes through, [runTracker]
    answers Tracker not found and [getTrackerWithResults] a failure; each
    has made one request and nothing is written: no run comes to exist. *)
Theorem unknown_tracker_changes_nothing (env : Env) (trackerId : nat) (w : World) :
  db_fault env (db_calls w) = None →
  length (filter (λ t, t_id t = trackerId) (trackers w)) ≠ 1%nat →
  runTracker env trackerId w = (Returned (Failure "Tracker not found"), tick w)
  ∧ getTrackerWithResults env trackerId w
    = (Returned
         (Failure
            (message_or "Failed to get tracker"
               (PostgrestError env "JSON object requested, multiple (or no) rows returned"))),
       tick w).
Proof.
  intros Hdb Hnone. split.
  - unfold runTracker, runTracker_body, try_catch. rewrite bind_eq.
    unfold select_tracker, request. rewrite Hdb. cbn [tick trackers].
    by rewrite single_not_one.
  - unfold getTrackerWithResults, getTrackerWithResults_body, try_catch. rewrite bind_eq.
    unfold select_tracker, request. rewrite Hdb. cbn [tick trackers].
    by rewrite single_not_one.
Qed.

End UnknownTracker.

(** ** Counting the sources *)

Section CountSourcesFacts.
Import Js UnifiedTracker.
Context {Card : Type} (source : Card → option string).

Lemma elem_of_source_set (results : list Card) (s : option string) :
  s ∈ source_set source results ↔ s ∈ source <$> results.
Proof.
  unfold source_set.
  assert (Hgen : ∀ l acc, s ∈ foldl (λ acc s, if decide (s ∈ acc) then acc else acc ++ [s]) acc l
                          ↔ s ∈ acc ∨ s ∈ l).
  { induction l as [|x l IH]; intros acc; cbn [foldl].
    - rewrite elem_of_nil. tauto.
    - rewrite IH, elem_of_cons. destruct (decide (x ∈ acc)) as [Hx|Hx].
      + split; [tauto|]. intros [?|[->|?]]; tauto.
      + rewrite elem_of_app, list_elem_of_singleton. tauto. }
  rewrite Hgen, elem_of_nil. tauto.
Qed.

Lemma NoDup_source_set (results : list Card) : NoDup (source_set source results).
Proof.
  unfold source_set.
  assert (Hgen : ∀ (l acc : list (option string)), NoDup acc →
            NoDup (foldl (λ acc s, if decide (s ∈ acc) then acc else acc ++ [s]) acc l)).
  { induction l as [|x l IH]; intros acc Hacc; cbn [foldl]; [done|].
    apply IH. destruct (decide (x ∈ acc)) as [Hx|Hx]; [done|].
    apply NoDup_app. split_and!; [done| |apply NoDup_singleton].
    by intros y Hy ->%list_elem_of_singleton. }
  apply Hgen. constructor.
Qed.

Lemma foldl_map_set_fresh {V : Type} (key : option string → string) (f : option string → V)
    (D : list (option string)) (acc : list (string * V)) :
  NoDup (acc.*1 ++ (key <$> D)) →
  foldl (λ obj s, map_set (key s) (f s) obj) acc D = acc ++ ((λ s, (key s, f s)) <$> D).
Proof.
  revert acc. induction D as [|d D IH]; intros acc Hnd; cbn [foldl].
  - by rewrite app_nil_r.
  - rewrite fmap_cons in Hnd.
    assert (Hd : key d ∉ acc.*1).
    { apply NoDup_app in Hnd as (_ & Hdisj & _). intros Hin. apply (Hdisj _ Hin). by left. }
    rewrite map_set_fresh by done.
    rewrite IH; [by rewrite <- app_assoc|].
    rewrite fmap_app. cbn. by rewrite <- app_assoc.
Qed.

Lemma map_get_fmap_key {V : Type} (key : option string → string) (f : option string → V)
    (D : list (option string)) (s : option string) :
  (∀ x y, x ∈ D → y ∈ D → key x = key y → x = y) → s ∈ D →
  map_get (key s) ((λ s, (key s, f s)) <$> D) = Some (f s).
Proof.
  induction D as [|d D IH]; intros Hinj Hs; [by apply not_elem_of_nil in Hs|].
  rewrite fmap_cons. cbn [map_get].
  destruct (decide (key d = key s)) as [Heq|Hne].
  - f_equal. f_equal. apply Hinj; [by left|done|done].
  - apply IH.
    + intros x y Hx Hy. apply Hinj; by right.
    + apply elem_of_cons in Hs as [->|Hs]; [done|done].
Qed.

Lemma sum_indicator (D : list (option string)) (x : option string) :
  NoDup D → x ∈ D →
  foldr Nat.add 0%nat ((λ d, if decide (x = d) then 1%nat else 0%nat) <$> D) = 1%nat.
Proof.
  induction 1 as [|d D Hd Hnd IH]; intros Hx; [by apply not_elem_of_nil in Hx|].
  rewrite fmap_cons. cbn [foldr].
  destruct (decide (x = d)) as [->|Hne].
  - assert (Hzero : foldr Nat.add 0%nat
                      ((λ d', if decide (d = d') then 1%nat else 0%nat) <$> D) = 0%nat).
    { clear IH Hx Hnd. induction D as [|y D IH]; [done|].
      rewrite fmap_cons. cbn [foldr].
      rewrite decide_False by (intros ->; apply Hd; by left).
      rewrite IH; [done|]. intros ?. apply Hd. by right. }
    by rewrite Hzero.
  - apply elem_of_cons in Hx as [->|Hx]; [done|]. by rewrite IH.
Qed.

Lemma sum_counts (D : list (option string)) (results : list Card) :
  NoDup D → (∀ r, r ∈ results → source r ∈ D) →
  foldr Nat.add 0%nat ((λ d, length (filter (λ r, source r = d) results)) <$> D)
  = length results.
Proof.
  intros Hnd. induction results as [|r results IH]; intros Hall.
  - clear Hnd Hall. induction D as [|d D IHD]; [done|].
    rewrite fmap_cons. cbn [foldr]. by rewrite IHD.
  - assert (Hsplit : ∀ E : list (option string),
              foldr Nat.add 0%nat
                ((λ d, length (filter (λ r', source r' = d) (r :: results))) <$> E)
              = (foldr Nat.add 0%nat
                   ((λ d, if decide (source r = d) then 1%nat else 0%nat) <$> E)
                 + foldr Nat.add 0%nat
                     ((λ d, length (filter (λ r', source r' = d) results)) <$> E))%nat).
    { induction E as [|d E IHE]; [done|]. rewrite !fmap_cons. cbn [foldr].
      rewrite IHE, filter_cons. destruct (decide (source r = d)); simpl; lia. }
    rewrite Hsplit, sum_indicator, IH; [done| |done|].
    + intros r' Hr'. apply Hall. by right.
    + apply Hall. by left.
Qed.

(** X21. Unless results without a source stand beside results whose
    source is the text undefined, the object of [countSources] gives for
    the source of every result the number of results of that source, has
    no other property, and its counts add up to the number of results. *)
Theorem countSources_adds_up (results : list Card) :
  ¬ (None ∈ source <$> results ∧ Some "undefined" ∈ source <$> results) →
  (∀ r, r ∈ results →
     map_get (source_key (source r)) (countSources source results)
     = Some (length (filter (λ r', source r' = source r) results)))
  ∧ (∀ k, k ∈ (countSources source results).*1 →
          ∃ r, r ∈ results ∧ source_key (source r) = k)
  ∧ total (countSources source results) = length results.
Proof.
  intros Hclash.
  assert (Hinj : ∀ x y, x ∈ source_set source results → y ∈ source_set source results →
                        source_key x = source_key y → x = y).
  { intros x y Hx%elem_of_source_set Hy%elem_of_source_set.
    destruct x as [a|], y as [b|]; simpl; intros Heq; subst; try done;
      destruct Hclash; by split. }
  assert (Hobj : countSources source results
                 = (λ s, (source_key s, length (filter (λ r, source r = s) results)))
                   <$> source_set source results).
  { unfold countSources.
    rewrite (foldl_map_set_fresh source_key
               (λ s, length (filter (λ r, source r = s) results))); [done|].
    cbn. apply NoDup_fmap_2_strong; [done | apply NoDup_source_set]. }
  split_and!.
  - intros r Hr. rewrite Hobj.
    apply (map_get_fmap_key source_key
             (λ s, length (filter (λ r', source r' = s) results))); [done|].
    apply elem_of_source_set, list_elem_of_fmap. by exists r.
  - intros k. rewrite Hobj, <- list_fmap_compose.
    intros (s & -> & Hs%elem_of_source_set)%list_elem_of_fmap.
    apply list_elem_of_fmap in Hs as (r & -> & Hr). by exists r.
  - unfold total. rewrite Hobj, <- list_fmap_compose.
    apply sum_counts; [apply NoDup_source_set|].
    intros r Hr. apply elem_of_source_set, list_elem_of_fmap. by exists r.
Qed.

End CountSourcesFacts.

(** ** Database errors after the lookup *)

Section IgnoredErrors.
Import Js Runtime Supabase TrackerEngine.
Local Open Scope js_scope.

(** X22. [getTrackerWithResults] does not look at the errors of its
    second and third request: when the tracker is found and the database
    then reports an error on reading the runs, the answer is a success
    without a run and without results; when it reports the error on reading
    the results, a success with the run and without results. *)
Theorem getTrackerWithResults_hides_read_errors (env : Env) (w : World) (trackerId : nat)
    (t : TrackerRow) :
  db_fault env (db_calls w) = None →
  filter (λ t, t_id t = trackerId) (trackers w) = [t] →
  (∀ e, db_fault env (S (db_calls w)) = Some (DbError e) →
     getTrackerWithResults env trackerId w
     = (Returned (Success (mkTrackerView t None [])), tick (tick w)))
  ∧ (∀ run e,
       db_fault env (S (db_calls w)) = None →
       latest_run_of trackerId (tracker_runs w) = [run] →
       db_fault env (S (S (db_calls w))) = Some (DbError e) →
       getTrackerWithResults env trackerId w
       = (Returned (Success (mkTrackerView t (Some run) [])), tick (tick (tick w)))).
Proof.
  intros Hdb Hfound.
  assert (Hselect : select_tracker env trackerId w = (Returned (DbData t), tick w)).
  { unfold select_tracker. rewrite request_ok by done. cbn. by rewrite Hfound. }
  split.
  - intros e Hruns.
    unfold getTrackerWithResults, getTrackerWithResults_body, try_catch.
    rewrite bind_eq, Hselect. rewrite bind_eq. unfold ret at 1. rewrite bind_eq.
    unfold select_latest_run. by rewrite (request_error _ _ _ e).
  - intros run e Hruns Hlatest Hresults.
    unfold getTrackerWithResults, getTrackerWithResults_body, try_catch.
    rewrite bind_eq, Hselect. rewrite bind_eq. unfold ret at 1. rewrite bind_eq.
    unfold select_latest_run. rewrite request_ok by done. cbn [fst snd tick tracker_runs].
    rewrite Hlatest. cbn [single]. rewrite bind_eq.
    unfold select_results. by rewrite (request_error _ _ _ e).
Qed.

Lemma finish_reported (env : Env) (run_id trackerId : nat) (enriched : JsVal) (w : World) :
  (∀ n e, db_fault env n ≠ Some (DbReject e)) →
  ∃ w', finish env run_id trackerId enriched w
        = (Returned (Success (mkRunPayload enriched run_id)), w')
        ∧ tracker_results w' = tracker_results w
        ∧ ∀ e, db_fault env (db_calls w) = Some (DbError e) →
               tracker_runs w' = tracker_runs w.
Proof.
  intros Hreject.
  unfold finish, current_time, update_run_completed, update_last_run, request.
  cbv [bind ret].
  destruct (db_fault env (db_calls w)) as [[e|e]|] eqn:Hfirst;
    [|by destruct (Hreject _ _ Hfirst)|]; cbn [tick db_calls now];
    (destruct (db_fault env (S (db_calls w))) as [[e'|e']|] eqn:Hsecond;
       [|by destruct (Hreject _ _ Hsecond)|]); eexists; split_and!; try done.
Qed.

Lemma gather_reported (env : Env) (t : TrackerRow) (run_id trackerId : nat)
    (queries : list JsVal) (w : World) :
  (∀ n e, db_fault env n ≠ Some (DbReject e)) →
  queries_of t = JArr queries →
  (∀ results w0, enrichResults env results (t_prompt t) w0 = (Returned (JArr results), w0)) →
  concat (found_by env <$> queries) ≠ [] →
  ∃ w', gather env t run_id trackerId w
        = (Returned (JArr (concat (found_by env <$> queries))), w')
        ∧ db_calls w' = S (db_calls w)
        ∧ tracker_runs w' = tracker_runs w
        ∧ ∀ e, db_fault env (db_calls w) = Some (DbError e) →
               tracker_results w' = tracker_results w.
Proof.
  intros Hreject Hq Henrich Hsome.
  unfold gather. rewrite Hq. cbn [iterate].
  rewrite bind_eq. unfold ret at 1. rewrite bind_eq, collect_found. cbn [app].
  rewrite bind_eq, Henrich. rewrite bind_eq.
  rewrite has_length_array, bool_decide_eq_true_2 by done.
  rewrite bind_eq. cbn [map_results].
  destruct (store_from_firecrawl run_id trackerId _ w (found_by_from_firecrawl env queries))
    as (ps & -> & Hrows).
  rewrite bind_eq. unfold insert_results, request.
  destruct (db_fault env (db_calls w)) as [[e|e]|] eqn:Hdb; [|by destruct (Hreject _ _ Hdb)|].
  - eexists. by split_and!.
  - cbn [tick now next_id]. destruct (Hrows (now w) (next_id w)) as (rows & -> & _).
    eexists. by split_and!.
Qed.

(** X23. Once the run row exists, [runTracker] does not look at what the
    database answers: when no request is rejected, the enricher hands back
    what it was given and something was found, the run is reported as a
    success with the items found, also when the database reports an error
    on storing them, in which case no result is stored, or on the update
    of the status, in which case the run is left running. *)
Theorem runTracker_ignores_write_errors (env : Env) (w : World) (trackerId : nat)
    (t : TrackerRow) (queries : list JsVal) :
  db_fault env (db_calls w) = None →
  db_fault env (S (db_calls w)) = None →
  (∀ n e, db_fault env n ≠ Some (DbReject e)) →
  filter (λ t, t_id t = trackerId) (trackers w) = [t] →
  queries_of t = JArr queries →
  (∀ results w0, enrichResults env results (t_prompt t) w0 = (Returned (JArr results), w0)) →
  concat (found_by env <$> queries) ≠ [] →
  ∃ w',
    runTracker env trackerId w
    = (Returned (Success (mkRunPayload (JArr (concat (found_by env <$> queries)))
                            (next_id w))), w')
    ∧ (∀ e, db_fault env (S (S (db_calls w))) = Some (DbError e) →
            tracker_results w' = tracker_results w)
    ∧ (∀ e, db_fault env (S (S (S (db_calls w)))) = Some (DbError e) →
            tracker_runs w' = tracker_runs w ++ [new_run w trackerId]).
Proof.
  intros Hlookup Hcreate Hreject Hfound Hq Henrich Hsome.
  unfold runTracker, try_catch. rewrite runTracker_body_phases. unfold run_phases.
  rewrite bind_eq. unfold select_tracker. rewrite request_ok by done.
  cbn [fst snd tick trackers]. rewrite Hfound. cbn [single].
  rewrite bind_eq. unfold ret at 1. rewrite bind_eq.
  unfold insert_run. rewrite request_ok by done.
  cbn [fst snd tick trackers tracker_runs tracker_results next_id db_calls now].
  rewrite bind_eq. unfold ret at 1. rewrite bind_eq. cbn [r_id].
  match goal with |- context [gather env t (next_id w) trackerId ?w1] =>
    destruct (gather_reported env t (next_id w) trackerId queries w1 Hreject Hq Henrich Hsome)
      as (w2 & -> & Hcalls & Hruns & Hresults)
  end.
  cbn [db_calls tracker_runs tracker_results] in Hcalls, Hruns, Hresults.
  destruct (finish_reported env (next_id w) trackerId
              (JArr (concat (found_by env <$> queries))) w2 Hreject)
    as (w3 & -> & Hkeep & Hstatus).
  exists w3. split_and!; [done| |].
  - intros e He. rewrite Hkeep. by eapply Hresults.
  - intros e He. rewrite Hcalls in Hstatus. rewrite (Hstatus e He), Hruns. done.
Qed.

End IgnoredErrors.

(** ** Merging a duplicate *)

Section MergeDuplicate.
Import Js ResultProcessor.

(** X24. [mergeResults] leaves the existing result with the longer of
    the two contents (its own when they are equally long), with the
    duplicate's images appended to its own, and with the duplicate's source
    appended to its sources; its title, url, source and mentions stay. *)
Theorem mergeResults_keeps_longer_content (existing duplicate : Result) :
  String.length (default "" (content (mergeResults existing duplicate)))
  = (String.length (default "" (content existing))
       `max` String.length (default "" (content duplicate)))%nat
  ∧ ((String.length (default "" (content duplicate))
      ≤ String.length (default "" (content existing)))%nat →
     default "" (content (mergeResults existing duplicate)) = default "" (content existing))
  ∧ default [] (images (mergeResults existing duplicate))
    = default [] (images existing) ++ default [] (images duplicate)
  ∧ sources (mergeResults existing duplicate)
    = Some (default [] (sources existing) ++ [source duplicate])
  ∧ same_identity (mergeResults existing duplicate) existing.
Proof.
  split_and!; [| | | |apply mergeResults_identity];
    unfold mergeResults;
    destruct existing as [t [[|c e]|] u [imgs|] sh s ss m rs md pd ea],
      duplicate as [t' [[|c' d]|] u' [imgs'|] sh' s' ss' m' rs' md' pd' ea'];
    cbn; try done; try lia; rewrite ?app_nil_r; try done;
    try (case_bool_decide; cbn; try done; lia).
Qed.

End MergeDuplicate.

(** ** The cards for display *)

Section DisplayFacts.
Import Js Runtime ResultProcessor Card.
Variable md5 : string → string.
Variable nowTime : Z.

Lemma display_id_spec (result : Ranked) :
  match display_id md5 result with
  | Returned _ => ¬ unidentified result
  | Threw _ => unidentified result
  end.
Proof.
  unfold display_id, unidentified.
  destruct (ranked_id result) as [[|c s]|]; cbn;
    destruct (url (ranked result)); cbn; try (by intros [??]); done.
Qed.

(** X25. [formatForDisplay] returns one card for each result, numbered
    1, 2, ... in the order given, with the title and the url of the result.
    It throws exactly when a result has neither an identifier nor a url,
    and then no card is returned. *)
Theorem formatForDisplay_positions (results : list Ranked) :
  match formatForDisplay md5 nowTime results with
  | Returned cards =>
      position <$> cards = seq 1 (length results)
      ∧ card_title <$> cards = (title ∘ ranked) <$> results
      ∧ card_url <$> cards = (url ∘ ranked) <$> results
      ∧ Forall (λ r, ¬ unidentified r) results
  | Threw _ => Exists unidentified results
  end.
Proof.
  unfold formatForDisplay. generalize 0%nat as index.
  induction results as [|r rest IH]; intros index; cbn [format_from].
  - by split_and!.
  - pose proof (display_id_spec r) as Hid.
    destruct (display_id md5 r) as [id|e]; [|by apply Exists_cons_hd].
    specialize (IH (S index)).
    destruct (format_from md5 nowTime (S index) rest) as [cards|e];
      [|by apply Exists_cons_tl].
    destruct IH as (Hpos & Htitle & Hurl & Hall).
    rewrite !fmap_cons, Hpos, Htitle, Hurl. cbn.
    split_and!; [|done|done|by constructor]. f_equal. lia.
Qed.

End DisplayFacts.

(** ** The further properties at the scenarios *)

(** The theorem on stored rows at [world_fresh], with a completion that
    answers in prose. *)
Lemma runTracker_stores_collected_witness :
  ∃ rows w',
    TrackerEngine.runTracker env_prose 0 world_fresh
    = (Runtime.Returned
         (Runtime.Success
            (TrackerEngine.mkRunPayload
               (Js.JArr (concat (found_by env_prose
                                   <$> [Js.JStr "AI tools Product Hunt";
                                        Js.JStr "new AI launches"])))
               (Runtime.next_id world_fresh))), w')
    ∧ Runtime.tracker_results w' = Runtime.tracker_results world_fresh ++ rows
    ∧ Forall2 (stored_as (Runtime.next_id world_fresh) 0)
        (concat (found_by env_prose
                   <$> [Js.JStr "AI tools Product Hunt"; Js.JStr "new AI launches"])) rows.
Proof.
  apply (runTracker_stores_collected env_prose world_fresh 0 tracker_ai
           [Js.JStr "AI tools Product Hunt"; Js.JStr "new AI launches"]).
  - intros n. reflexivity.
  - reflexivity.
  - reflexivity.
  - intros [|r rs] w0; reflexivity.
Defined.

(** The theorem on creation requests at [world_fresh]. *)
Lemma POST_creates_and_runs_witness :
  ∃ resp w',
    Route.POST env_prose (Some body_ai) world_fresh = (Runtime.Returned resp, w')
    ∧ ((∃ error, resp = Route.mkResponse 500 (Route.ErrorBody error)
                 ∧ Runtime.trackers w' = Runtime.trackers world_fresh
                 ∧ Runtime.tracker_runs w' = Runtime.tracker_runs world_fresh
                 ∧ Runtime.tracker_results w' = Runtime.tracker_results world_fresh)
       ∨ (∃ t run r,
            resp = Route.mkResponse 200 (Route.CreatedBody t run)
            ∧ Runtime.t_id t = Runtime.next_id world_fresh
            ∧ Route.body_prompt body_ai = Some (Runtime.t_prompt t)
            ∧ Runtime.t_is_public t = true
            ∧ Runtime.t_id <$> Runtime.trackers w'
              = (Runtime.t_id <$> Runtime.trackers world_fresh) ++ [Runtime.t_id t]
            ∧ Runtime.tracker_runs w' = Runtime.tracker_runs world_fresh ++ [r]
            ∧ Runtime.r_id r = S (Runtime.next_id world_fresh)
            ∧ Runtime.r_tracker_id r = Runtime.t_id t
            ∧ Runtime.r_status r
              = (if Runtime.success run then Runtime.completed else Runtime.running))).
Proof.
  apply (POST_creates_and_runs env_prose world_fresh body_ai).
  - intros n. reflexivity.
  - repeat constructor.
  - constructor.
  - reflexivity.
Defined.

(** The theorem on the enricher at eleven items, with a completion that
    answers [{ results: [null] }]: the one value of the reply comes back. *)
Lemma enrichResults_reads_ten_witness :
  TrackerEngine.enrichResults env_null_item eleven_items "Track AI tools" world_fresh
  = (Runtime.Returned (Js.JArr [Js.JNull]), world_fresh).
Proof.
  apply (enrichResults_reads_ten env_null_item
           (replicate 10 (Js.JStr "one of the first ten")) [Js.JStr "the eleventh"]
           "Track AI tools" (Some null_item_text)
           (Js.JObj [("results", Js.JArr [Js.JNull])]) world_fresh).
  - reflexivity.
  - reflexivity.
  - vm_compute. reflexivity.
  - reflexivity.
  - reflexivity.
Defined.

(** The theorem on creation without a parsed prompt at [world_fresh]. *)
Lemma createTracker_without_completion_witness :
  ∃ t w',
    TrackerEngine.createTracker env_prose config_ai world_fresh
    = (Runtime.Returned (Runtime.Success t), w')
    ∧ Runtime.t_name t = "Track AI tools on Product Hunt"
    ∧ Runtime.t_description t = Some "Track AI tools on Product Hunt"
    ∧ TrackerEngine.queries_of t = Js.JArr [Js.JStr "Track AI tools on Product Hunt"].
Proof.
  destruct (createTracker_without_completion env_prose config_ai world_fresh)
    as (t & w' & Hcreate & Hname & _ & Hdescription & _ & Hqueries & _).
  - intros n. reflexivity.
  - right. exists "Sorry, here are my thoughts.".
    split_and!; [reflexivity | discriminate | vm_compute; reflexivity].
  - exists t, w'. split_and!; [exact Hcreate | exact Hname | exact Hdescription | exact Hqueries].
Defined.

(** The theorem on crawls at a job completed on the third check, and at a
    job reported as failed for ever. *)
Lemma crawlSite_polls_until_completed_witness :
  FirecrawlCrawl.crawlSite client_slow "https://example.com" 10 3
  = Some (Runtime.Success [FirecrawlCrawl.crawl_page page_home])
  ∧ FirecrawlCrawl.crawlSite client_slow "https://example.com" 10 2 = None
  ∧ ∀ fuel, FirecrawlCrawl.crawlSite client_stuck "https://example.com" 10 fuel = None.
Proof.
  destruct (crawlSite_polls_until_completed client_slow "https://example.com" 10
              (Js.JObj [("jobId", Js.JStr "job-1")]) eq_refl eq_refl) as [Hdone _].
  destruct (crawlSite_polls_until_completed client_stuck "https://example.com" 10
              (Js.JObj [("jobId", Js.JStr "job-2")]) eq_refl eq_refl) as [_ Hstuck].
  assert (Hrunning : ∀ i, (i < 2)%nat →
            still_running client_slow
              (Js.prop (Js.JObj [("jobId", Js.JStr "job-1")]) "jobId") i).
  { intros i Hi. eexists. split; [reflexivity|].
    cbn. rewrite bool_decide_eq_true_2 by done. discriminate. }
  split_and!.
  - exact (Hdone 2%nat _ Hrunning eq_refl eq_refl 3%nat).
  - exact (Hdone 2%nat _ Hrunning eq_refl eq_refl 2%nat).
  - apply Hstuck. intros i. eexists. split; [reflexivity|discriminate].
Defined.

(** The theorem on a missing tracker at [world_fresh], which has no
    tracker 7. *)
Lemma unknown_tracker_changes_nothing_witness :
  TrackerEngine.runTracker env_prose 7 world_fresh
  = (Runtime.Returned (Runtime.Failure "Tracker not found"), Supabase.tick world_fresh)
  ∧ TrackerEngine.getTrackerWithResults env_prose 7 world_fresh
    = (Runtime.Returned
         (Runtime.Failure
            (Runtime.message_or "Failed to get tracker"
               (Runtime.PostgrestError env_prose
                  "JSON object requested, multiple (or no) rows returned"))),
       Supabase.tick world_fresh).
Proof.
  apply (unknown_tracker_changes_nothing env_prose 7 world_fresh).
  - reflexivity.
  - discriminate.
Defined.

(** The theorem on [countSources] at two results from exa and one
    without a source. *)
Lemma countSources_adds_up_witness :
  Js.map_get "exa" (UnifiedTracker.countSources id three_sources) = Some 2%nat
  ∧ Js.map_get "undefined" (UnifiedTracker.countSources id three_sources) = Some 1%nat
  ∧ total (UnifiedTracker.countSources id three_sources) = 3%nat.
Proof.
  destruct (countSources_adds_up id three_sources) as (Hcount & _ & Htotal).
  - intros [_ Hclash]. cbn in Hclash.
    repeat (apply elem_of_cons in Hclash as [Hclash|Hclash]; [discriminate Hclash|]).
    by apply not_elem_of_nil in Hclash.
  - split_and!.
    + exact (Hcount (Some "exa") ltac:(by left)).
    + exact (Hcount None ltac:(right; by left)).
    + exact Htotal.
Defined.

(** The theorem on unread errors at [world_two_runs], with a database that
    answers the lookup of the tracker only. *)
Lemma getTrackerWithResults_hides_read_errors_witness :
  TrackerEngine.getTrackerWithResults env_reads_fail 0 world_two_runs
  = (Runtime.Returned
       (Runtime.Success (TrackerEngine.mkTrackerView tracker_ai_ran None [])),
     Supabase.tick (Supabase.tick world_two_runs))
  ∧ Runtime.tracker_runs world_two_runs = [run_done; run_stuck].
Proof.
  split; [|reflexivity].
  destruct (getTrackerWithResults_hides_read_errors env_reads_fail world_two_runs 0
              tracker_ai_ran eq_refl eq_refl) as [Hruns _].
  exact (Hruns (plain_error "permission denied") eq_refl).
Defined.

(** The theorem on unnoticed write errors at [world_fresh], with a
    database that answers the first two requests only. *)
Lemma runTracker_ignores_write_errors_witness :
  ∃ w',
    TrackerEngine.runTracker env_writes_fail 0 world_fresh
    = (Runtime.Returned
         (Runtime.Success (TrackerEngine.mkRunPayload (Js.JArr collected_tools) 1)), w')
    ∧ Runtime.tracker_results w' = []
    ∧ Runtime.tracker_runs w' = [new_run world_fresh 0].
Proof.
  destruct (runTracker_ignores_write_errors env_writes_fail world_fresh 0 tracker_ai
              [Js.JStr "AI tools Product Hunt"; Js.JStr "new AI launches"])
    as (w' & Hrun & Hresults & Hruns).
  - reflexivity.
  - reflexivity.
  - intros n e. cbn. by destruct (bool_decide (n < 2)%nat).
  - reflexivity.
  - reflexivity.
  - intros [|r rs] w0; reflexivity.
  - discriminate.
  - exists w'. split_and!.
    + exact Hrun.
    + exact (Hresults (plain_error "permission denied") eq_refl).
    + exact (Hruns (plain_error "permission denied") eq_refl).
Defined.
